(** * Admission, scheduling, caching and retry pipeline of the Google Ads
      automation core: a shallow embedding and its verified properties.

    The development follows the layout of the Python package [core]:
    - [Errors]           core/errors.py
    - [Redis]            the shared store the package talks to (redis.asyncio)
    - [QuotaGovernor]    core/quota.py
    - [LRUCache], [CacheManager]   core/cache.py
    - [PriorityScheduler]          core/scheduler.py
    - [GoogleAdsManager]           core/google_ads_manager.py
    together with [ErrorResponse], the error handler of apps/api_server.py,
    and [Auth], the role checks of security/auth.py.

    Stateful code is written in explicit state-passing style: a function
    that touches the store takes the store and returns the new one together
    with its result; a function that may raise returns a [result]. *)

From Stdlib Require Import ZArith String Ascii List Bool Lia.
From Stdlib Require Import Sorting.Sorted Sorting.Permutation.
From Stdlib Require Import Floats.SpecFloat.
From stdpp Require Import base option list gmap strings pretty.

Set Warnings "-register-all".
Local Open Scope string_scope.
Local Open Scope list_scope.
Local Open Scope Z_scope.

(** ** Results of fallible code *)

Inductive result (E A : Type) : Type :=
| Ok (a : A)
| Raise (e : E).
Arguments Ok {E A} a.
Arguments Raise {E A} e.

(** ** core/errors.py *)

Module Errors.

Inductive ErrorCategory : Set :=
| AUTHENTICATION | AUTHORIZATION | QUOTA | RATE_LIMIT | VALIDATION
| NOT_FOUND | CONFLICT | INTERNAL | EXTERNAL_API | TIMEOUT | CIRCUIT_BREAKER.

(** The [details] dictionary of an error: string keys, in insertion order. *)
Definition Details := list (string * string).

Record ErrorDetail : Type := {
  category : ErrorCategory;
  code : string;
  message : string;
  http_status : Z;
  retryable : bool;
  details : Details
}.

(** The exception classes of the module; [isinstance] tests read [cls]. *)
Inductive ErrorClass : Set :=
| AuthenticationError | AuthorizationError | QuotaExceededError
| RateLimitError | ValidationError | NotFoundError | ConflictError
| TimeoutError | CircuitBreakerError | ExternalAPIError | InternalError.

Record AdsAPIError : Type := {
  cls : ErrorClass;
  error_detail : ErrorDetail
}.

(** [AdsAPIError.__init__], reached through a subclass constructor. *)
Definition init (c : ErrorClass) (msg : string) (cat : ErrorCategory)
    (cd : string) (http : Z) (retry : bool) (det : Details) : AdsAPIError :=
  {| cls := c;
     error_detail := {| category := cat; code := cd; message := msg;
                        http_status := http; retryable := retry;
                        details := det |} |}.

Definition mkAuthenticationError (msg : string) : AdsAPIError :=
  init AuthenticationError msg AUTHENTICATION "AUTH_FAILED" 401 false [].

Definition mkAuthorizationError (msg : string) : AdsAPIError :=
  init AuthorizationError msg AUTHORIZATION "PERMISSION_DENIED" 403 false [].

(** [client_id] is added to the details only when it is truthy. *)
Definition mkQuotaExceededError (msg : string) (client_id : option string)
    : AdsAPIError :=
  let error_details :=
    match client_id with
    | Some c => if String.eqb c "" then [] else [("client_id", c)]
    | None => []
    end in
  init QuotaExceededError msg QUOTA "QUOTA_EXCEEDED" 429 true error_details.

Definition mkRateLimitError (msg : string) : AdsAPIError :=
  init RateLimitError msg RATE_LIMIT "RATE_LIMIT_EXCEEDED" 429 true [].

Definition mkValidationError (msg : string) : AdsAPIError :=
  init ValidationError msg VALIDATION "VALIDATION_ERROR" 400 false [].

Definition mkNotFoundError (msg : string) : AdsAPIError :=
  init NotFoundError msg NOT_FOUND "NOT_FOUND" 404 false [].

Definition mkConflictError (msg : string) : AdsAPIError :=
  init ConflictError msg CONFLICT "CONFLICT" 409 false [].

Definition mkTimeoutError (msg : string) : AdsAPIError :=
  init TimeoutError msg TIMEOUT "TIMEOUT" 504 true [].

Definition mkCircuitBreakerError (msg : string) : AdsAPIError :=
  init CircuitBreakerError msg CIRCUIT_BREAKER "CIRCUIT_BREAKER_OPEN" 503 true [].

(** [google_ads_error_code] is added after the caller's details, and only
    when it is truthy (a non-empty string). *)
Definition mkExternalAPIError (msg : string)
    (google_ads_error_code : option string) (retry : bool) (det : Details)
    : AdsAPIError :=
  let error_details :=
    match google_ads_error_code with
    | Some c => if String.eqb c "" then det
                else det ++ [("google_ads_error_code", c)]
    | None => det
    end in
  init ExternalAPIError msg EXTERNAL_API "EXTERNAL_API_ERROR" 502 retry
       error_details.

Definition mkInternalError (msg : string) : AdsAPIError :=
  init InternalError msg INTERNAL "INTERNAL_ERROR" 500 false [].

(** [GOOGLE_ADS_ERROR_MAP], in the order of the source. *)
Definition GOOGLE_ADS_ERROR_MAP : list (string * ErrorClass) :=
  [ ("AUTHENTICATION_ERROR", AuthenticationError);
    ("AUTHORIZATION_ERROR", AuthorizationError);
    ("QUOTA_ERROR", QuotaExceededError);
    ("RATE_LIMIT_ERROR", RateLimitError);
    ("RESOURCE_EXHAUSTED", QuotaExceededError);
    ("INVALID_ARGUMENT", ValidationError);
    ("NOT_FOUND", NotFoundError);
    ("ALREADY_EXISTS", ConflictError);
    ("DEADLINE_EXCEEDED", TimeoutError);
    ("INTERNAL_ERROR", InternalError);
    ("UNAVAILABLE", ExternalAPIError) ].

(** [dict.get(key, default)] on a table with string keys. *)
Fixpoint dict_get {A : Type} (tbl : list (string * A)) (key : string)
    (default : A) : A :=
  match tbl with
  | [] => default
  | (k, v) :: rest => if String.eqb key k then v else dict_get rest key default
  end.

(** [key in tbl] for a Python list of strings or the keys of a table. *)
Fixpoint str_in (key : string) (l : list string) : bool :=
  match l with
  | [] => false
  | k :: rest => String.eqb key k || str_in key rest
  end.

Definition retryable_codes : list string :=
  [ "QUOTA_ERROR"; "RATE_LIMIT_ERROR"; "RESOURCE_EXHAUSTED";
    "DEADLINE_EXCEEDED"; "UNAVAILABLE" ].

(** What the mapper reads of an exception raised by the upstream SDK: its
    [error_code] attribute, when it has one, and its [str()]. *)
Record UpstreamException : Type := {
  error_code : option string;
  text : string
}.

(** Calling a mapped class with [message=...] only. *)
Definition instantiate (c : ErrorClass) (msg : string) : AdsAPIError :=
  match c with
  | AuthenticationError => mkAuthenticationError msg
  | AuthorizationError => mkAuthorizationError msg
  | QuotaExceededError => mkQuotaExceededError msg None
  | RateLimitError => mkRateLimitError msg
  | ValidationError => mkValidationError msg
  | NotFoundError => mkNotFoundError msg
  | ConflictError => mkConflictError msg
  | TimeoutError => mkTimeoutError msg
  | CircuitBreakerError => mkCircuitBreakerError msg
  | ExternalAPIError => mkExternalAPIError msg None false []
  | InternalError => mkInternalError msg
  end.

Definition map_google_ads_exception (exception : UpstreamException)
    : AdsAPIError :=
  let error_code :=
    match error_code exception with Some c => c | None => "UNKNOWN" end in
  let error_message := text exception in
  let error_class := dict_get GOOGLE_ADS_ERROR_MAP error_code ExternalAPIError in
  let retry := str_in error_code retryable_codes in
  match error_class with
  | ExternalAPIError =>
      mkExternalAPIError error_message (Some error_code) retry
                         [("original_error", error_code)]
  | c => instantiate c error_message
  end.

Definition kind (e : AdsAPIError) : ErrorCategory := category (error_detail e).
Definition is_retryable (e : AdsAPIError) : bool := retryable (error_detail e).

End Errors.

(** ** Python values, exceptions and the state-and-exception monad *)

Module Python.

(** The values that travel through the cache: what [json] can encode. *)
Inductive pyval : Type :=
| PNone
| PBool (b : bool)
| PInt (z : Z)
| PStr (s : string)
| PList (l : list pyval)
| PDict (d : list (string * pyval)).

(** [bool(v)]: the truth value Python gives a value in a condition. *)
Definition truthy (v : pyval) : bool :=
  match v with
  | PNone => false
  | PBool b => b
  | PInt z => negb (z =? 0)
  | PStr s => negb (String.eqb s "")
  | PList l => match l with [] => false | _ => true end
  | PDict d => match d with [] => false | _ => true end
  end.

(** The exceptions the modelled code meets. [AdsError] carries a typed
    error of core/errors.py; [AsyncioTimeoutError] is what
    [asyncio.wait_for] raises when its time is up; the others are built-in
    or come from the Redis client. *)
Inductive exn : Type :=
| ConnectionError
| ResponseError
| ValueError
| OverflowError
| AsyncioTimeoutError
| AdsError (e : Errors.AdsAPIError).

(** Code that reads and writes a state [S] and may raise. *)
Definition M (S A : Type) : Type := S -> result exn A * S.

Definition ret {S A} (a : A) : M S A := fun s => (Ok a, s).
Definition bind {S A B} (m : M S A) (k : A -> M S B) : M S B :=
  fun s => match m s with
           | (Ok a, s') => k a s'
           | (Raise e, s') => (Raise e, s')
           end.

(** A pure computation that may raise, run inside [M]. *)
Definition lift_result {S A} (r : result exn A) : M S A := fun s => (r, s).

(** *** Integers written as text *)

Definition code (a : ascii) : Z := Z.of_N (N_of_ascii a).

(** A decimal digit. *)
Definition digit_value (a : ascii) : option Z :=
  if (48 <=? code a) && (code a <=? 57) then Some (code a - 48) else None.

Fixpoint lstrip (space : ascii -> bool) (l : list ascii) : list ascii :=
  match l with
  | [] => []
  | a :: rest => if space a then lstrip space rest else l
  end.

Definition strip (space : ascii -> bool) (l : list ascii) : list ascii :=
  rev (lstrip space (rev (lstrip space l))).

(** The white space [int] skips at both ends of a byte string: the
    space and the bytes 9 to 13. *)
Definition is_space (a : ascii) : bool :=
  ((9 <=? code a) && (code a <=? 13)) || (code a =? 32).

(** The digits of an [int] literal: at least one digit, and single
    underscores between digits only. [acc] is the value read so far and
    [after_digit] tells whether the byte before was a digit. *)
Fixpoint int_digits (acc : Z) (after_digit : bool) (l : list ascii)
    : option Z :=
  match l with
  | [] => if after_digit then Some acc else None
  | a :: rest =>
      match digit_value a with
      | Some d => int_digits (10 * acc + d) true rest
      | None =>
          if Ascii.eqb a "_" && after_digit then int_digits acc false rest
          else None
      end
  end.

(** [int(b)] for a byte string [b]: white space at both ends is dropped,
    a sign may come first, and the rest is decimal digits, leading zeros
    allowed; [b' 42'], [b'+42'], [b'042'] and [b'4_2'] are all integers.
    Anything else raises ValueError. Text of more digits than the
    interpreter converts (4300 unless configured otherwise) is outside
    the model. *)
Definition int_of_bytes (s : string) : result exn Z :=
  let signed :=
    match strip is_space (list_ascii_of_string s) with
    | "-"%char :: rest => option_map Z.opp (int_digits 0 false rest)
    | "+"%char :: rest => int_digits 0 false rest
    | body => int_digits 0 false body
    end in
  match signed with
  | Some z => Ok z
  | None => Raise ValueError
  end.

(** The white space JSON allows around a value. *)
Definition is_json_space (a : ascii) : bool :=
  (code a =? 32) || (code a =? 9) || (code a =? 10) || (code a =? 13).

(** The digits of a JSON integer: a single [0], or a digit from 1 to 9
    followed by digits. *)
Definition json_digits (l : list ascii) : option Z :=
  match l with
  | [] => None
  | "0"%char :: rest => match rest with [] => Some 0 | _ => None end
  | _ => if forallb (fun a => match digit_value a with
                              | Some _ => true
                              | None => false
                              end) l
         then int_digits 0 false l
         else None
  end.

(** The integer a JSON document denotes when it is an integer written
    without fraction or exponent. *)
Definition json_int (s : string) : option Z :=
  match strip is_json_space (list_ascii_of_string s) with
  | "-"%char :: rest => option_map Z.opp (json_digits rest)
  | body => json_digits body
  end.

End Python.

Declare Scope py_scope.
Delimit Scope py_scope with py.
Notation "x <- m ;; k" := (Python.bind m (fun x => k))
  (at level 100, m at next level, right associativity) : py_scope.
Notation "m ;;; k" := (Python.bind m (fun _ => k))
  (at level 100, right associativity) : py_scope.

(** ** Error responses: [ErrorDetail.to_dict] of core/errors.py and the
    exception handler of apps/api_server.py *)

Module ErrorResponse.
Import Python.

(** [ErrorCategory.value]. *)
Definition category_value (c : Errors.ErrorCategory) : string :=
  match c with
  | Errors.AUTHENTICATION => "authentication"
  | Errors.AUTHORIZATION => "authorization"
  | Errors.QUOTA => "quota"
  | Errors.RATE_LIMIT => "rate_limit"
  | Errors.VALIDATION => "validation"
  | Errors.NOT_FOUND => "not_found"
  | Errors.CONFLICT => "conflict"
  | Errors.INTERNAL => "internal"
  | Errors.EXTERNAL_API => "external_api"
  | Errors.TIMEOUT => "timeout"
  | Errors.CIRCUIT_BREAKER => "circuit_breaker"
  end.

(** [ErrorDetail.to_dict]: the [details] entry is added only when the
    details dictionary is not empty. *)
Definition to_dict (d : Errors.ErrorDetail) : list (string * pyval) :=
  let result :=
    [ ("category", PStr (category_value (Errors.category d)));
      ("code", PStr (Errors.code d));
      ("message", PStr (Errors.message d));
      ("retryable", PBool (Errors.retryable d)) ] in
  match Errors.details d with
  | [] => result
  | det => result ++ [ ("details",
                        PDict (map (fun kv => (fst kv, PStr (snd kv))) det)) ]
  end.

(** [ads_api_error_handler]: the status code and the JSON content of the
    response. *)
Definition ads_api_error_handler (exc : Errors.AdsAPIError)
    : Z * list (string * pyval) :=
  (Errors.http_status (Errors.error_detail exc),
   to_dict (Errors.error_detail exc)).

End ErrorResponse.

(** ** IEEE-754 binary64 arithmetic, as Python's [float] uses it *)

Module PyFloat.

Definition prec : Z := 53.
Definition emax : Z := 1024.

(** [float(z)] for an int: the nearest double, ties to even;
    OverflowError when the int is too large for a double. *)
Definition of_int (z : Z) : result Python.exn spec_float :=
  match binary_normalize prec emax z 0 false with
  | S754_infinity _ => Raise Python.OverflowError
  | f => Ok f
  end.

Definition mul (x y : spec_float) : spec_float := SFmul prec emax x y.

(** [x * z] for a float [x] and an int [z]: the int is converted first. *)
Definition mul_int (x : spec_float) (z : Z) : result Python.exn spec_float :=
  match of_int z with
  | Ok f => Ok (mul x f)
  | Raise e => Raise e
  end.

(** [z < f] for an int [z] and a float [f]: Python compares the two
    numbers exactly, without rounding the int. *)
Definition int_lt (z : Z) (f : spec_float) : bool :=
  match f with
  | S754_zero _ => z <? 0
  | S754_infinity s => negb s
  | S754_nan => false
  | S754_finite s m e =>
      let v := if s then Z.neg m else Z.pos m in
      if 0 <=? e then z <? v * 2 ^ e
      else z * 2 ^ (- e) <? v
  end.

End PyFloat.

(** ** The shared store (Redis), as the package uses it *)

Module Redis.
Import Python.

(** A value held under a key. Redis holds byte strings; the package
    writes and reads three kinds of them, and the model keeps them apart:
    - [RInt z]: the decimal text of the integer [z] (what [set(k, z)],
      [set(k, '1')], INCRBY and DECRBY leave);
    - [RJson v]: the JSON text of a value [v] that is not an integer
      (what [json.dumps] produces for it);
    - [RText s]: any other byte string [s], for example a tier name, or
      an integer written another way, such as [b' 42'], which INCRBY
      refuses and [int] and [json.loads] accept. *)
Inductive rval : Type :=
| RInt (z : Z)
| RJson (v : pyval)
| RText (s : string).

(** [faults] scripts the availability of the server: each round trip
    consumes the head, and fails with ConnectionError when it is [true].
    An empty script is a server that stays reachable. [ttl] records the
    expiry SETEX attached to a key; expiry itself is not modelled. *)
Record Store : Type := {
  kv : gmap string rval;
  ttl : gmap string Z;
  faults : list bool
}.

(** The store once a round trip has been spent. *)
Definition advance (st : Store) : Store :=
  {| kv := kv st; ttl := ttl st; faults := tail (faults st) |}.

(** One round trip to the server. *)
Definition round_trip : M Store unit :=
  fun st =>
    if hd false (faults st) then (Raise ConnectionError, advance st)
    else (Ok tt, advance st).

(** The next [n] round trips find the server reachable. *)
Definition up (n : nat) (st : Store) : bool :=
  forallb negb (firstn n (faults st)).

Definition get (key : string) : M Store (option rval) :=
  (round_trip ;;; fun st => (Ok (kv st !! key), st))%py.

Definition set (key : string) (v : rval) : M Store unit :=
  (round_trip ;;;
   fun st => (Ok tt, {| kv := <[key := v]> (kv st);
                        ttl := base.delete key (ttl st);
                        faults := faults st |}))%py.

Definition setex (key : string) (seconds : Z) (v : rval) : M Store unit :=
  (round_trip ;;;
   fun st => (Ok tt, {| kv := <[key := v]> (kv st);
                        ttl := <[key := seconds]> (ttl st);
                        faults := faults st |}))%py.

Definition delete (key : string) : M Store unit :=
  (round_trip ;;;
   fun st => (Ok tt, {| kv := base.delete key (kv st);
                        ttl := base.delete key (ttl st);
                        faults := faults st |}))%py.

(** Redis integers are signed 64-bit. *)
Definition INT64_MIN : Z := - 2 ^ 63.
Definition INT64_MAX : Z := 2 ^ 63 - 1.
Definition in_int64 (z : Z) : bool := (INT64_MIN <=? z) && (z <=? INT64_MAX).

(** INCRBY on the value under a key: a missing key counts as 0; a value
    that is not a 64-bit integer, an increment that is not one, or a
    result out of range is an error and leaves the key as it was. *)
Definition incr_value (old : option rval) (delta : Z) : option rval :=
  if negb (in_int64 delta) then None
  else
    match old with
    | None => Some (RInt delta)
    | Some (RInt z) =>
        if in_int64 z && in_int64 (z + delta) then Some (RInt (z + delta))
        else None
    | Some _ => None
    end.

(** The commands the package queues on a pipeline. *)
Inductive command : Type :=
| INCRBY (key : string) (amount : Z)
| DECRBY (key : string) (amount : Z)
| SET (key : string) (v : rval).

(** One queued command applied to the data: the new data, and whether the
    command succeeded. DECRBY parses its amount as a 64-bit integer and
    negates it, which Redis refuses for the least 64-bit integer. *)
Definition apply_command (c : command) (m : gmap string rval)
    : gmap string rval * bool :=
  match c with
  | INCRBY key n =>
      match incr_value (m !! key) n with
      | Some v => (<[key := v]> m, true)
      | None => (m, false)
      end
  | DECRBY key n =>
      if negb (in_int64 n) || (n =? INT64_MIN) then (m, false)
      else match incr_value (m !! key) (- n) with
           | Some v => (<[key := v]> m, true)
           | None => (m, false)
           end
  | SET key v => (<[key := v]> m, true)
  end.

Fixpoint apply_commands (cs : list command) (m : gmap string rval)
    : gmap string rval * bool :=
  match cs with
  | [] => (m, true)
  | c :: rest =>
      let '(m1, ok1) := apply_command c m in
      let '(m2, ok2) := apply_commands rest m1 in
      (m2, ok1 && ok2)
  end.

Definition drop_ttl_of_sets (cs : list command) (t : gmap string Z)
    : gmap string Z :=
  fold_left (fun t c => match c with SET key _ => base.delete key t | _ => t end)
            cs t.

(** [pipeline.execute()]: the queued commands go to the server in one
    round trip and run in order (MULTI/EXEC); a command that fails does
    not stop the others, and the call raises once all have run. *)
Definition execute (cs : list command) : M Store unit :=
  (round_trip ;;;
   fun st =>
     let '(m, ok) := apply_commands cs (kv st) in
     let st' := {| kv := m; ttl := drop_ttl_of_sets cs (ttl st);
                   faults := faults st |} in
     if ok then (Ok tt, st') else (Raise ResponseError, st'))%py.

End Redis.

(** ** core/quota.py *)

Module QuotaGovernor.
Import Python.
Import Redis.

Inductive SLATier : Set := GOLD | SILVER | BRONZE.

(** [SLATier.value]. *)
Definition tier_value (t : SLATier) : string :=
  match t with GOLD => "gold" | SILVER => "silver" | BRONZE => "bronze" end.

Definition tier_eqb (a b : SLATier) : bool :=
  match a, b with
  | GOLD, GOLD | SILVER, SILVER | BRONZE, BRONZE => true
  | _, _ => false
  end.

(** The literal [0.15]: the double nearest to 15/100. *)
Definition BRONZE_RESERVE_THRESHOLD : spec_float :=
  S754_finite false 5404319552844595 (-55).

Definition global_remaining_key : string := "quota:global_remaining".
Definition global_daily_key : string := "quota:global_daily".
Definition client_remaining_key (client_id : string) : string :=
  "quota:client:" +:+ client_id +:+ ":remaining".
Definition tier_key (client_id : string) : string :=
  "client:" +:+ client_id +:+ ":tier".
Definition paused_key (client_id : string) : string :=
  "client:" +:+ client_id +:+ ":paused".

(** [int(v or default)] for the reply [v] of a GET: a missing key and
    the empty byte string are falsy and give the default; any other
    reply goes through [int], which raises ValueError on text that is
    not an integer, as the JSON text of a value that is not one. *)
Definition int_or (v : option rval) (default : Z) : result exn Z :=
  match v with
  | None => Ok default
  | Some (RInt z) => Ok z
  | Some (RText s) => if String.eqb s "" then Ok default else int_of_bytes s
  | Some (RJson _) => Raise ValueError
  end.

Definition read_int (key : string) (default : Z) : M Store Z :=
  (v <- get key ;; lift_result (int_or v default))%py.

(** The body of the [try] block of [can_run]. *)
Definition can_run_body (client_id : string) (units : Z) (tier : SLATier)
    : M Store bool :=
  (global_remaining <- read_int global_remaining_key 0 ;;
   client_remaining <- read_int (client_remaining_key client_id) 0 ;;
   global_daily <- read_int global_daily_key 1 ;;
   if (global_remaining <? units) || (client_remaining <? units) then
     ret false
   else if tier_eqb tier BRONZE then
     threshold <- lift_result
                    (PyFloat.mul_int BRONZE_RESERVE_THRESHOLD global_daily) ;;
     if PyFloat.int_lt global_remaining threshold then ret false
     else ret true
   else ret true)%py.

(** [can_run]: any exception of the body is logged and answered [True]. *)
Definition can_run (client_id : string) (units : Z) (tier : SLATier)
    (st : Store) : bool * Store :=
  match can_run_body client_id units tier st with
  | (Ok b, st') => (b, st')
  | (Raise _, st') => (true, st')
  end.

Definition charge_pipeline (client_id : string) (units : Z) : list command :=
  [ DECRBY global_remaining_key units;
    DECRBY (client_remaining_key client_id) units ].

Definition refund_pipeline (client_id : string) (units : Z) : list command :=
  [ INCRBY global_remaining_key units;
    INCRBY (client_remaining_key client_id) units ].

(** [charge] and [refund] log an exception and return normally. *)
Definition charge (client_id : string) (units : Z) (st : Store) : Store :=
  snd (execute (charge_pipeline client_id units) st).

Definition refund (client_id : string) (units : Z) (st : Store) : Store :=
  snd (execute (refund_pipeline client_id units) st).

(** [SLATier(text)]: the tier with that value, if any. *)
Definition tier_of_value (s : string) : option SLATier :=
  if String.eqb s "gold" then Some GOLD
  else if String.eqb s "silver" then Some SILVER
  else if String.eqb s "bronze" then Some BRONZE
  else None.

(** [get_client_tier]: a missing or empty value, a value that names no
    tier, and a store error all give BRONZE. *)
Definition get_client_tier (client_id : string) (st : Store)
    : SLATier * Store :=
  match get (tier_key client_id) st with
  | (Ok (Some (RText s)), st') =>
      match tier_of_value s with
      | Some t => (t, st')
      | None => (BRONZE, st')
      end
  | (_, st') => (BRONZE, st')
  end.

Definition set_client_tier (client_id : string) (tier : SLATier)
    : M Store unit :=
  set (tier_key client_id) (RText (tier_value tier)).

(** [is_client_paused]: true when the reply is the byte string [1];
    a store error is logged and answered [False]. *)
Definition is_client_paused (client_id : string) (st : Store)
    : bool * Store :=
  match get (paused_key client_id) st with
  | (Ok (Some (RInt 1)), st') => (true, st')
  | (_, st') => (false, st')
  end.

Definition pause_client (client_id : string) : M Store unit :=
  set (paused_key client_id) (RInt 1).

Definition resume_client (client_id : string) : M Store unit :=
  delete (paused_key client_id).

Definition reset_global_quota (daily_quota : Z) : M Store unit :=
  execute [ SET global_daily_key (RInt daily_quota);
            SET global_remaining_key (RInt daily_quota) ].

Definition set_client_quota (client_id : string) (quota : Z) : M Store unit :=
  set (client_remaining_key client_id) (RInt quota).

(** The dictionary [get_client_quota_status] returns. *)
Definition client_quota_status (client_id : string) (remaining : Z)
    (tier : SLATier) (paused : bool) : pyval :=
  PDict [ ("client_id", PStr client_id);
          ("remaining", PInt remaining);
          ("tier", PStr (tier_value tier));
          ("paused", PBool paused) ].

(** [get_client_quota_status]: an exception while the balance is read
    gives the default answer; the tier and pause lookups never raise. *)
Definition get_client_quota_status (client_id : string) (st : Store)
    : pyval * Store :=
  match read_int (client_remaining_key client_id) 0 st with
  | (Ok remaining, st1) =>
      let '(tier, st2) := get_client_tier client_id st1 in
      let '(paused, st3) := is_client_paused client_id st2 in
      (client_quota_status client_id remaining tier paused, st3)
  | (Raise _, st1) =>
      (client_quota_status client_id 0 BRONZE false, st1)
  end.

End QuotaGovernor.

(** ** core/cache.py *)

(** [collections.OrderedDict] with string keys: the entries from the least
    recently placed (the head, what [popitem(last=False)] removes) to the
    most recently placed (the end). Keys are unique. *)
Module OrderedDict.
Import Python.

Definition t : Type := list (string * pyval).

Fixpoint lookup (key : string) (d : t) : option pyval :=
  match d with
  | [] => None
  | (k, v) :: rest => if String.eqb key k then Some v else lookup key rest
  end.

(** [d.get(key)]: the value, or [None] when the key is missing. *)
Definition get (key : string) (d : t) : pyval :=
  match lookup key d with Some v => v | None => PNone end.

(** [d[key] = value]: an existing key keeps its place, a new one goes
    to the end. *)
Fixpoint setitem (key : string) (value : pyval) (d : t) : t :=
  match d with
  | [] => [(key, value)]
  | (k, v) :: rest =>
      if String.eqb key k then (k, value) :: rest
      else (k, v) :: setitem key value rest
  end.

Fixpoint remove (key : string) (d : t) : t :=
  match d with
  | [] => []
  | (k, v) :: rest =>
      if String.eqb key k then rest else (k, v) :: remove key rest
  end.

(** [d.move_to_end(key)]. Python raises KeyError on a missing key; both
    callers below hold the key when they call it, and the model leaves
    the dictionary unchanged in that case. *)
Definition move_to_end (key : string) (d : t) : t :=
  match lookup key d with
  | Some v => remove key d ++ [(key, v)]
  | None => d
  end.

(** [d.popitem(last=False)] on a non-empty dictionary. *)
Definition popitem_first (d : t) : t := tail d.

Definition keys (d : t) : list string := map fst d.

End OrderedDict.

Module LRUCache.
Import Python.

Record CacheStats : Type := {
  hits : Z;
  misses : Z;
  sets : Z;
  evictions : Z
}.

Record t : Type := {
  maxsize : Z;
  cache : OrderedDict.t;
  stats : CacheStats
}.

Definition new (maxsize : Z) : t :=
  {| maxsize := maxsize; cache := [];
     stats := {| hits := 0; misses := 0; sets := 0; evictions := 0 |} |}.

(** [get]: a stored value that is not [None] is a hit and becomes the
    most recent entry; anything else is a miss. *)
Definition get (key : string) (c : t) : pyval * t :=
  let value := OrderedDict.get key (cache c) in
  match value with
  | PNone =>
      (PNone,
       {| maxsize := maxsize c; cache := cache c;
          stats := {| hits := hits (stats c);
                      misses := misses (stats c) + 1;
                      sets := sets (stats c);
                      evictions := evictions (stats c) |} |})
  | _ =>
      (value,
       {| maxsize := maxsize c;
          cache := OrderedDict.move_to_end key (cache c);
          stats := {| hits := hits (stats c) + 1;
                      misses := misses (stats c);
                      sets := sets (stats c);
                      evictions := evictions (stats c) |} |})
  end.

(** The dictionary of [set] once the entry is placed, before any
    eviction. *)
Definition placed (key : string) (value : pyval) (c : t) : OrderedDict.t :=
  OrderedDict.move_to_end key (OrderedDict.setitem key value (cache c)).

Definition over_limit (d : OrderedDict.t) (c : t) : bool :=
  maxsize c <? Z.of_nat (length d).

Definition set (key : string) (value : pyval) (c : t) : t :=
  let d := placed key value c in
  if over_limit d c then
    {| maxsize := maxsize c;
       cache := OrderedDict.popitem_first d;
       stats := {| hits := hits (stats c);
                   misses := misses (stats c);
                   sets := sets (stats c) + 1;
                   evictions := evictions (stats c) + 1 |} |}
  else
    {| maxsize := maxsize c;
       cache := d;
       stats := {| hits := hits (stats c);
                   misses := misses (stats c);
                   sets := sets (stats c) + 1;
                   evictions := evictions (stats c) |} |}.

Definition delete (key : string) (c : t) : bool * t :=
  match OrderedDict.lookup key (cache c) with
  | Some _ =>
      (true, {| maxsize := maxsize c;
                cache := OrderedDict.remove key (cache c);
                stats := stats c |})
  | None => (false, c)
  end.

Definition size (c : t) : Z := Z.of_nat (length (cache c)).

(** [clear]: the entries go, the statistics stay. *)
Definition clear (c : t) : t :=
  {| maxsize := maxsize c; cache := []; stats := stats c |}.

Definition get_stats (c : t) : CacheStats := stats c.

End LRUCache.

Module CacheManager.
Import Python.

(** TTL policy by service type, in seconds. *)
Definition TTL_BY_SERVICE : list (string * Z) :=
  [ ("reporting", 300); ("campaign", 1800); ("keyword", 900);
    ("budget", 3600); ("customer", 86400); ("default", 300) ].

(** The two tiers: the in-process LRU and the shared store. *)
Record t : Type := {
  hot_cache : LRUCache.t;
  redis : Redis.Store
}.

Definition redis_key (cache_key : string) : string := "cache:" +:+ cache_key.

(** [json.dumps]: an integer is its decimal text, any other value its
    JSON document. *)
Definition json_dumps (v : pyval) : Redis.rval :=
  match v with
  | PInt z => Redis.RInt z
  | _ => Redis.RJson v
  end.

(** [json.loads] on a reply of the store: text that is not JSON raises. *)
Definition json_loads (r : Redis.rval) : result exn pyval :=
  match r with
  | Redis.RInt z => Ok (PInt z)
  | Redis.RJson v => Ok v
  | Redis.RText s =>
      match json_int s with
      | Some z => Ok (PInt z)
      | None => Raise ValueError
      end
  end.

(** The truth value of a reply: only the empty byte string is falsy. *)
Definition reply_truthy (r : Redis.rval) : bool :=
  match r with
  | Redis.RText s => negb (String.eqb s "")
  | _ => true
  end.

(** The [try] block of [get]: [Some data] when the shared store holds
    the key, [None] when the block falls through. *)
Definition redis_lookup (cache_key : string) (m : t)
    : result exn (option pyval) * t :=
  match Redis.get (redis_key cache_key) (redis m) with
  | (Raise e, st) => (Raise e, {| hot_cache := hot_cache m; redis := st |})
  | (Ok None, st) => (Ok None, {| hot_cache := hot_cache m; redis := st |})
  | (Ok (Some cached), st) =>
      if reply_truthy cached then
        match json_loads cached with
        | Raise e => (Raise e, {| hot_cache := hot_cache m; redis := st |})
        | Ok data =>
            (Ok (Some data),
             {| hot_cache := LRUCache.set cache_key data (hot_cache m);
                redis := st |})
        end
      else (Ok None, {| hot_cache := hot_cache m; redis := st |})
  end.

(** [get]: the LRU first, then the shared store; a hit there is promoted
    to the LRU. A store error is logged and answered [None]. The
    [service_type] argument is not used by the lookup. *)
Definition get (cache_key : string) (service_type : string) (m : t)
    : pyval * t :=
  let '(result, lru) := LRUCache.get cache_key (hot_cache m) in
  let m1 := {| hot_cache := lru; redis := redis m |} in
  match result with
  | PNone =>
      match redis_lookup cache_key m1 with
      | (Ok (Some data), m2) => (data, m2)
      | (_, m2) => (PNone, m2)
      end
  | _ => (result, m1)
  end.

(** [set]: the LRU, then the shared store with the TTL of the service
    type; a store error is logged and swallowed. *)
Definition set (cache_key : string) (value : pyval) (service_type : string)
    (ttl : option Z) (m : t) : t :=
  let cache_ttl :=
    match ttl with
    | Some n => n
    | None => Errors.dict_get TTL_BY_SERVICE service_type 300
    end in
  let lru := LRUCache.set cache_key value (hot_cache m) in
  let payload := json_dumps value in
  {| hot_cache := lru;
     redis := snd (Redis.setex (redis_key cache_key) cache_ttl payload
                               (redis m)) |}.

Definition delete (cache_key : string) (m : t) : t :=
  {| hot_cache := snd (LRUCache.delete cache_key (hot_cache m));
     redis := snd (Redis.delete (redis_key cache_key) (redis m)) |}.

(** A keyword argument of [build_cache_key]: the package passes strings
    and integers. *)
Inductive param : Type :=
| ParStr (s : string)
| ParInt (z : Z).

(** [str(v)], as the f-string renders it. *)
Definition py_str (v : param) : string :=
  match v with
  | ParStr s => s
  | ParInt z => pretty z
  end.

(** [sorted(params.items())]: the keys of a dictionary are unique, so the
    order of the pairs is the order of their keys. *)
Fixpoint insert_sorted (kv : string * param) (l : list (string * param))
    : list (string * param) :=
  match l with
  | [] => [kv]
  | kv' :: rest =>
      if String.leb (fst kv) (fst kv') then kv :: l
      else kv' :: insert_sorted kv rest
  end.

Definition sorted (l : list (string * param)) : list (string * param) :=
  fold_right insert_sorted [] l.

(** [sep.join(parts)]. *)
Fixpoint join (sep : string) (parts : list string) : string :=
  match parts with
  | [] => ""
  | [x] => x
  | x :: rest => x +:+ sep +:+ join sep rest
  end.

Definition build_cache_key (client_id operation : string)
    (params : list (string * param)) : string :=
  let param_str :=
    join ":" (map (fun kv => fst kv +:+ "=" +:+ py_str (snd kv))
                  (sorted params)) in
  if String.eqb param_str "" then
    "client:" +:+ client_id +:+ ":" +:+ operation
  else
    "client:" +:+ client_id +:+ ":" +:+ operation +:+ ":" +:+ param_str.

End CacheManager.

(** ** core/scheduler.py *)

Module PriorityScheduler.
Import QuotaGovernor.

(** SLA weight mapping, keyed by the tier's value. *)
Definition SLA_WEIGHT : list (string * Z) :=
  [ ("gold", 3); ("silver", 2); ("bronze", 1) ].

Section WithWork.
(** The coroutine function an operation carries. *)
Variable Work : Type.

(** [timestamp] is the reading of [time.time()] at submission; the
    queue only compares readings, and the model keeps them as
    integers (clock ticks). *)
Record Operation : Type := {
  priority : Z;
  timestamp : Z;
  fn : Work;
  args : list Python.pyval;
  kwargs : list (string * Python.pyval);
  client_id : string;
  tier : SLATier;
  urgency : Z
}.

(** [Operation.__lt__]. *)
Definition lt (self other : Operation) : bool :=
  if negb (priority self =? priority other)
  then priority self <? priority other
  else timestamp self <? timestamp other.

Record SchedulerStats : Type := {
  submitted : Z;
  completed : Z;
  failed : Z;
  by_tier : SLATier -> Z
}.

(** [queue] holds the items of the [asyncio.PriorityQueue]. *)
Record t : Type := {
  workers : Z;
  queue : list Operation;
  stats : SchedulerStats;
  running : bool
}.

Definition new (workers : Z) : t :=
  {| workers := workers; queue := [];
     stats := {| submitted := 0; completed := 0; failed := 0;
                 by_tier := fun _ => 0 |};
     running := false |}.

(** The priority [submit] derives from tier and urgency. *)
Definition compute_priority (tier : SLATier) (urgency : Z) : Z :=
  let urgency_clamped := Z.max 0 (Z.min urgency 99) in
  let base_priority := 100 - urgency_clamped in
  let tier_weight := Errors.dict_get SLA_WEIGHT (tier_value tier) 1 in
  base_priority / tier_weight.

(** [submit]; [now] is the clock reading taken for the timestamp, and
    [posargs] and [kwds] are the extra arguments kept for [fn]. *)
Definition submit (f : Work) (client : string) (tr : SLATier)
    (urg : Z) (posargs : list Python.pyval)
    (kwds : list (string * Python.pyval)) (now : Z) (s : t) : t :=
  let urgency_clamped := Z.max 0 (Z.min urg 99) in
  let operation :=
    {| priority := compute_priority tr urg;
       timestamp := now;
       fn := f;
       args := posargs;
       kwargs := kwds;
       client_id := client;
       tier := tr;
       urgency := urgency_clamped |} in
  {| workers := workers s;
     queue := operation :: queue s;
     stats := {| submitted := submitted (stats s) + 1;
                 completed := completed (stats s);
                 failed := failed (stats s);
                 by_tier := fun x => if tier_eqb x tr
                                     then by_tier (stats s) x + 1
                                     else by_tier (stats s) x |};
     running := running s |}.

(** [PriorityQueue.get]: the queue hands out a least item, one that no
    queued item is [lt] than. [extract_min best l] scans [l] for an item
    [lt] than the best so far and returns the least item with the others. *)
Fixpoint extract_min (best : Operation) (l : list Operation)
    : Operation * list Operation :=
  match l with
  | [] => (best, [])
  | x :: rest =>
      if lt x best then
        let '(m, others) := extract_min x rest in (m, best :: others)
      else
        let '(m, others) := extract_min best rest in (m, x :: others)
  end.

Definition get (l : list Operation) : option (Operation * list Operation) :=
  match l with
  | [] => None
  | x :: rest => Some (extract_min x rest)
  end.

(** The items in the order successive [get]s hand them out. The first
    argument bounds the number of items. *)
Fixpoint drain (n : nat) (l : list Operation) : list Operation :=
  match n with
  | O => []
  | S n' =>
      match get l with
      | None => []
      | Some (x, rest) => x :: drain n' rest
      end
  end.

Definition dequeue_all (l : list Operation) : list Operation :=
  drain (length l) l.

End WithWork.

Arguments priority {Work} _.
Arguments timestamp {Work} _.
Arguments fn {Work} _.
Arguments args {Work} _.
Arguments kwargs {Work} _.
Arguments client_id {Work} _.
Arguments tier {Work} _.
Arguments urgency {Work} _.
Arguments lt {Work} _ _.
Arguments workers {Work} _.
Arguments queue {Work} _.
Arguments stats {Work} _.
Arguments running {Work} _.
Arguments new {Work} _.
Arguments submit {Work} _ _ _ _ _ _ _ _.
Arguments extract_min {Work} _ _.
Arguments get {Work} _.
Arguments drain {Work} _ _.
Arguments dequeue_all {Work} _.

Section Worker.
Variable Work : Type.
(** What the operations act on, and how a coroutine function runs on its
    arguments. *)
Variable St : Type.
Variable call : Work -> list Python.pyval -> list (string * Python.pyval) ->
                Python.M St Python.pyval.

(** [Operation.execute]. *)
Definition execute (operation : Operation Work) : Python.M St Python.pyval :=
  call (fn operation) (args operation) (kwargs operation).

(** [start]: nothing when the scheduler is already running; otherwise the
    flag is set and the worker tasks are created. The tasks are not part
    of the record: what they do is [worker_pass]. *)
Definition start (s : t Work) : t Work :=
  if running s then s
  else {| workers := workers s; queue := queue s; stats := stats s;
          running := true |}.

(** One pass of the loop of [_worker]. The loop ends when the scheduler is
    not running, and a pass that finds the queue empty times out and
    changes nothing; otherwise the least operation leaves the queue and
    runs, and is counted completed, or failed when it raises. *)
Definition worker_pass (s : t Work) (x : St) : t Work * St :=
  if negb (running s) then (s, x)
  else
    match get (queue s) with
    | None => (s, x)
    | Some (operation, rest) =>
        match execute operation x with
        | (Ok _, x') =>
            ({| workers := workers s; queue := rest;
                stats := {| submitted := submitted (stats s);
                            completed := completed (stats s) + 1;
                            failed := failed (stats s);
                            by_tier := by_tier (stats s) |};
                running := running s |}, x')
        | (Raise _, x') =>
            ({| workers := workers s; queue := rest;
                stats := {| submitted := submitted (stats s);
                            completed := completed (stats s);
                            failed := failed (stats s) + 1;
                            by_tier := by_tier (stats s) |};
                running := running s |}, x')
        end
    end.

(** [SchedulerStats.to_dict]. *)
Definition to_dict (st : SchedulerStats) : list (string * Python.pyval) :=
  [ ("submitted", Python.PInt (submitted st));
    ("completed", Python.PInt (completed st));
    ("failed", Python.PInt (failed st));
    ("pending", Python.PInt (submitted st - completed st - failed st));
    ("by_tier", Python.PDict [ ("gold", Python.PInt (by_tier st GOLD));
                               ("silver", Python.PInt (by_tier st SILVER));
                               ("bronze", Python.PInt (by_tier st BRONZE)) ]) ].

(** [get_stats]. *)
Definition get_stats (s : t Work) : list (string * Python.pyval) :=
  to_dict (stats s) ++
  [ ("queue_size", Python.PInt (Z.of_nat (length (queue s))));
    ("workers", Python.PInt (workers s));
    ("running", Python.PBool (running s)) ].

End Worker.

Arguments execute {Work St} _ _.
Arguments start {Work} _.
Arguments worker_pass {Work St} _ _ _.
Arguments get_stats {Work} _.

End PriorityScheduler.

(** ** core/google_ads_manager.py *)

Module GoogleAdsManager.
Import Python.
Import QuotaGovernor.

Record GAQLRequest : Type := {
  query : string;
  client_id : string;
  page_size : Z;
  cache_enabled : bool;
  service_type : string
}.

Record MutateRequest : Type := {
  operations : list pyval;
  mutate_client_id : string;
  operation_type : string;
  validate_only : bool
}.

(** The upstream capability. A call either returns a value or raises an
    SDK exception; the first argument is the number of upstream calls
    made before this one, so that a client may fail for a while and then
    recover. *)
Record Client : Type := {
  search : nat -> string -> string -> Z -> result Errors.UpstreamException pyval;
  mutate : nat -> string -> list pyval -> bool ->
           result Errors.UpstreamException pyval
}.

(** [MockGoogleAdsClient]: a search returns one campaign row, a mutate one
    result per operation; neither ever raises. *)
Definition mock_row : pyval :=
  PDict [ ("campaign", PDict [ ("id", PStr "123456789");
                               ("name", PStr "Mock Campaign");
                               ("status", PStr "ENABLED") ]);
          ("metrics", PDict [ ("impressions", PInt 1000);
                              ("clicks", PInt 50);
                              ("cost_micros", PInt 5000000) ]) ].

Definition mock_result (customer_id : string) (i : nat) : pyval :=
  PDict [ ("resource_name",
           PStr ("customers/" +:+ customer_id +:+ "/campaigns/" +:+ pretty i));
          ("operation_id", PStr (pretty i)) ].

Definition MockGoogleAdsClient : Client :=
  {| search := fun _ _ _ _ => Ok (PList [mock_row]);
     mutate := fun _ customer_id ops _ =>
       Ok (PDict [ ("results",
                    PList (map (mock_result customer_id) (seq 0 (length ops))));
                   ("partial_failure_error", PNone) ]) |}.

(** The operation function and arguments a scheduled operation runs. *)
Inductive Call : Type :=
| SearchCall (customer_id query : string) (page_size : Z)
| MutateCall (customer_id : string) (operations : list pyval)
             (validate_only : bool).

(** What a request can read and write: the shared store (one Redis
    client serves the quota governor and the cache manager), the
    in-process LRU, the scheduler, the count of upstream calls made, and
    the clock [submit] reads. [waits] scripts the waits for the workers:
    each [wait_for_completion] consumes the head, and its 120 seconds run
    out before the workers are done when it is [true]. An empty script
    is a service whose workers are always done in time.

    A world is the service between two requests: requests are handled one
    at a time, and no operation of another request is in flight. On a
    service started as apps/api_server.py starts it, the workers have by
    then emptied the queue; on one that was never started, the queue
    keeps every operation submitted. *)
Record World : Type := {
  redis : Redis.Store;
  hot_cache : LRUCache.t;
  scheduler : PriorityScheduler.t Call;
  upstream_calls : nat;
  clock : Z;
  waits : list bool
}.

Definition with_redis (w : World) (st : Redis.Store) : World :=
  {| redis := st; hot_cache := hot_cache w; scheduler := scheduler w;
     upstream_calls := upstream_calls w; clock := clock w;
     waits := waits w |}.

Definition with_cache (w : World) (m : CacheManager.t) : World :=
  {| redis := CacheManager.redis m;
     hot_cache := CacheManager.hot_cache m;
     scheduler := scheduler w;
     upstream_calls := upstream_calls w; clock := clock w;
     waits := waits w |}.

(** The cache manager's view of the world. *)
Definition cache_manager (w : World) : CacheManager.t :=
  {| CacheManager.hot_cache := hot_cache w; CacheManager.redis := redis w |}.

(** [tenacity]'s [retry_if_exception_type((RateLimitError, ExternalAPIError))]. *)
Definition retry_if_exception_type (e : exn) : bool :=
  match e with
  | AdsError a =>
      match Errors.cls a with
      | Errors.RateLimitError | Errors.ExternalAPIError => true
      | _ => false
      end
  | _ => false
  end.

(** [tenacity.retry] with [reraise=True]: run the attempt; on an
    exception the retry condition accepts, run it again unless the
    attempts are used up, in which case the last exception is raised
    again. [retries_left] counts the attempts still allowed after this
    one. The waits between attempts take time and change no state. *)
Fixpoint with_retry {A : Type} (retries_left : nat) (attempt : M World A)
    : M World A :=
  fun w =>
    match attempt w with
    | (Ok v, w1) => (Ok v, w1)
    | (Raise e, w1) =>
        if retry_if_exception_type e then
          match retries_left with
          | O => (Raise e, w1)
          | S k => with_retry k attempt w1
          end
        else (Raise e, w1)
    end.

(** [stop_after_attempt(3)]. *)
Definition MAX_ATTEMPTS : nat := 3.

Section WithClient.
Variable client : Client.

Definition count_call (w : World) : World :=
  {| redis := redis w; hot_cache := hot_cache w; scheduler := scheduler w;
     upstream_calls := S (upstream_calls w); clock := clock w;
     waits := waits w |}.

(** The body of [_search_with_retry]: one upstream call, its exception
    mapped to a typed error. *)
Definition search_attempt (customer_id query : string) (page_size : Z)
    : M World pyval :=
  fun w =>
    match search client (upstream_calls w) customer_id query page_size with
    | Ok results => (Ok results, count_call w)
    | Raise e =>
        (Raise (AdsError (Errors.map_google_ads_exception e)), count_call w)
    end.

(** The body of [_mutate_with_retry]. *)
Definition mutate_attempt (customer_id : string) (ops : list pyval)
    (validate : bool) : M World pyval :=
  fun w =>
    match mutate client (upstream_calls w) customer_id ops validate with
    | Ok response => (Ok response, count_call w)
    | Raise e =>
        (Raise (AdsError (Errors.map_google_ads_exception e)), count_call w)
    end.

Definition _search_with_retry (customer_id query : string) (page_size : Z)
    : M World pyval :=
  with_retry (pred MAX_ATTEMPTS) (search_attempt customer_id query page_size).

Definition _mutate_with_retry (customer_id : string) (ops : list pyval)
    (validate : bool) : M World pyval :=
  with_retry (pred MAX_ATTEMPTS) (mutate_attempt customer_id ops validate).

Definition run_call (c : Call) : M World pyval :=
  match c with
  | SearchCall cid q ps => _search_with_retry cid q ps
  | MutateCall cid ops v => _mutate_with_retry cid ops v
  end.

(** [submit] stamps the operation with the clock and queues it. *)
Definition submit_call (c : Call) (cid : string) (tier : SLATier)
    (urgency : Z) (w : World) : World :=
  {| redis := redis w; hot_cache := hot_cache w;
     scheduler := PriorityScheduler.submit c cid tier urgency [] [] (clock w)
                                           (scheduler w);
     upstream_calls := upstream_calls w; clock := clock w + 1;
     waits := waits w |}.

(** A worker has taken the operation just submitted off the queue and run
    it to its end: [wrapped_operation] catches every exception, so the
    worker counts it completed. *)
Definition task_done (w : World) : World :=
  let s := scheduler w in
  let st := PriorityScheduler.stats s in
  {| redis := redis w; hot_cache := hot_cache w;
     scheduler :=
       {| PriorityScheduler.workers := PriorityScheduler.workers s;
          PriorityScheduler.queue := tail (PriorityScheduler.queue s);
          PriorityScheduler.stats :=
            {| PriorityScheduler.submitted := PriorityScheduler.submitted st;
               PriorityScheduler.completed := PriorityScheduler.completed st + 1;
               PriorityScheduler.failed := PriorityScheduler.failed st;
               PriorityScheduler.by_tier := PriorityScheduler.by_tier st |};
          PriorityScheduler.running := PriorityScheduler.running s |};
     upstream_calls := upstream_calls w; clock := clock w;
     waits := waits w |}.

(** The workers take operations off the queue: [start] has set the flag
    their loop tests, and it created at least one worker task. *)
Definition workers_run (s : PriorityScheduler.t Call) : bool :=
  PriorityScheduler.running s && (0 <? PriorityScheduler.workers s).

(** One [wait_for_completion] is over. *)
Definition wait_over (w : World) : World :=
  {| redis := redis w; hot_cache := hot_cache w; scheduler := scheduler w;
     upstream_calls := upstream_calls w; clock := clock w;
     waits := tail (waits w) |}.

(** [_execute_operation]: submit the wrapped operation, wait up to 120
    seconds for the workers, then raise the error the operation left or
    return its result.

    On a scheduler whose workers do not run, the operation stays queued,
    nothing else happens and the wait ends in [asyncio.TimeoutError].
    Otherwise a worker takes the operation, the only one the workers
    have to run, off the queue: the wrapped operation makes the call,
    charges the quota when the call succeeds, and catches every
    exception. When the script says the wait runs out first, the caller
    gets [asyncio.TimeoutError] whatever the operation does; its worker
    is not cancelled, and the model lets it finish, charge included,
    before the next request. *)
Definition _execute_operation (c : Call) (cid : string) (tier : SLATier)
    (urgency quota_units : Z) : M World pyval :=
  fun w =>
    let w1 := submit_call c cid tier urgency w in
    if negb (workers_run (scheduler w1)) then
      (Raise AsyncioTimeoutError, wait_over w1)
    else
      let timed_out := hd false (waits w1) in
      match run_call c w1 with
      | (Ok result, w2) =>
          let w3 := wait_over
                      (task_done
                         (with_redis w2 (charge cid quota_units (redis w2)))) in
          if timed_out then (Raise AsyncioTimeoutError, w3)
          else (Ok result, w3)
      | (Raise e, w2) =>
          let w3 := wait_over (task_done w2) in
          if timed_out then (Raise AsyncioTimeoutError, w3)
          else (Raise e, w3)
      end.

Definition gaql_cache_key (request : GAQLRequest) : string :=
  CacheManager.build_cache_key (client_id request) "gaql"
    [ ("query", CacheManager.ParStr (query request));
      ("page_size", CacheManager.ParInt (page_size request)) ].

Definition paused_error (cid : string) : exn :=
  AdsError (Errors.mkQuotaExceededError
              ("Client " +:+ cid +:+ " is paused") (Some cid)).

(** [execute_gaql] from the tier lookup on: what runs when the cache
    gave no answer. *)
Definition gaql_uncached (request : GAQLRequest) (urgency : Z)
    : M World pyval :=
  fun w =>
    let cid := client_id request in
    let '(tier, st1) := get_client_tier cid (redis w) in
    let '(paused, st2) := is_client_paused cid st1 in
    if paused then (Raise (paused_error cid), with_redis w st2)
    else
      let quota_units := 10 in
      let '(allowed, st3) := can_run cid quota_units tier st2 in
      if negb allowed then
        (Raise (AdsError (Errors.mkQuotaExceededError
                            "Insufficient quota for GAQL query" (Some cid))),
         with_redis w st3)
      else
        match _execute_operation
                (SearchCall cid (query request) (page_size request))
                cid tier urgency quota_units (with_redis w st3) with
        | (Raise e, w4) => (Raise e, w4)
        | (Ok result, w4) =>
            if cache_enabled request && truthy result then
              (Ok result,
               with_cache w4
                 (CacheManager.set (gaql_cache_key request) result
                    (service_type request) None (cache_manager w4)))
            else (Ok result, w4)
        end.

Definition execute_gaql (request : GAQLRequest) (urgency : Z)
    : M World pyval :=
  fun w =>
    if cache_enabled request then
      let '(cached_result, m) :=
        CacheManager.get (gaql_cache_key request) (service_type request)
                         (cache_manager w) in
      match cached_result with
      | PNone => gaql_uncached request urgency (with_cache w m)
      | _ => (Ok cached_result, with_cache w m)
      end
    else gaql_uncached request urgency w.

Definition execute_mutate (request : MutateRequest) (urgency : Z)
    : M World pyval :=
  fun w =>
    let cid := mutate_client_id request in
    let '(tier, st1) := get_client_tier cid (redis w) in
    let '(paused, st2) := is_client_paused cid st1 in
    if paused then (Raise (paused_error cid), with_redis w st2)
    else
      let quota_units := 50 * Z.of_nat (length (operations request)) in
      let '(allowed, st3) := can_run cid quota_units tier st2 in
      if negb allowed then
        (Raise (AdsError (Errors.mkQuotaExceededError
                            "Insufficient quota for mutate operation"
                            (Some cid))),
         with_redis w st3)
      else
        _execute_operation
          (MutateCall cid (operations request) (validate_only request))
          cid tier urgency quota_units (with_redis w st3).

End WithClient.

End GoogleAdsManager.

(** ** security/auth.py: role-based access control *)

Module Auth.

Inductive Role : Set := ADMIN | OPS | VIEWER.

(** [Role.value]. *)
Definition role_value (r : Role) : string :=
  match r with ADMIN => "admin" | OPS => "ops" | VIEWER => "viewer" end.

Definition role_eqb (a b : Role) : bool :=
  match a, b with
  | ADMIN, ADMIN | OPS, OPS | VIEWER, VIEWER => true
  | _, _ => false
  end.

(** The decoded token; the two times are seconds since the epoch. *)
Record TokenData : Type := {
  sub : string;
  role : Role;
  aud : string;
  iss : string;
  exp : Z;
  iat : Z
}.

Record HTTPException : Type := {
  status_code : Z;
  detail : string
}.

(** [repr] of a list of strings that hold no quote or escape, as the
    f-string of the error detail renders the role values. *)
Definition repr_list (l : list string) : string :=
  "[" +:+ CacheManager.join ", " (map (fun s => "'" +:+ s +:+ "'") l) +:+ "]".

(** [role in allowed_roles]. *)
Definition role_in (r : Role) (allowed_roles : list Role) : bool :=
  existsb (role_eqb r) allowed_roles.

(** [require_role(allowed_roles)]: the [role_checker] it returns, applied
    to the token of the current user. *)
Definition require_role (allowed_roles : list Role) (token_data : TokenData)
    : result HTTPException TokenData :=
  if negb (role_in (role token_data) allowed_roles) then
    Raise {| status_code := 403;
             detail := "Insufficient permissions. Required roles: " +:+
                       repr_list (map role_value allowed_roles) |}
  else Ok token_data.

Definition require_admin : TokenData -> result HTTPException TokenData :=
  require_role [ADMIN].
Definition require_ops : TokenData -> result HTTPException TokenData :=
  require_role [ADMIN; OPS].
Definition require_viewer : TokenData -> result HTTPException TokenData :=
  require_role [ADMIN; OPS; VIEWER].

Definition require_roles (roles : list Role)
    : TokenData -> result HTTPException TokenData :=
  require_role roles.

End Auth.

(** * Specification vocabulary

    The predicates, histories and example states the theorems are stated
    with. *)

(** ** Error taxonomy *)

Section ErrorTaxonomySpec.
Import Errors.

Definition upstream_code (x : UpstreamException) : string :=
  match error_code x with Some c => c | None => "UNKNOWN" end.

Definition in_mapping_table (c : string) : bool :=
  str_in c (map fst GOOGLE_ADS_ERROR_MAP).

Definition retryable_kind (k : ErrorCategory) : bool :=
  match k with
  | QUOTA | RATE_LIMIT | TIMEOUT | CIRCUIT_BREAKER => true
  | _ => false
  end.

End ErrorTaxonomySpec.

(** ** Quota governor *)

Section QuotaSpec.
Import Python Redis QuotaGovernor.

(** The store answers the round trip made after [n] others, whatever
    becomes of those. *)
Definition answers (n : nat) (st : Store) : Prop :=
  nth n (faults st) false = false.

(** The decision [can_run] takes once its three reads have succeeded. *)
Definition admission (global_remaining client_remaining global_daily units : Z)
    (tier : SLATier) : bool :=
  if (global_remaining <? units) || (client_remaining <? units) then false
  else if tier_eqb tier BRONZE then
    match PyFloat.mul_int BRONZE_RESERVE_THRESHOLD global_daily with
    | Ok threshold => negb (PyFloat.int_lt global_remaining threshold)
    | Raise _ => true
    end
  else true.

(** A tenant with 500 units while 1000 of a daily 10000 remain globally:
    under the 15% reserve line. *)
Definition low_global_store : Store :=
  {| kv := list_to_map [ (global_remaining_key, RInt 1000);
                         (client_remaining_key "t", RInt 500);
                         (global_daily_key, RInt 10000) ];
     ttl := ∅; faults := [] |}.

(** A daily budget of 2^60 units, with a global balance equal to the
    float product [0.15 * 2^60]. *)
Definition huge_budget_store : Store :=
  {| kv := list_to_map [ (global_remaining_key, RInt 172938225691027040);
                         (client_remaining_key "t", RInt 500);
                         (global_daily_key, RInt (2 ^ 60)) ];
     ttl := ∅; faults := [] |}.

(** Exhausted balances behind a store that fails its second round trip. *)
Definition flaky_store : Store :=
  {| kv := list_to_map [ (global_remaining_key, RInt 0);
                         (client_remaining_key "t", RInt 0);
                         (global_daily_key, RInt 10000) ];
     ttl := ∅; faults := [false; true] |}.

(** Balances of 10000 (global) and 500 (tenant), store reachable. *)
Definition quota_store : Store :=
  {| kv := list_to_map [ (global_remaining_key, RInt 10000);
                         (client_remaining_key "t", RInt 500) ];
     ttl := ∅; faults := [] |}.

(** The same balances behind a store that answers one round trip and
    fails the next. *)
Definition quota_store_outage : Store :=
  {| kv := kv quota_store; ttl := ∅; faults := [false; true] |}.

End QuotaSpec.

(** ** LRU histories *)

Section LRUSpec.
Import Python.

(** An operation on the LRU. *)
Inductive lru_op : Type :=
| OpGet (key : string)
| OpSet (key : string) (value : pyval).

(** The key whose recency an operation refreshes: [set] always, [get] on
    a hit. *)
Definition accessed (c : LRUCache.t) (op : lru_op) : option string :=
  match op with
  | OpSet k _ => Some k
  | OpGet k =>
      match OrderedDict.get k (LRUCache.cache c) with
      | PNone => None
      | _ => Some k
      end
  end.

Definition apply_op (op : lru_op) (c : LRUCache.t) : LRUCache.t :=
  match op with
  | OpGet k => snd (LRUCache.get k c)
  | OpSet k v => LRUCache.set k v c
  end.

(** Runs the operations in order and keeps the access log, most recent
    access first. *)
Fixpoint replay (ops : list lru_op) (c : LRUCache.t) (log : list (option string))
    : LRUCache.t * list (option string) :=
  match ops with
  | [] => (c, log)
  | op :: rest => replay rest (apply_op op c) (accessed c op :: log)
  end.

Definition accesses (a : option string) (k : string) : bool :=
  match a with
  | Some k' => String.eqb k' k
  | None => false
  end.

(** The time of the last access to [k]: the position, counted from 1, of
    the last operation that accessed it; 0 when none did. *)
Fixpoint last_access (log : list (option string)) (k : string) : nat :=
  match log with
  | [] => 0
  | a :: older =>
      if accesses a k then length log else last_access older k
  end.

(** The dictionary is ordered by recency: along it the last-access times
    strictly increase, and every key it holds has been accessed. *)
Definition recency_ordered (log : list (option string)) (d : OrderedDict.t) : Prop :=
  StronglySorted lt (map (last_access log) (OrderedDict.keys d)) /\
  Forall (fun k => (0 < last_access log k)%nat) (OrderedDict.keys d).

(** The values successive [get]s return. *)
Fixpoint get_each (keys : list string) (c : LRUCache.t) : list pyval :=
  match keys with
  | [] => []
  | k :: rest =>
      let '(v, c') := LRUCache.get k c in v :: get_each rest c'
  end.

(** Scenario S2, on a cache of capacity 3. *)
Definition scenario_S2 : list lru_op :=
  [ OpSet "A" (PInt 1); OpSet "B" (PInt 2); OpSet "C" (PInt 3);
    OpGet "A"; OpSet "D" (PInt 4) ].

End LRUSpec.

(** ** Queue order *)

Section SchedulerSpec.
Import QuotaGovernor.
Variable Work : Type.

(** Ascending (priority, timestamp) order. *)
Definition key_le (a b : PriorityScheduler.Operation Work) : Prop :=
  PriorityScheduler.priority a < PriorityScheduler.priority b \/
  (PriorityScheduler.priority a = PriorityScheduler.priority b /\
   PriorityScheduler.timestamp a <= PriorityScheduler.timestamp b).

Definition summary (o : PriorityScheduler.Operation Work) : SLATier * Z * Z :=
  (PriorityScheduler.tier o, PriorityScheduler.urgency o,
   PriorityScheduler.priority o).

End SchedulerSpec.

Arguments key_le {Work} _ _.
Arguments summary {Work} _.

(** ** Cache keys *)

Section CacheKeySpec.
Import CacheManager.

(** [params[k]] for a keyword dictionary, when it has the key. *)
Fixpoint param_lookup (k : string) (params : list (string * param))
    : option param :=
  match params with
  | [] => None
  | (k', v) :: rest => if String.eqb k k' then Some v else param_lookup k rest
  end.

(** Two keyword dictionaries with the same fingerprint: a value that
    contains the separators, and the two parameters it imitates. *)
Definition params_one : list (string * param) := [ ("a", ParStr "1:b=2") ].
Definition params_two : list (string * param) :=
  [ ("a", ParStr "1"); ("b", ParStr "2") ].

End CacheKeySpec.

(** ** Upstream outcomes and retries *)

Section RetrySpec.
Import Python GoogleAdsManager.
Variable client : Client.

(** The typed outcome of the upstream call number [i] for a given call. *)
Definition outcome (c : Call) (i : nat) : result exn pyval :=
  match c with
  | SearchCall cid q ps =>
      match search client i cid q ps with
      | Ok v => Ok v
      | Raise e => Raise (AdsError (Errors.map_google_ads_exception e))
      end
  | MutateCall cid ops v =>
      match mutate client i cid ops v with
      | Ok r => Ok r
      | Raise e => Raise (AdsError (Errors.map_google_ads_exception e))
      end
  end.

Definition attempt_of (c : Call) : M World pyval :=
  match c with
  | SearchCall cid q ps => search_attempt client cid q ps
  | MutateCall cid ops v => mutate_attempt client cid ops v
  end.

(** The kinds the wrapper retries. *)
Definition retried_kind (k : Errors.ErrorCategory) : bool :=
  match k with
  | Errors.RATE_LIMIT | Errors.EXTERNAL_API => true
  | _ => false
  end.

(** An outcome the wrapper answers with another attempt. *)
Definition retried (r : result exn pyval) : bool :=
  match r with
  | Raise (AdsError e) => retried_kind (Errors.kind e)
  | _ => false
  end.

End RetrySpec.

Section RetryScenario.
Import Python QuotaGovernor.

(** An upstream that always fails with an error code the mapper does not
    know. *)
Definition unknown_failure : Errors.UpstreamException :=
  {| Errors.error_code := Some "BAD_REQUEST"; Errors.text := "bad request" |}.

(** A client whose every call fails that way. *)
Definition failing_client : GoogleAdsManager.Client :=
  {| GoogleAdsManager.search := fun _ _ _ _ => Raise unknown_failure;
     GoogleAdsManager.mutate := fun _ _ _ _ => Raise unknown_failure |}.

(** A fresh service: empty store and cache, the scheduler started with
    its eight workers, nothing sent upstream. *)
Definition idle_world : GoogleAdsManager.World :=
  {| GoogleAdsManager.redis := {| Redis.kv := ∅; Redis.ttl := ∅; Redis.faults := [] |};
     GoogleAdsManager.hot_cache := LRUCache.new 100;
     GoogleAdsManager.scheduler :=
       PriorityScheduler.start (PriorityScheduler.new 8);
     GoogleAdsManager.upstream_calls := 0;
     GoogleAdsManager.clock := 0;
     GoogleAdsManager.waits := [] |}.

End RetryScenario.

(** ** Frames of the store *)

Section FrameSpec.
Import Python Redis.

(** A computation on the store that writes no key. *)
Definition read_only {A : Type} (m : M Store A) : Prop :=
  forall st, kv (snd (m st)) = kv st.

Definition command_key (c : command) : string :=
  match c with INCRBY k _ | DECRBY k _ | SET k _ => k end.

End FrameSpec.

(** ** Requests, pauses and the calls of the service *)

Section PipelineSpec.
Import Python Redis QuotaGovernor GoogleAdsManager.
Variable client : Client.

(** The paused flag of tenant [t] is set in the store. *)
Definition paused_in (t : string) (w : World) : Prop :=
  kv (redis w) !! paused_key t = Some (RInt 1).

(** The request was refused as paused: a QUOTA error, and neither the
    scheduler nor the upstream was reached. *)
Definition refused (w : World) (r : result exn pyval * World) : Prop :=
  exists e, fst r = Raise (AdsError e) /\
            Errors.kind e = Errors.QUOTA /\
            upstream_calls (snd r) = upstream_calls w /\
            scheduler (snd r) = scheduler w.

(** The request got no answer from the cache: caching is off for it, or
    the lookup of its fingerprint misses. *)
Definition not_cached (request : GAQLRequest) (w : World) : Prop :=
  cache_enabled request = false \/
  fst (CacheManager.get (gaql_cache_key request) (service_type request)
                        (cache_manager w)) = PNone.

(** The round trips a request makes before its pause check: the tier
    lookup, and before it, for a read with caching on that the LRU does
    not answer, the lookup in the shared store. *)
Definition mutate_trips_before_pause_check : nat := 1.

Definition gaql_trips_before_pause_check (request : GAQLRequest) : nat :=
  if cache_enabled request then 2 else 1.

(** The calls the service offers on a running system. *)
Inductive api_call : Type :=
| ExecuteGaql (request : GAQLRequest) (urgency : Z)
| ExecuteMutate (request : MutateRequest) (urgency : Z)
| SetClientTier (cid : string) (tier : SLATier)
| PauseClient (cid : string)
| ResumeClient (cid : string)
| ResetGlobalQuota (daily_quota : Z)
| SetClientQuota (cid : string) (quota : Z)
| Refund (cid : string) (units : Z)
| CacheDelete (cache_key : string).

Definition run_api (call : api_call) (w : World) : World :=
  match call with
  | ExecuteGaql request urgency => snd (execute_gaql client request urgency w)
  | ExecuteMutate request urgency => snd (execute_mutate client request urgency w)
  | SetClientTier cid tier => with_redis w (snd (set_client_tier cid tier (redis w)))
  | PauseClient cid => with_redis w (snd (pause_client cid (redis w)))
  | ResumeClient cid => with_redis w (snd (resume_client cid (redis w)))
  | ResetGlobalQuota d => with_redis w (snd (reset_global_quota d (redis w)))
  | SetClientQuota cid q => with_redis w (snd (set_client_quota cid q (redis w)))
  | Refund cid units => with_redis w (refund cid units (redis w))
  | CacheDelete key => with_cache w (CacheManager.delete key (cache_manager w))
  end.

Definition run_apis (calls : list api_call) (w : World) : World :=
  fold_left (fun w call => run_api call w) calls w.

(** The call is not [resume_client(t)]. *)
Definition keeps_paused (t : string) (call : api_call) : bool :=
  match call with
  | ResumeClient cid => negb (String.eqb cid t)
  | _ => true
  end.

End PipelineSpec.

Section PipelineScenarios.
Import Python Redis QuotaGovernor.


(** Tenant [t] with balance everywhere. *)
Definition funded_store : Redis.Store :=
  {| Redis.kv := list_to_map [ (global_remaining_key, Redis.RInt 10000);
                               (global_daily_key, Redis.RInt 10000);
                               (client_remaining_key "t", Redis.RInt 500) ];
     Redis.ttl := ∅; Redis.faults := [] |}.

(** A fresh service on that store, its scheduler started with eight
    workers. *)
Definition funded_world : GoogleAdsManager.World :=
  {| GoogleAdsManager.redis := funded_store;
     GoogleAdsManager.hot_cache := LRUCache.new 100;
     GoogleAdsManager.scheduler :=
       PriorityScheduler.start (PriorityScheduler.new 8);
     GoogleAdsManager.upstream_calls := 0;
     GoogleAdsManager.clock := 0;
     GoogleAdsManager.waits := [] |}.

(** A cacheable report of tenant [t]. *)
Definition report_request : GoogleAdsManager.GAQLRequest :=
  {| GoogleAdsManager.query := "SELECT campaign.id FROM campaign";
     GoogleAdsManager.client_id := "t";
     GoogleAdsManager.page_size := 1000;
     GoogleAdsManager.cache_enabled := true;
     GoogleAdsManager.service_type := "reporting" |}.


(** The tenant reads a report from the mock account, which caches it, and
    is then paused. *)
Definition after_cached_read : GoogleAdsManager.World :=
  snd (GoogleAdsManager.execute_gaql GoogleAdsManager.MockGoogleAdsClient report_request 50 funded_world).

Definition paused_world : GoogleAdsManager.World :=
  GoogleAdsManager.with_redis after_cached_read
    (snd (pause_client "t" (GoogleAdsManager.redis after_cached_read))).

(** The same paused system when the store is about to fail one round
    trip: the second of the next request, which is its pause check. *)
Definition paused_world_outage : GoogleAdsManager.World :=
  GoogleAdsManager.with_redis paused_world
    {| Redis.kv := Redis.kv (GoogleAdsManager.redis paused_world);
       Redis.ttl := Redis.ttl (GoogleAdsManager.redis paused_world);
       Redis.faults := [false; true] |}.

(** A mutate of tenant [t]. *)
Definition update_request : GoogleAdsManager.MutateRequest :=
  {| GoogleAdsManager.operations := [PDict [("update", PStr "budget")]];
     GoogleAdsManager.mutate_client_id := "t";
     GoogleAdsManager.operation_type := "campaign";
     GoogleAdsManager.validate_only := false |}.

(** The same report with caching switched off. *)
Definition uncached_request : GoogleAdsManager.GAQLRequest :=
  {| GoogleAdsManager.query := "SELECT campaign.id FROM campaign";
     GoogleAdsManager.client_id := "t";
     GoogleAdsManager.page_size := 1000;
     GoogleAdsManager.cache_enabled := false;
     GoogleAdsManager.service_type := "reporting" |}.

(** Calls made while [t] stays paused. *)
Definition later_calls : list api_call :=
  [ SetClientQuota "t" 100000; ExecuteGaql report_request 50;
    ResumeClient "other"; PauseClient "t" ].

Definition paused_later : GoogleAdsManager.World :=
  run_apis GoogleAdsManager.MockGoogleAdsClient later_calls paused_world.

(** The service after the cached read, on a store that answers the pause
    and the three round trips of the later calls, and then fails every
    round trip but the second. *)
Definition flaky_after_cached_read : GoogleAdsManager.World :=
  GoogleAdsManager.with_redis after_cached_read
    {| Redis.kv := Redis.kv (GoogleAdsManager.redis after_cached_read);
       Redis.ttl := Redis.ttl (GoogleAdsManager.redis after_cached_read);
       Redis.faults := [false; false; false; false; true; false; true; true] |}.

(** The tenant is paused there, and the later calls are made. *)
Definition paused_flaky : GoogleAdsManager.World :=
  run_apis GoogleAdsManager.MockGoogleAdsClient later_calls
    (GoogleAdsManager.with_redis flaky_after_cached_read
       (snd (pause_client "t"
               (GoogleAdsManager.redis flaky_after_cached_read)))).

End PipelineScenarios.

(** ** Error responses *)

Section ErrorResponseSpec.
Import Errors.

(** The HTTP status each error category is answered with. *)
Definition status_of_kind (k : ErrorCategory) : Z :=
  match k with
  | AUTHENTICATION => 401
  | AUTHORIZATION => 403
  | QUOTA | RATE_LIMIT => 429
  | VALIDATION => 400
  | NOT_FOUND => 404
  | CONFLICT => 409
  | INTERNAL => 500
  | EXTERNAL_API => 502
  | TIMEOUT => 504
  | CIRCUIT_BREAKER => 503
  end.

(** The details the mapper attaches to an EXTERNAL_API error for the
    upstream code [c]. *)
Definition external_details (c : string) : Details :=
  if String.eqb c "" then [ ("original_error", c) ]
  else [ ("original_error", c); ("google_ads_error_code", c) ].

End ErrorResponseSpec.

(** ** Quota scenarios *)

Section QuotaScenarios.
Import Python Redis QuotaGovernor.

(** A reachable store that records tenant [t] as a GOLD client. *)
Definition gold_store : Store :=
  {| kv := list_to_map [ (tier_key "t", RText "gold") ];
     ttl := ∅; faults := [] |}.

(** Balances for the whole system, but no quota key for tenant [t]. *)
Definition unknown_client_store : Store :=
  {| kv := list_to_map [ (global_remaining_key, RInt 10000);
                         (global_daily_key, RInt 10000) ];
     ttl := ∅; faults := [] |}.

(** The balance of tenant [t] was written by hand, with a space before
    the digits: [int] reads 42, INCRBY refuses it. *)
Definition padded_balance_store : Store :=
  {| kv := list_to_map [ (global_remaining_key, RInt 10000);
                         (client_remaining_key "t", RText " 42");
                         (tier_key "t", RText "gold");
                         (paused_key "t", RInt 1) ];
     ttl := ∅; faults := [] |}.

(** The balance of tenant [t] holds text that is no integer. *)
Definition corrupt_balance_store : Store :=
  {| kv := list_to_map [ (global_remaining_key, RInt 10000);
                         (client_remaining_key "t", RText "n/a");
                         (tier_key "t", RText "gold");
                         (paused_key "t", RInt 1) ];
     ttl := ∅; faults := [] |}.

End QuotaScenarios.

(** ** Calls on the LRU *)

Section LRUCallsSpec.
Import Python.

(** A call on the in-process cache. *)
Inductive lru_call : Type :=
| LGet (key : string)
| LSet (key : string) (value : pyval)
| LDelete (key : string)
| LClear.

(** The cache one call leaves. *)
Definition lru_step (call : lru_call) (c : LRUCache.t) : LRUCache.t :=
  match call with
  | LGet k => snd (LRUCache.get k c)
  | LSet k v => LRUCache.set k v c
  | LDelete k => snd (LRUCache.delete k c)
  | LClear => LRUCache.clear c
  end.

(** The cache a sequence of calls leaves. *)
Definition lru_run (calls : list lru_call) (c : LRUCache.t) : LRUCache.t :=
  fold_left (fun c call => lru_step call c) calls c.

(** The number of calls of one kind in a sequence. *)
Definition is_get (call : lru_call) : bool :=
  match call with LGet _ => true | _ => false end.

Definition is_set (call : lru_call) : bool :=
  match call with LSet _ _ => true | _ => false end.

Definition count (p : lru_call -> bool) (calls : list lru_call) : Z :=
  Z.of_nat (length (List.filter p calls)).

(** The LRU can hold an entry: its keys are distinct and its maximum size
    is at least one. *)
Definition lru_ok (c : LRUCache.t) : Prop :=
  List.NoDup (OrderedDict.keys (LRUCache.cache c)) /\ 1 <= LRUCache.maxsize c.

End LRUCallsSpec.

(** ** Cache scenarios *)

Section CacheScenarios.
Import Python Redis.

(** A cache manager whose LRU is empty while the shared store holds a
    report under key [k], as another process would have left it. *)
Definition cold_manager : CacheManager.t :=
  {| CacheManager.hot_cache := LRUCache.new 2;
     CacheManager.redis :=
       {| kv := list_to_map
                  [ (CacheManager.redis_key "k", RJson (PList [PInt 7])) ];
          ttl := ∅; faults := [] |} |}.

(** A cache manager that holds a report under [k] in both tiers, with a
    store that fails its next round trip. *)
Definition warm_manager_outage : CacheManager.t :=
  {| CacheManager.hot_cache := LRUCache.set "k" (PList [PInt 7]) (LRUCache.new 2);
     CacheManager.redis :=
       {| kv := list_to_map
                  [ (CacheManager.redis_key "k", RJson (PList [PInt 7])) ];
          ttl := ∅; faults := [true] |} |}.

End CacheScenarios.

(** ** Order of parameters and text of keys *)

Section CacheKeyOrderSpec.
Import CacheManager.

(** The character [c] does not occur in [s]. *)
Definition free_of (c : ascii) (s : string) : Prop :=
  ~ In c (list_ascii_of_string s).

(** A request of a tenant whose id holds no colon. *)
Definition request_one : GoogleAdsManager.GAQLRequest :=
  {| GoogleAdsManager.query := "SELECT campaign.id FROM campaign";
     GoogleAdsManager.client_id := "123-456-7890";
     GoogleAdsManager.page_size := 1000;
     GoogleAdsManager.cache_enabled := true;
     GoogleAdsManager.service_type := "reporting" |}.

(** The same query with caching off and another service type. *)
Definition request_two : GoogleAdsManager.GAQLRequest :=
  {| GoogleAdsManager.query := "SELECT campaign.id FROM campaign";
     GoogleAdsManager.client_id := "123-456-7890";
     GoogleAdsManager.page_size := 1000;
     GoogleAdsManager.cache_enabled := false;
     GoogleAdsManager.service_type := "campaign" |}.

(** The order [sorted] puts the parameters in: by name. *)
Definition key_leb (a b : string * param) : Prop :=
  String.leb (fst a) (fst b) = true.

End CacheKeyOrderSpec.

(** ** Histories of a scheduler *)

Section SchedulerRunSpec.
Import Python QuotaGovernor.
Variable Work : Type.
Variable St : Type.
Variable call : Work -> list pyval -> list (string * pyval) -> M St pyval.

(** What happens to a scheduler: a submission, a start, or a pass of one
    of its workers. *)
Inductive sched_event : Type :=
| EvSubmit (f : Work) (client : string) (tier : SLATier) (urgency : Z)
           (posargs : list pyval) (kwds : list (string * pyval)) (now : Z)
| EvStart
| EvWorkerPass.

(** The scheduler and the world after one event. *)
Definition sched_step (ev : sched_event) (p : PriorityScheduler.t Work * St)
    : PriorityScheduler.t Work * St :=
  match ev with
  | EvSubmit f client tier urgency posargs kwds now =>
      (PriorityScheduler.submit f client tier urgency posargs kwds now (fst p),
       snd p)
  | EvStart => (PriorityScheduler.start (fst p), snd p)
  | EvWorkerPass => PriorityScheduler.worker_pass call (fst p) (snd p)
  end.

(** The scheduler and the state of the world after a history of events,
    each worker pass running its operation to the end. *)
Definition sched_run (events : list sched_event)
    (p : PriorityScheduler.t Work * St) : PriorityScheduler.t Work * St :=
  fold_left (fun p ev => sched_step ev p) events p.

(** [n] passes of a worker, one after the other. *)
Fixpoint worker_passes (n : nat) (p : PriorityScheduler.t Work * St)
    : PriorityScheduler.t Work * St :=
  match n with
  | O => p
  | S k => worker_passes k (PriorityScheduler.worker_pass call (fst p) (snd p))
  end.

(** The operations run in the order of the list, whatever each returns
    or raises. *)
Definition run_all (ops : list (PriorityScheduler.Operation Work)) (x : St) : St :=
  fold_left (fun x operation => snd (PriorityScheduler.execute call operation x))
            ops x.

(** The operation raises when it runs in state [x]. *)
Definition raises (operation : PriorityScheduler.Operation Work) (x : St)
    : bool :=
  match fst (PriorityScheduler.execute call operation x) with
  | Ok _ => false
  | Raise _ => true
  end.

(** How many of the operations raise and how many return, when they run
    in the order of the list, each in the state the ones before it left. *)
Fixpoint raised (ops : list (PriorityScheduler.Operation Work)) (x : St)
    : Z :=
  match ops with
  | [] => 0
  | operation :: rest =>
      (if raises operation x then 1 else 0)
      + raised rest (snd (PriorityScheduler.execute call operation x))
  end.

Fixpoint returned (ops : list (PriorityScheduler.Operation Work)) (x : St)
    : Z :=
  match ops with
  | [] => 0
  | operation :: rest =>
      (if raises operation x then 0 else 1)
      + returned rest (snd (PriorityScheduler.execute call operation x))
  end.

(** The counters of a scheduler add up. *)
Definition accounted (s : PriorityScheduler.t Work) : Prop :=
  let st := PriorityScheduler.stats s in
  PriorityScheduler.submitted st - PriorityScheduler.completed st
    - PriorityScheduler.failed st
  = Z.of_nat (length (PriorityScheduler.queue s)) /\
  PriorityScheduler.submitted st
  = PriorityScheduler.by_tier st GOLD + PriorityScheduler.by_tier st SILVER
    + PriorityScheduler.by_tier st BRONZE /\
  0 <= PriorityScheduler.completed st /\ 0 <= PriorityScheduler.failed st.

End SchedulerRunSpec.

Section SchedulerScenario.
Import Python QuotaGovernor.

(** Work that writes its name to a log, and raises when the name is
    [boom]. *)
Definition log_call (f : string) (posargs : list pyval)
    (kwds : list (string * pyval)) : M (list string) pyval :=
  fun log => (if String.eqb f "boom" then Raise ValueError else Ok PNone,
              log ++ [f]).

(** A running scheduler with three operations queued: Bronze/99, then
    Gold/50, which will raise, then Silver/50. *)
Definition three_queued : PriorityScheduler.t string :=
  PriorityScheduler.start
    (PriorityScheduler.submit "silver-50" "c3" SILVER 50 [] [] 3
       (PriorityScheduler.submit "boom" "c2" GOLD 50 [] [] 2
          (PriorityScheduler.submit "bronze-99" "c1" BRONZE 99 [] [] 1
             (PriorityScheduler.new 8)))).

End SchedulerScenario.

Arguments EvSubmit {Work} _ _ _ _ _ _ _.
Arguments EvStart {Work}.
Arguments EvWorkerPass {Work}.
Arguments accounted {Work} _.

(** ** Requests *)

Section RequestScenarios.
Import Python Redis QuotaGovernor.

(** A mutate of three operations for tenant [t]. *)
Definition bulk_update : GoogleAdsManager.MutateRequest :=
  {| GoogleAdsManager.operations :=
       [ PDict [("update", PStr "a")]; PDict [("update", PStr "b")];
         PDict [("update", PStr "c")] ];
     GoogleAdsManager.mutate_client_id := "t";
     GoogleAdsManager.operation_type := "campaign";
     GoogleAdsManager.validate_only := false |}.

(** The funded service before [start]: no worker takes operations. *)
Definition stopped_world : GoogleAdsManager.World :=
  {| GoogleAdsManager.redis := funded_store;
     GoogleAdsManager.hot_cache := LRUCache.new 100;
     GoogleAdsManager.scheduler := PriorityScheduler.new 8;
     GoogleAdsManager.upstream_calls := 0;
     GoogleAdsManager.clock := 0;
     GoogleAdsManager.waits := [] |}.

(** The funded service when the next wait for the workers runs out. *)
Definition slow_world : GoogleAdsManager.World :=
  {| GoogleAdsManager.redis := funded_store;
     GoogleAdsManager.hot_cache := LRUCache.new 100;
     GoogleAdsManager.scheduler :=
       PriorityScheduler.start (PriorityScheduler.new 8);
     GoogleAdsManager.upstream_calls := 0;
     GoogleAdsManager.clock := 0;
     GoogleAdsManager.waits := [true] |}.

(** A mutate of eleven operations: 550 units, more than tenant [t] has. *)
Definition costly_update : GoogleAdsManager.MutateRequest :=
  {| GoogleAdsManager.operations := repeat (PDict [("update", PStr "a")]) 11;
     GoogleAdsManager.mutate_client_id := "t";
     GoogleAdsManager.operation_type := "campaign";
     GoogleAdsManager.validate_only := false |}.

End RequestScenarios.

(** * Verified properties *)

(** ** Error taxonomy *)

Section ErrorTaxonomy.
Import Errors.

(** C5. The mapper sets the retryable bit exactly for the kinds QUOTA,
    RATE_LIMIT, TIMEOUT and CIRCUIT_BREAKER, and on an EXTERNAL_API error
    exactly when the upstream code is UNAVAILABLE or DEADLINE_EXCEEDED;
    a code outside the mapping table gives EXTERNAL_API, not retryable. *)
Theorem map_google_ads_exception_retryable (x : UpstreamException) :
  let e := map_google_ads_exception x in
  (is_retryable e = true <->
     retryable_kind (kind e) = true \/
     (kind e = EXTERNAL_API /\
      (upstream_code x = "UNAVAILABLE" \/ upstream_code x = "DEADLINE_EXCEEDED")))
  /\ (in_mapping_table (upstream_code x) = false ->
      kind e = EXTERNAL_API /\ is_retryable e = false).
Proof.
  unfold map_google_ads_exception, upstream_code.
  generalize (match error_code x with Some c => c | None => "UNKNOWN" end).
  intros c; cbn zeta.
  unfold in_mapping_table, GOOGLE_ADS_ERROR_MAP, retryable_codes.
  cbn [dict_get str_in map fst].
  repeat match goal with
         | |- context [String.eqb c ?k] =>
             destruct (String.eqb_spec c k) as [->|?]
         end;
    cbn;
    (split; [split; intros H | intros H]);
    first [ discriminate H
          | reflexivity
          | left; reflexivity
          | right; split; [reflexivity | tauto]
          | split; reflexivity
          | destruct H as [H|[H1 [H2|H2]]]; congruence ].
Qed.

End ErrorTaxonomy.

(** ** Binary64 rounding

    Facts about [SpecFloat]'s rounding that the bronze threshold needs:
    a product is rounded to the truncated mantissa or its successor, and
    an int below 2^53 converts exactly. *)

Section BinaryRounding.

Lemma digits2_pos_size (p : positive) : digits2_pos p = Pos.size p.
Proof. induction p; simpl; congruence. Qed.

Lemma Zdigits2_log2 (p : positive) : Zdigits2 (Z.pos p) = Z.log2 (Z.pos p) + 1.
Proof.
  unfold Zdigits2. rewrite digits2_pos_size.
  destruct p; simpl; lia.
Qed.

Lemma Zdigits2_bounds (p : positive) :
  2 ^ (Zdigits2 (Z.pos p) - 1) <= Z.pos p < 2 ^ Zdigits2 (Z.pos p).
Proof.
  rewrite Zdigits2_log2.
  replace (Z.log2 (Z.pos p) + 1 - 1) with (Z.log2 (Z.pos p)) by lia.
  apply Z.log2_spec. lia.
Qed.

Lemma Zdigits2_unique (z d : Z) :
  0 < d -> 2 ^ (d - 1) <= z < 2 ^ d -> Zdigits2 z = d.
Proof.
  intros Hd Hz.
  assert (0 < z) by (pose proof (Z.pow_pos_nonneg 2 (d - 1)); lia).
  destruct z as [|p|p]; try lia.
  rewrite Zdigits2_log2.
  rewrite (Z.log2_unique (Z.pos p) (d - 1)); try lia.
  replace (Z.succ (d - 1)) with d by lia. exact Hz.
Qed.

Lemma shr_1_m (mrs : shr_record) :
  0 <= shr_m mrs -> shr_m (shr_1 mrs) = shr_m mrs / 2.
Proof.
  destruct mrs as [m r s]; simpl. intros Hm.
  rewrite <- Z.div2_div.
  destruct m as [|[p|p|]|p]; try reflexivity; lia.
Qed.

Lemma iter_pos_shr_m (p : positive) : forall mrs,
  0 <= shr_m mrs ->
  shr_m (SpecFloat.iter_pos shr_1 p mrs) = shr_m mrs / 2 ^ Z.pos p.
Proof.
  induction p as [p IH|p IH|]; intros mrs Hm; simpl SpecFloat.iter_pos.
  - assert (H1 : 0 <= shr_m (shr_1 mrs))
      by (rewrite shr_1_m by assumption; apply Z.div_pos; lia).
    assert (H2 : 0 <= shr_m (SpecFloat.iter_pos shr_1 p (shr_1 mrs)))
      by (rewrite IH by assumption; apply Z.div_pos; lia).
    rewrite IH, IH, shr_1_m by assumption.
    rewrite !Z.div_div by lia.
    f_equal.
    replace (Z.pos p~1) with (1 + Z.pos p + Z.pos p) by lia.
    rewrite !Z.pow_add_r by lia. lia.
  - assert (H2 : 0 <= shr_m (SpecFloat.iter_pos shr_1 p mrs))
      by (rewrite IH by assumption; apply Z.div_pos; lia).
    rewrite IH, IH by assumption.
    rewrite Z.div_div by lia.
    f_equal.
    replace (Z.pos p~0) with (Z.pos p + Z.pos p) by lia.
    rewrite !Z.pow_add_r by lia. lia.
  - rewrite shr_1_m by assumption. reflexivity.
Qed.

Lemma round_nearest_even_cases (m : Z) (l : location) :
  round_nearest_even m l = m \/ round_nearest_even m l = m + 1.
Proof.
  destruct l as [|[| |]]; simpl; auto.
  destruct (Z.even m); auto.
Qed.

(** Rounding a mantissa wider than the precision: the result is the
    truncated mantissa or its successor, at the shifted exponent. *)
Lemma binary_round_aux_wide (sx : bool) (P : positive) (E : Z) :
  let n := Zdigits2 (Z.pos P) - 53 in
  let q := Z.pos P / 2 ^ n in
  0 < n -> -1074 <= E + n -> E + n + 1 <= 971 ->
  exists m e,
    binary_round_aux 53 1024 sx (Z.pos P) E loc_Exact = S754_finite sx m e /\
    ((e = E + n /\ (Z.pos m = q \/ Z.pos m = q + 1)) \/
     (e = E + n + 1 /\ Z.pos m * 2 = q + 1)).
Proof.
  intros n q Hn Hlo Hhi.
  pose proof (Zdigits2_bounds P) as HP.
  assert (Hd : Zdigits2 (Z.pos P) = n + 53) by (unfold n; lia).
  rewrite Hd in HP.
  assert (Hq : 2 ^ 52 <= q < 2 ^ 53).
  { unfold q. split.
    - apply Z.div_le_lower_bound; [apply Z.pow_pos_nonneg; lia|].
      rewrite <- Z.pow_add_r by lia.
      replace (n + 52) with (n + 53 - 1) by lia. apply HP.
    - apply Z.div_lt_upper_bound; [apply Z.pow_pos_nonneg; lia|].
      rewrite <- Z.pow_add_r by lia. apply HP. }
  unfold binary_round_aux, shr_fexp.
  rewrite Hd.
  assert (Hf : fexp 53 1024 (n + 53 + E) - E = n)
    by (unfold fexp, emin; lia).
  rewrite Hf.
  destruct n as [|pn|pn] eqn:En; try lia.
  unfold shr at 1. cbn [shr_record_of_loc].
  pose proof (iter_pos_shr_m pn (Build_shr_record (Z.pos P) false false)) as Hit.
  cbn [shr_m] in Hit. specialize (Hit ltac:(lia)).
  fold q in Hit.
  destruct (SpecFloat.iter_pos shr_1 pn _) as [m1 r1 s1].
  cbn [shr_m] in Hit |- *. subst m1.
  destruct (round_nearest_even_cases q
              (loc_of_shr_record (Build_shr_record q r1 s1))) as [Hr|Hr];
    rewrite Hr.
  - assert (Hdq : Zdigits2 q = 53) by (apply Zdigits2_unique; lia).
    rewrite Hdq.
    assert (Hf2 : fexp 53 1024 (53 + (E + Z.pos pn)) - (E + Z.pos pn) = 0)
      by (unfold fexp, emin; lia).
    rewrite Hf2. cbn [shr shr_record_of_loc shr_m].
    destruct q as [|pq|pq] eqn:Eq; try lia.
    replace (E + Z.pos pn <=? 1024 - 53) with true by (symmetry; apply Z.leb_le; lia).
    exists pq, (E + Z.pos pn). split; [reflexivity|]. left. auto.
  - destruct (Z.eq_dec (q + 1) (2 ^ 53)) as [Htop|Htop].
    + rewrite Htop.
      change (2 ^ 53) with 9007199254740992.
      change (Zdigits2 9007199254740992) with 54.
      assert (Hf2 : fexp 53 1024 (54 + (E + Z.pos pn)) - (E + Z.pos pn) = 1)
        by (unfold fexp, emin; lia).
      rewrite Hf2.
      cbn [shr shr_record_of_loc SpecFloat.iter_pos shr_1 shr_m Z.add].
      replace (E + Z.pos pn + 1 <=? 1024 - 53) with true
        by (symmetry; apply Z.leb_le; lia).
      eexists _, _. split; [reflexivity|]. right. split; [lia|reflexivity].
    + assert (Hdq : Zdigits2 (q + 1) = 53) by (apply Zdigits2_unique; lia).
      rewrite Hdq.
      assert (Hf2 : fexp 53 1024 (53 + (E + Z.pos pn)) - (E + Z.pos pn) = 0)
        by (unfold fexp, emin; lia).
      rewrite Hf2. cbn [shr shr_record_of_loc shr_m].
      destruct (q + 1) as [|pq|pq] eqn:Eq; try lia.
      replace (E + Z.pos pn <=? 1024 - 53) with true by (symmetry; apply Z.leb_le; lia).
      exists pq, (E + Z.pos pn). split; [reflexivity|]. left. auto.
Qed.

Lemma pos_iter_xO (m k : positive) :
  Z.pos (Pos.iter xO m k) = Z.pos m * 2 ^ Z.pos k.
Proof.
  induction k as [|k IH] using Pos.peano_ind.
  - simpl. lia.
  - rewrite Pos.iter_succ, Pos2Z.inj_xO, IH, Pos2Z.inj_succ, Z.pow_succ_r; lia.
Qed.

(** A mantissa of exactly 53 digits with an exponent in range is a double. *)
Lemma binary_round_aux_exact (sx : bool) (m : positive) (e : Z) :
  Zdigits2 (Z.pos m) = 53 -> -1074 <= e <= 971 ->
  binary_round_aux 53 1024 sx (Z.pos m) e loc_Exact = S754_finite sx m e.
Proof.
  intros Hd He.
  unfold binary_round_aux, shr_fexp. rewrite Hd.
  assert (Hf : fexp 53 1024 (53 + e) - e = 0) by (unfold fexp, emin; lia).
  rewrite Hf. cbn [shr shr_record_of_loc shr_m loc_of_shr_record round_nearest_even].
  rewrite Hd, Hf. cbn [shr shr_record_of_loc shr_m].
  replace (e <=? 1024 - 53) with true by (symmetry; apply Z.leb_le; lia).
  reflexivity.
Qed.

(** [float(z)] is exact for an int below 2^53: the mantissa is the int
    shifted up to 53 digits. *)
Lemma binary_round_small (sx : bool) (p : positive) :
  let d := Zdigits2 (Z.pos p) in
  d <= 53 ->
  exists mz, binary_round 53 1024 sx p 0 = S754_finite sx mz (d - 53) /\
             Z.pos mz = Z.pos p * 2 ^ (53 - d) /\
             2 ^ 52 <= Z.pos mz < 2 ^ 53.
Proof.
  intros d Hd.
  pose proof (Zdigits2_bounds p) as Hp. fold d in Hp.
  assert (Hd1 : 1 <= d) by (unfold d, Zdigits2; lia).
  unfold binary_round, shl_align.
  change (Z.pos (digits2_pos p)) with d.
  assert (Hf : fexp 53 1024 (d + 0) = d - 53) by (unfold fexp, emin; lia).
  rewrite Hf.
  assert (Hscale : forall mz, Z.pos mz = Z.pos p * 2 ^ (53 - d) ->
                              2 ^ 52 <= Z.pos mz < 2 ^ 53).
  { intros mz ->.
    assert (H52 : 2 ^ 52 = 2 ^ (d - 1) * 2 ^ (53 - d))
      by (rewrite <- Z.pow_add_r by lia; f_equal; lia).
    assert (H53 : 2 ^ 53 = 2 ^ d * 2 ^ (53 - d))
      by (rewrite <- Z.pow_add_r by lia; f_equal; lia).
    assert (0 < 2 ^ (53 - d)) by (apply Z.pow_pos_nonneg; lia).
    rewrite H52, H53. split.
    - apply Z.mul_le_mono_nonneg_r; lia.
    - apply Z.mul_lt_mono_pos_r; lia. }
  destruct (d - 53 - 0) as [|k|k] eqn:Ek; try lia.
  - assert (Hmz : Z.pos p = Z.pos p * 2 ^ (53 - d))
      by (replace (53 - d) with 0 by lia; lia).
    exists p. split; [|split; [exact Hmz | exact (Hscale p Hmz)]].
    replace (d - 53) with 0 by lia.
    apply binary_round_aux_exact; [|lia].
    apply Zdigits2_unique; [lia|]. replace (53 - 1) with 52 by lia.
    exact (Hscale p Hmz).
  - assert (Hmz : Z.pos (Pos.iter xO p k) = Z.pos p * 2 ^ (53 - d))
      by (rewrite pos_iter_xO; f_equal; f_equal; lia).
    exists (Pos.iter xO p k). split; [|split; [exact Hmz | exact (Hscale _ Hmz)]].
    apply binary_round_aux_exact; [|lia].
    apply Zdigits2_unique; [lia|]. replace (53 - 1) with 52 by lia.
    exact (Hscale _ Hmz).
Qed.

Lemma pow2_lt_inv (a b : Z) : 0 <= b -> 2 ^ a < 2 ^ b -> a < b.
Proof. intros Hb H. apply (Z.pow_lt_mono_r_iff 2); lia. Qed.

Lemma pow2_le_mono (a b : Z) : 0 <= a <= b -> 2 ^ a <= 2 ^ b.
Proof. intros H. apply Z.pow_le_mono_r; lia. Qed.

(** The double product [0.15 * float(±A)] for 0 < A < 2^50, bracketed:
    it lies strictly between G and G' whenever the exact product is at
    least 2^-5 away from them. *)
Lemma threshold_product (sx : bool) (p : positive) :
  Z.pos p < 2 ^ 50 ->
  exists m k,
    SFmul 53 1024 QuotaGovernor.BRONZE_RESERVE_THRESHOLD (binary_round 53 1024 sx p 0)
      = S754_finite sx m (- k)
    /\ 0 < k
    /\ (forall G, G * 2 ^ 55 + 2 ^ 50 <= 5404319552844595 * Z.pos p ->
                  G * 2 ^ k < Z.pos m)
    /\ (forall G, 5404319552844595 * Z.pos p + 2 ^ 50 < G * 2 ^ 55 ->
                  Z.pos m < G * 2 ^ k).
Proof.
  intros HA.
  pose proof (Zdigits2_bounds p) as Hp.
  set (d := Zdigits2 (Z.pos p)) in *.
  assert (Hd1 : 1 <= d) by (unfold d, Zdigits2; lia).
  assert (Hd50 : d <= 50).
  { assert (d - 1 < 50); [|lia]. apply pow2_lt_inv; lia. }
  destruct (binary_round_small sx p) as (mz & Hfl & Hmz & Hmzb); [fold d; lia|].
  fold d in Hfl, Hmz. rewrite Hfl.
  unfold QuotaGovernor.BRONZE_RESERVE_THRESHOLD, SFmul.
  replace (xorb false sx) with sx by (destruct sx; reflexivity).
  set (P := (5404319552844595 * mz)%positive).
  assert (HP : Z.pos P = 5404319552844595 * Z.pos mz) by (unfold P; lia).
  pose proof (Zdigits2_bounds P) as HdP.
  set (dP := Zdigits2 (Z.pos P)) in *.
  assert (HPlo : 2 ^ 104 <= Z.pos P).
  { rewrite HP. change (2 ^ 104) with (2 ^ 52 * 2 ^ 52).
    change (2 ^ 52) with 4503599627370496 in *. nia. }
  assert (HPhi : Z.pos P < 2 ^ 106).
  { rewrite HP. change (2 ^ 106) with (2 ^ 53 * 2 ^ 53).
    change (2 ^ 53) with 9007199254740992 in *. nia. }
  assert (HdP1 : 1 <= dP) by (unfold dP, Zdigits2; lia).
  assert (HdPlo : 105 <= dP).
  { assert (104 < dP); [|lia]. apply pow2_lt_inv; lia. }
  assert (HdPhi : dP <= 106).
  { assert (dP - 1 < 106); [|lia]. apply pow2_lt_inv; lia. }
  set (n := dP - 53).
  set (E := -55 + (d - 53)).
  destruct (binary_round_aux_wide sx P E) as (m & e & Hres & Hcases);
    fold dP; fold n; try (unfold n, E; lia).
  fold dP in Hcases. fold n in Hcases.
  rewrite Hres.
  set (q := Z.pos P / 2 ^ n) in *.
  set (k0 := 108 - d - n).
  set (a := 2 ^ (53 - d)) in *.
  set (b := 2 ^ n) in *.
  assert (Ha : 0 < a) by (apply Z.pow_pos_nonneg; lia).
  assert (Hb : 0 < b) by (apply Z.pow_pos_nonneg; unfold n; lia).
  assert (Hk0 : 5 <= k0) by (unfold k0, n; lia).
  assert (Hbk : b * 2 ^ k0 = 2 ^ 55 * a).
  { unfold a, b. rewrite <- !Z.pow_add_r by (unfold k0, n in *; lia).
    f_equal. unfold k0. lia. }
  assert (Hba : b <= 2 ^ 50 * a).
  { unfold a, b. rewrite <- Z.pow_add_r by lia.
    apply pow2_le_mono. unfold n. lia. }
  assert (HPa : Z.pos P = 5404319552844595 * Z.pos p * a) by lia.
  assert (Hqb : b * q <= Z.pos P < b * (q + 1)).
  { unfold q. pose proof (Z.mul_div_le (Z.pos P) b Hb).
    pose proof (Z.mul_succ_div_gt (Z.pos P) b Hb). lia. }
  assert (HL : forall G, G * 2 ^ 55 + 2 ^ 50 <= 5404319552844595 * Z.pos p ->
                         G * 2 ^ k0 + 1 <= q).
  { intros G HG.
    assert (b * (G * 2 ^ k0) < b * (q + 1)); [|nia].
    replace (b * (G * 2 ^ k0)) with (G * (2 ^ 55 * a)) by (rewrite <- Hbk; ring).
    assert ((G * 2 ^ 55 + 2 ^ 50) * a <= 5404319552844595 * Z.pos p * a)
      by (apply Z.mul_le_mono_nonneg_r; lia).
    nia. }
  assert (HU : forall G, 5404319552844595 * Z.pos p + 2 ^ 50 < G * 2 ^ 55 ->
                         q + 2 <= G * 2 ^ k0).
  { intros G HG.
    assert (b * (q + 1) < b * (G * 2 ^ k0)); [|nia].
    replace (b * (G * 2 ^ k0)) with (G * (2 ^ 55 * a)) by (rewrite <- Hbk; ring).
    assert ((5404319552844595 * Z.pos p + 2 ^ 50) * a < G * 2 ^ 55 * a)
      by (apply Z.mul_lt_mono_pos_r; lia).
    nia. }
  destruct Hcases as [[He Hm]|[He Hm]].
  - exists m, k0. split; [f_equal; unfold k0, E, n in *; lia|].
    split; [lia|]. split; intros G HG.
    + specialize (HL G HG). lia.
    + specialize (HU G HG). lia.
  - exists m, (k0 - 1). split; [f_equal; unfold k0, E, n in *; lia|].
    split; [lia|].
    assert (Hk2 : 2 ^ k0 = 2 * 2 ^ (k0 - 1)).
    { rewrite <- Z.pow_succ_r by lia. f_equal. lia. }
    split; intros G HG.
    + specialize (HL G HG). nia.
    + specialize (HU G HG). nia.
Qed.

End BinaryRounding.

(** ** Quota governor *)

Section QuotaProperties.
Import Python Redis QuotaGovernor.

(** The double threshold agrees with the exact comparison 20 g < 3 D. *)
Lemma bronze_threshold_lt (g D : Z) :
  - 2 ^ 50 < D < 2 ^ 50 -> 20 * g < 3 * D ->
  exists t, PyFloat.mul_int BRONZE_RESERVE_THRESHOLD D = Ok t /\
            PyFloat.int_lt g t = true.
Proof.
  intros HD Hg.
  unfold PyFloat.mul_int, PyFloat.of_int, PyFloat.mul, PyFloat.prec, PyFloat.emax.
  destruct D as [|p|p]; unfold binary_normalize.
  - eexists. split; [reflexivity|]. simpl. apply Z.ltb_lt. lia.
  - destruct (threshold_product false p) as (m & k & Hres & Hk & HL & _); [lia|].
    pose proof Hres as Hres'.
    unfold SFmul, BRONZE_RESERVE_THRESHOLD in Hres'.
    destruct (binary_round 53 1024 false p 0) as [| | |s0 m0 e0] eqn:Ebr;
      try discriminate Hres'.
    exists (S754_finite false m (- k)). split; [rewrite Hres; reflexivity|].
    unfold PyFloat.int_lt.
    replace (0 <=? - k) with false by (symmetry; apply Z.leb_gt; lia).
    rewrite Z.opp_involutive. apply Z.ltb_lt. apply HL.
    change (2 ^ 55) with 36028797018963968.
    change (2 ^ 50) with 1125899906842624 in *. lia.
  - destruct (threshold_product true p) as (m & k & Hres & Hk & _ & HU); [lia|].
    pose proof Hres as Hres'.
    unfold SFmul, BRONZE_RESERVE_THRESHOLD in Hres'.
    destruct (binary_round 53 1024 true p 0) as [| | |s0 m0 e0] eqn:Ebr;
      try discriminate Hres'.
    exists (S754_finite true m (- k)). split; [rewrite Hres; reflexivity|].
    unfold PyFloat.int_lt.
    replace (0 <=? - k) with false by (symmetry; apply Z.leb_gt; lia).
    rewrite Z.opp_involutive. apply Z.ltb_lt.
    assert (Z.pos m < (- g) * 2 ^ k); [|lia].
    apply HU.
    change (2 ^ 55) with 36028797018963968.
    change (2 ^ 50) with 1125899906842624 in *. lia.
Qed.

Lemma up_S (n : nat) (st : Store) :
  up (S n) st = true ->
  hd false (faults st) = false /\ up n (advance st) = true.
Proof.
  unfold up, advance. cbn [faults].
  destruct (faults st) as [|b rest]; cbn.
  - intros _. split; [reflexivity|]. destruct n; reflexivity.
  - intros H. apply andb_prop in H as [Hb Hr]. split; [|exact Hr].
    destruct b; [discriminate|reflexivity].
Qed.

Lemma answers_advance (n : nat) (st : Store) :
  answers (S n) st -> answers n (advance st).
Proof.
  unfold answers, advance. cbn [faults].
  destruct (faults st) as [|b rest]; [destruct n|]; intros H; exact H.
Qed.

Lemma answers_now (st : Store) : answers 0 st -> hd false (faults st) = false.
Proof. unfold answers. destruct (faults st); intros H; exact H. Qed.

Lemma up_le (n m : nat) (st : Store) :
  (m <= n)%nat -> up n st = true -> up m st = true.
Proof.
  unfold up. generalize (faults st). revert m.
  induction n as [|n IH]; intros m l Hm H.
  - replace m with 0%nat by lia. reflexivity.
  - destruct m as [|m]; [reflexivity|].
    destruct l as [|b rest]; [reflexivity|].
    cbn in H |- *. apply andb_prop in H as [Hb Hr].
    rewrite Hb. cbn. apply IH; [lia|exact Hr].
Qed.

Lemma get_up (key : string) (st : Store) :
  hd false (faults st) = false ->
  get key st = (Ok (kv st !! key), advance st).
Proof.
  intros H. unfold get, bind, round_trip. rewrite H. reflexivity.
Qed.

Lemma get_down (key : string) (st : Store) :
  hd false (faults st) = true ->
  get key st = (Raise ConnectionError, advance st).
Proof.
  intros H. unfold get, bind, round_trip. rewrite H. reflexivity.
Qed.

Lemma read_int_up (key : string) (default : Z) (st : Store) :
  hd false (faults st) = false ->
  read_int key default st = (int_or (kv st !! key) default, advance st).
Proof.
  intros H. unfold read_int, bind. rewrite get_up by exact H.
  unfold lift_result. reflexivity.
Qed.

Lemma read_int_down (key : string) (default : Z) (st : Store) :
  hd false (faults st) = true ->
  read_int key default st = (Raise ConnectionError, advance st).
Proof.
  intros H. unfold read_int, bind. rewrite get_down by exact H. reflexivity.
Qed.

Lemma can_run_reads (client_id : string) (units : Z) (tier : SLATier)
    (st : Store) (g c D : Z) :
  up 3 st = true ->
  int_or (kv st !! global_remaining_key) 0 = Ok g ->
  int_or (kv st !! client_remaining_key client_id) 0 = Ok c ->
  int_or (kv st !! global_daily_key) 1 = Ok D ->
  fst (can_run client_id units tier st) = admission g c D units tier.
Proof.
  intros Hup Hg Hc HD.
  apply up_S in Hup as [H1 Hup]. apply up_S in Hup as [H2 Hup].
  apply up_S in Hup as [H3 _].
  unfold can_run, can_run_body, bind.
  rewrite (read_int_up _ _ _ H1), Hg.
  rewrite (read_int_up _ _ _ H2). cbn [advance kv]. rewrite Hc.
  rewrite (read_int_up _ _ _ H3). cbn [advance kv]. rewrite HD.
  unfold admission.
  destruct ((g <? units) || (c <? units)); [reflexivity|].
  destruct (tier_eqb tier BRONZE); [|reflexivity].
  unfold lift_result.
  destruct (PyFloat.mul_int BRONZE_RESERVE_THRESHOLD D) as [t|e]; [|reflexivity].
  destruct (PyFloat.int_lt g t); reflexivity.
Qed.

(** C3 (amended). Bronze reserve. When the store answers the three reads
    of [can_run], the balances it holds satisfy
    global_remaining >= units and client_remaining >= units, and
    global_remaining < 0.15 * global_daily as exact numbers, with
    |global_daily| < 2^50, then [can_run] returns false for BRONZE and true
    for GOLD and for SILVER. The bound is where the double product
    0.15 * global_daily the code computes still decides the exact
    comparison. *)
Theorem bronze_reserve (client_id : string) (units g c D : Z) (st : Store) :
  up 3 st = true ->
  int_or (kv st !! global_remaining_key) 0 = Ok g ->
  int_or (kv st !! client_remaining_key client_id) 0 = Ok c ->
  int_or (kv st !! global_daily_key) 1 = Ok D ->
  units <= g -> units <= c ->
  - 2 ^ 50 < D < 2 ^ 50 ->
  20 * g < 3 * D ->
  fst (can_run client_id units BRONZE st) = false /\
  fst (can_run client_id units GOLD st) = true /\
  fst (can_run client_id units SILVER st) = true.
Proof.
  intros Hup Hg Hc HD Hug Huc HDb Hlt.
  rewrite !(can_run_reads client_id units _ st g c D Hup Hg Hc HD).
  unfold admission.
  replace (g <? units) with false by (symmetry; apply Z.ltb_ge; lia).
  replace (c <? units) with false by (symmetry; apply Z.ltb_ge; lia).
  cbn [orb tier_eqb].
  destruct (bronze_threshold_lt g D HDb Hlt) as (t & -> & ->).
  auto.
Qed.

(** A daily budget of 10000 with 1000 left: BRONZE is held back, GOLD and
    SILVER are admitted. *)
Lemma bronze_reserve_witness :
  fst (can_run "t" 100 BRONZE low_global_store) = false /\
  fst (can_run "t" 100 GOLD low_global_store) = true /\
  fst (can_run "t" 100 SILVER low_global_store) = true.
Proof.
  apply (bronze_reserve "t" 100 1000 500 10000 low_global_store);
    try reflexivity; lia.
Defined.

(** The double [0.15] lies slightly under 15/100, so with a daily budget
    of 2^60 the product [0.15 * global_daily] is 172938225691027040, under
    the exact 15% line (172938225691027046.4): a balance equal to the
    product is below 15% of the budget, yet BRONZE is admitted. *)
Lemma bronze_reserve_counterexample :
  up 3 huge_budget_store = true /\
  int_or (kv huge_budget_store !! global_remaining_key) 0
    = Ok 172938225691027040 /\
  int_or (kv huge_budget_store !! client_remaining_key "t") 0 = Ok 500 /\
  int_or (kv huge_budget_store !! global_daily_key) 1 = Ok (2 ^ 60) /\
  100 <= 172938225691027040 /\ 100 <= 500 /\
  20 * 172938225691027040 < 3 * 2 ^ 60 /\
  fst (can_run "t" 100 BRONZE huge_budget_store) = true.
Proof. repeat split; try reflexivity; discriminate. Qed.

Lemma up_false_cases (n : nat) (st : Store) :
  up (S n) st = false ->
  hd false (faults st) = true \/
  (hd false (faults st) = false /\ up n (advance st) = false).
Proof.
  unfold up, advance. cbn [faults].
  destruct (faults st) as [|b rest]; cbn; [discriminate|].
  destruct b; cbn; auto.
Qed.

Lemma up_0 (st : Store) : up 0 st = true.
Proof. reflexivity. Qed.

(** C8. Fail-open admission. For every tenant, units and tier, when one of
    the three reads [can_run] makes of the shared store meets a store
    error, [can_run] returns true. *)
Theorem can_run_fail_open (client_id : string) (units : Z) (tier : SLATier)
    (st : Store) :
  up 3 st = false ->
  fst (can_run client_id units tier st) = true.
Proof.
  intros Hdown.
  unfold can_run, can_run_body, bind.
  apply up_false_cases in Hdown as [H1|[H1 Hdown]].
  { rewrite (read_int_down _ _ _ H1). reflexivity. }
  rewrite (read_int_up _ _ _ H1).
  destruct (int_or (kv st !! global_remaining_key) 0) as [g|e]; [|reflexivity].
  apply up_false_cases in Hdown as [H2|[H2 Hdown]].
  { rewrite (read_int_down _ _ _ H2). reflexivity. }
  rewrite (read_int_up _ _ _ H2).
  destruct (int_or (kv (advance st) !! client_remaining_key client_id) 0)
    as [c|e]; [|reflexivity].
  apply up_false_cases in Hdown as [H3|[H3 Hdown]].
  { rewrite (read_int_down _ _ _ H3). reflexivity. }
  rewrite up_0 in Hdown. discriminate Hdown.
Qed.

(** The store fails the second read: BRONZE is admitted although the
    balances were never seen. *)
Lemma can_run_fail_open_witness :
  fst (can_run "t" 100 BRONZE flaky_store) = true.
Proof. apply can_run_fail_open. reflexivity. Defined.

Lemma client_key_not_global (client_id : string) :
  client_remaining_key client_id <> global_remaining_key.
Proof.
  unfold client_remaining_key, global_remaining_key.
  intros H. cbn in H. discriminate H.
Qed.

Lemma in_int64_spec (z : Z) :
  in_int64 z = true <-> - 2 ^ 63 <= z <= 2 ^ 63 - 1.
Proof.
  unfold in_int64, INT64_MIN, INT64_MAX.
  rewrite andb_true_iff, !Z.leb_le. reflexivity.
Qed.

(** What a successful DECRBY leaves, and that INCRBY by the same amount
    undoes it. *)
Lemma decr_then_incr (m : gmap string rval) (key : string) (u : Z) (v : rval) :
  (negb (in_int64 u) || (u =? INT64_MIN)) = false ->
  incr_value (m !! key) (- u) = Some v ->
  exists z, int_or (m !! key) 0 = Ok z /\
            v = RInt (z - u) /\
            incr_value (Some v) u = Some (RInt z).
Proof.
  intros Hu Hdec.
  apply orb_false_elim in Hu as [Hu1 Hu2].
  apply negb_false_iff in Hu1. apply Z.eqb_neq in Hu2.
  unfold incr_value in *. rewrite Hu1. cbn [negb].
  destruct (in_int64 (- u)) eqn:Hnu; cbn [negb] in Hdec; [|discriminate].
  apply in_int64_spec in Hu1, Hnu.
  destruct (m !! key) as [[z| |]|]; try discriminate.
  - destruct (in_int64 z && in_int64 (z + - u)) eqn:Hz; [|discriminate].
    apply andb_prop in Hz as [Hz1 Hz2].
    injection Hdec as <-. exists z. split; [reflexivity|].
    split; [f_equal; lia|].
    rewrite Hz2. replace (z + - u + u) with z by lia. rewrite Hz1. reflexivity.
  - injection Hdec as <-. exists 0. split; [reflexivity|].
    split; [f_equal; lia|].
    assert (H1 : in_int64 (- u) = true) by (apply in_int64_spec; lia).
    rewrite H1. replace (- u + u) with 0 by lia. reflexivity.
Qed.

Lemma execute_up (cs : list command) (st : Store) :
  hd false (faults st) = false ->
  execute cs st =
    (if snd (apply_commands cs (kv st)) then Ok tt else Raise ResponseError,
     {| kv := fst (apply_commands cs (kv st));
        ttl := drop_ttl_of_sets cs (ttl st);
        faults := tail (faults st) |}).
Proof.
  intros H. unfold execute, bind, round_trip. rewrite H.
  cbn [advance kv ttl faults].
  destruct (apply_commands cs (kv st)) as [m ok]. destruct ok; reflexivity.
Qed.

Lemma apply_two (c1 c2 : command) (m : gmap string rval) :
  apply_commands [c1; c2] m =
    (fst (apply_command c2 (fst (apply_command c1 m))),
     snd (apply_command c1 m) && snd (apply_command c2 (fst (apply_command c1 m)))).
Proof.
  cbn [apply_commands].
  destruct (apply_command c1 m) as [m1 ok1]. cbn [fst snd].
  destruct (apply_command c2 m1) as [m2 ok2]. cbn [fst snd].
  rewrite andb_true_r. reflexivity.
Qed.

(** A pipeline that returned normally found the store reachable. *)
Lemma execute_ok_up (cs : list command) (st st1 : Store) :
  execute cs st = (Ok tt, st1) -> hd false (faults st) = false.
Proof.
  unfold execute, bind, round_trip.
  destruct (hd false (faults st)); [discriminate|reflexivity].
Qed.

(** C7 (amended). Charge then refund. When [charge(t, u)] succeeds and
    the store answers the round trip of the following [refund(t, u)],
    with nothing written in between, the balances read under
    quota:global_remaining and quota:client:{t}:remaining are the ones
    read before the charge. *)
Theorem charge_refund_restores (t : string) (u : Z) (st st1 : Store) :
  execute (charge_pipeline t u) st = (Ok tt, st1) ->
  answers 0 st1 ->
  let st2 := refund t u st1 in
  exists g c : Z,
    int_or (kv st !! global_remaining_key) 0 = Ok g /\
    int_or (kv st !! client_remaining_key t) 0 = Ok c /\
    st1 = charge t u st /\
    int_or (kv st1 !! global_remaining_key) 0 = Ok (g - u) /\
    int_or (kv st1 !! client_remaining_key t) 0 = Ok (c - u) /\
    int_or (kv st2 !! global_remaining_key) 0 = Ok g /\
    int_or (kv st2 !! client_remaining_key t) 0 = Ok c.
Proof.
  intros Hch H2. apply answers_now in H2.
  assert (Hst1 : st1 = charge t u st) by (unfold charge; rewrite Hch; reflexivity).
  pose proof (execute_ok_up _ _ _ Hch) as H1.
  pose proof (client_key_not_global t) as Hne.
  rewrite (execute_up _ _ H1) in Hch.
  unfold charge_pipeline in Hch. rewrite apply_two in Hch.
  cbn [fst snd apply_command] in Hch.
  destruct (negb (in_int64 u) || (u =? INT64_MIN)) eqn:Hu;
    [cbn in Hch; inversion Hch|].
  destruct (incr_value (kv st !! global_remaining_key) (- u)) as [vg|] eqn:Hg;
    [|cbn in Hch; inversion Hch].
  cbn [fst snd] in Hch. rewrite lookup_insert_ne in Hch by congruence.
  destruct (incr_value (kv st !! client_remaining_key t) (- u)) as [vc|] eqn:Hc;
    [|cbn in Hch; inversion Hch].
  cbn [fst snd andb] in Hch. injection Hch as Hch.
  destruct (decr_then_incr _ _ _ _ Hu Hg) as (zg & Hzg & Hvg & Hig).
  destruct (decr_then_incr _ _ _ _ Hu Hc) as (zc & Hzc & Hvc & Hic).
  cbn zeta. exists zg, zc.
  split; [exact Hzg|]. split; [exact Hzc|]. split; [exact Hst1|].
  clear Hst1. subst st1. cbn [faults] in H2.
  cbn [kv]. unfold refund.
  rewrite execute_up by exact H2.
  unfold refund_pipeline. rewrite apply_two.
  cbn [fst snd kv apply_command].
  rewrite !(lookup_insert_ne _ (client_remaining_key t) global_remaining_key)
    by congruence.
  rewrite !lookup_insert_eq, Hig. cbn [fst snd].
  rewrite !(lookup_insert_ne _ global_remaining_key (client_remaining_key t))
    by congruence.
  rewrite !lookup_insert_eq, Hic. cbn [fst snd].
  rewrite !(lookup_insert_ne _ (client_remaining_key t) global_remaining_key)
    by congruence.
  rewrite !lookup_insert_eq.
  subst vg vc. repeat split.
Qed.

(** Balances 10000 and 500, charge 10, refund 10. *)
Lemma charge_refund_restores_witness :
  let st1 := charge "t" 10 quota_store in
  let st2 := refund "t" 10 st1 in
  int_or (kv st1 !! global_remaining_key) 0 = Ok 9990 /\
  int_or (kv st1 !! client_remaining_key "t") 0 = Ok 490 /\
  int_or (kv st2 !! global_remaining_key) 0 = Ok 10000 /\
  int_or (kv st2 !! client_remaining_key "t") 0 = Ok 500.
Proof.
  destruct (charge_refund_restores "t" 10 quota_store (charge "t" 10 quota_store))
    as (g & c & Hg & Hc & _ & Hg1 & Hc1 & Hg2 & Hc2); try reflexivity.
  cbn zeta in *.
  assert (g = 10000) by (vm_compute in Hg; congruence).
  assert (c = 500) by (vm_compute in Hc; congruence).
  subst g c. auto.
Defined.

(** The same charge succeeds on a store that then fails the round trip of
    the refund: [refund] logs the error and returns, and both balances
    stay 10 units short of what they were. *)
Lemma charge_refund_restores_counterexample :
  let st := quota_store_outage in
  let st1 := charge "t" 10 st in
  let st2 := refund "t" 10 st1 in
  execute (charge_pipeline "t" 10) st = (Ok tt, st1) /\
  fst (execute (refund_pipeline "t" 10) st1) = Raise ConnectionError /\
  int_or (kv st !! global_remaining_key) 0 = Ok 10000 /\
  int_or (kv st !! client_remaining_key "t") 0 = Ok 500 /\
  int_or (kv st2 !! global_remaining_key) 0 = Ok 9990 /\
  int_or (kv st2 !! client_remaining_key "t") 0 = Ok 490.
Proof. vm_compute. repeat split. Qed.

End QuotaProperties.

(** ** LRU cache *)

Section LRUProperties.
Import Python.

Lemma last_access_le (log : list (option string)) (k : string) :
  (last_access log k <= length log)%nat.
Proof.
  induction log as [|a older IH]; cbn [last_access length]; [lia|].
  destruct (accesses a k); lia.
Qed.

Lemma last_access_hit (log : list (option string)) (k : string) :
  last_access (Some k :: log) k = S (length log).
Proof. cbn. rewrite String.eqb_refl. reflexivity. Qed.

Lemma last_access_other (log : list (option string)) (k k' : string) :
  k <> k' -> last_access (Some k :: log) k' = last_access log k'.
Proof.
  intros Hne. cbn [last_access accesses].
  destruct (String.eqb_spec k k'); [contradiction|reflexivity].
Qed.

Lemma last_access_miss (log : list (option string)) (k : string) :
  last_access (None :: log) k = last_access log k.
Proof. reflexivity. Qed.

Lemma lookup_setitem (k : string) (v : pyval) (d : OrderedDict.t) :
  OrderedDict.lookup k (OrderedDict.setitem k v d) = Some v.
Proof.
  induction d as [|[k' v'] rest IH]; cbn.
  - rewrite String.eqb_refl. reflexivity.
  - destruct (String.eqb_spec k k') as [->|Hne]; cbn.
    + rewrite String.eqb_refl. reflexivity.
    + destruct (String.eqb_spec k k'); [contradiction|exact IH].
Qed.

Lemma remove_setitem (k : string) (v : pyval) (d : OrderedDict.t) :
  OrderedDict.remove k (OrderedDict.setitem k v d) = OrderedDict.remove k d.
Proof.
  induction d as [|[k' v'] rest IH]; cbn.
  - rewrite String.eqb_refl. reflexivity.
  - destruct (String.eqb_spec k k') as [->|Hne]; cbn.
    + rewrite String.eqb_refl. reflexivity.
    + destruct (String.eqb_spec k k'); [contradiction|]. rewrite IH. reflexivity.
Qed.

Lemma placed_eq (k : string) (v : pyval) (c : LRUCache.t) :
  LRUCache.placed k v c = OrderedDict.remove k (LRUCache.cache c) ++ [(k, v)].
Proof.
  unfold LRUCache.placed, OrderedDict.move_to_end.
  rewrite lookup_setitem, remove_setitem. reflexivity.
Qed.

Lemma keys_remove_incl (k : string) (d : OrderedDict.t) (x : string) :
  In x (OrderedDict.keys (OrderedDict.remove k d)) -> In x (OrderedDict.keys d).
Proof.
  induction d as [|[k' v'] rest IH]; cbn; [tauto|].
  destruct (String.eqb k k'); cbn; tauto.
Qed.

Lemma sorted_remove (log : list (option string)) (k : string) (d : OrderedDict.t) :
  StronglySorted lt (map (last_access log) (OrderedDict.keys d)) ->
  StronglySorted lt (map (last_access log) (OrderedDict.keys (OrderedDict.remove k d)))
  /\ ~ In k (OrderedDict.keys (OrderedDict.remove k d)).
Proof.
  induction d as [|[k' v'] rest IH]; cbn; intros Hs.
  - split; [constructor|tauto].
  - apply StronglySorted_inv in Hs as [Hs Hall].
    destruct (String.eqb_spec k k') as [->|Hne]; cbn.
    + split; [exact Hs|].
      intros Hin. rewrite List.Forall_forall in Hall.
      specialize (Hall (last_access log k') (in_map _ _ _ Hin)). lia.
    + destruct (IH Hs) as [IHs IHn]. split.
      * constructor; [exact IHs|].
        rewrite List.Forall_forall in Hall |- *. intros y Hy.
        apply in_map_iff in Hy as (x & <- & Hx).
        apply Hall, in_map, (keys_remove_incl k). exact Hx.
      * intros [Heq|Hin]; [congruence|tauto].
Qed.

Lemma Forall_remove (P : string -> Prop) (k : string) (d : OrderedDict.t) :
  Forall P (OrderedDict.keys d) ->
  Forall P (OrderedDict.keys (OrderedDict.remove k d)).
Proof.
  rewrite !List.Forall_forall. intros H x Hx. apply H, (keys_remove_incl k), Hx.
Qed.

Lemma sorted_snoc (l : list nat) (n : nat) :
  StronglySorted lt l -> Forall (fun x => (x < n)%nat) l ->
  StronglySorted lt (l ++ [n]).
Proof.
  induction l as [|a l IH]; cbn; intros Hs Hall.
  - constructor; constructor.
  - apply StronglySorted_inv in Hs as [Hs Ha].
    apply Forall_cons_iff in Hall as [Han Hall].
    constructor; [apply IH; assumption|].
    apply Forall_app. split; [exact Ha|]. constructor; [exact Han|constructor].
Qed.

(** Moving [k] to the end at the moment it is accessed keeps the order. *)
Lemma recency_refresh (log : list (option string)) (k : string) (v : pyval)
    (d : OrderedDict.t) :
  recency_ordered log d ->
  recency_ordered (Some k :: log) (OrderedDict.remove k d ++ [(k, v)]).
Proof.
  intros [Hs Hpos].
  destruct (sorted_remove log k d Hs) as [Hs' Hnot].
  assert (Hsame : forall x, In x (OrderedDict.keys (OrderedDict.remove k d)) ->
                            last_access (Some k :: log) x = last_access log x).
  { intros x Hx. apply last_access_other. intros ->. exact (Hnot Hx). }
  unfold recency_ordered, OrderedDict.keys. rewrite !map_app. cbn [map fst].
  rewrite last_access_hit. split.
  - apply sorted_snoc.
    + rewrite (map_ext_in _ (last_access log)) by exact Hsame. exact Hs'.
    + rewrite List.Forall_forall. intros y Hy.
      apply in_map_iff in Hy as (x & <- & Hx).
      rewrite (Hsame x Hx). pose proof (last_access_le log x). lia.
  - apply Forall_app. split.
    + pose proof (Forall_remove _ k d Hpos) as Hp.
      rewrite List.Forall_forall in Hp |- *. intros x Hx.
      rewrite (Hsame x Hx). apply Hp, Hx.
    + constructor; [rewrite last_access_hit; lia|constructor].
Qed.

Lemma recency_tail (log : list (option string)) (d : OrderedDict.t) :
  recency_ordered log d -> recency_ordered log (tail d).
Proof.
  intros [Hs Hpos]. destruct d as [|[k v] rest]; [split; assumption|].
  cbn in *. apply StronglySorted_inv in Hs as [Hs _].
  apply Forall_cons_iff in Hpos as [_ Hpos]. split; assumption.
Qed.

Lemma recency_step (op : lru_op) (c : LRUCache.t) (log : list (option string)) :
  recency_ordered log (LRUCache.cache c) ->
  recency_ordered (accessed c op :: log) (LRUCache.cache (apply_op op c)).
Proof.
  intros Hinv. destruct op as [k|k v]; cbn [apply_op accessed].
  - unfold LRUCache.get, OrderedDict.get, OrderedDict.move_to_end.
    destruct (OrderedDict.lookup k (LRUCache.cache c)) as [v|] eqn:Hl.
    + destruct v; cbn [snd LRUCache.cache];
        first [ exact Hinv | apply recency_refresh; exact Hinv ].
    + cbn [snd LRUCache.cache]. exact Hinv.
  - unfold LRUCache.set. rewrite placed_eq.
    destruct (LRUCache.over_limit _ c); cbn [LRUCache.cache].
    + apply recency_tail, recency_refresh, Hinv.
    + apply recency_refresh, Hinv.
Qed.

Lemma recency_replay (ops : list lru_op) : forall c log,
  recency_ordered log (LRUCache.cache c) ->
  recency_ordered (snd (replay ops c log)) (LRUCache.cache (fst (replay ops c log))).
Proof.
  induction ops as [|op rest IH]; intros c log Hinv; cbn [replay fst snd].
  - exact Hinv.
  - apply IH, recency_step, Hinv.
Qed.

Lemma recency_new (N : Z) : recency_ordered [] (LRUCache.cache (LRUCache.new N)).
Proof. split; constructor. Qed.

(** C6. LRU eviction order. After any sequence of set and get operations
    on a cache of maximum size N, a [set] that evicts removes the entry
    whose last access (a get hit or a set) is older than the last access of
    every entry that stays. With N = 3, after set(A,1); set(B,2);
    set(C,3); get(A); set(D,4) the gets of A, B, C, D return 1, None, 3
    and 4. *)
Theorem lru_evicts_least_recent :
  (forall (N : Z) (ops : list lru_op) (k : string) (v : pyval),
     let c := fst (replay ops (LRUCache.new N) []) in
     let log := Some k :: snd (replay ops (LRUCache.new N) []) in
     let d := LRUCache.placed k v c in
     LRUCache.over_limit d c = true ->
     exists e ve rest,
       d = (e, ve) :: rest /\
       LRUCache.cache (LRUCache.set k v c) = rest /\
       (0 < last_access log e)%nat /\
       forall k', In k' (OrderedDict.keys rest) ->
                  (last_access log e < last_access log k')%nat)
  /\ get_each ["A"; "B"; "C"; "D"]
       (fst (replay scenario_S2 (LRUCache.new 3) []))
     = [PInt 1; PNone; PInt 3; PInt 4].
Proof.
  split; [|reflexivity].
  intros N ops k v c log d Hover.
  pose proof (recency_replay ops (LRUCache.new N) [] (recency_new N)) as Hinv.
  fold c in Hinv.
  pose proof (recency_refresh _ k v _ Hinv) as [Hs Hpos].
  rewrite <- placed_eq in Hs, Hpos. fold d in Hs, Hpos. fold log in Hs, Hpos.
  assert (Hset : LRUCache.cache (LRUCache.set k v c) = tail d).
  { unfold LRUCache.set. fold d. rewrite Hover. reflexivity. }
  destruct d as [|[e ve] rest] eqn:Ed.
  { unfold d in Ed. rewrite placed_eq in Ed.
    destruct (OrderedDict.remove k (LRUCache.cache c)); discriminate Ed. }
  exists e, ve, rest. split; [reflexivity|]. split; [exact Hset|].
  cbn in Hs, Hpos.
  apply StronglySorted_inv in Hs as [_ Hall].
  apply Forall_cons_iff in Hpos as [He _].
  split; [exact He|].
  intros k' Hk'. rewrite List.Forall_forall in Hall.
  apply Hall, in_map, Hk'.
Qed.

End LRUProperties.

(** ** Priority scheduler *)

Section SchedulerProperties.
Import Python QuotaGovernor.
Variable Work : Type.

Lemma key_le_trans (a b c : PriorityScheduler.Operation Work) :
  key_le a b -> key_le b c -> key_le a c.
Proof. unfold key_le. lia. Qed.

Lemma key_le_refl (a : PriorityScheduler.Operation Work) : key_le a a.
Proof. unfold key_le. lia. Qed.

Lemma lt_true (a b : PriorityScheduler.Operation Work) :
  PriorityScheduler.lt a b = true -> key_le a b.
Proof.
  unfold PriorityScheduler.lt, key_le.
  destruct (Z.eqb_spec (PriorityScheduler.priority a) (PriorityScheduler.priority b));
    cbn; intros H; apply Z.ltb_lt in H; lia.
Qed.

Lemma lt_false (a b : PriorityScheduler.Operation Work) :
  PriorityScheduler.lt a b = false -> key_le b a.
Proof.
  unfold PriorityScheduler.lt, key_le.
  destruct (Z.eqb_spec (PriorityScheduler.priority a) (PriorityScheduler.priority b));
    cbn; intros H; apply Z.ltb_ge in H; lia.
Qed.

Lemma extract_min_spec (l : list (PriorityScheduler.Operation Work)) : forall best m others,
  PriorityScheduler.extract_min best l = (m, others) ->
  Permutation (best :: l) (m :: others) /\
  key_le m best /\ Forall (key_le m) l.
Proof.
  induction l as [|x rest IH]; intros best m others; cbn.
  - intros [= <- <-]. split; [reflexivity|]. split; [apply key_le_refl|constructor].
  - destruct (PriorityScheduler.lt x best) eqn:Hlt.
    + destruct (PriorityScheduler.extract_min x rest) as [m' o'] eqn:He.
      intros [= <- <-]. destruct (IH _ _ _ He) as (Hp & Hmx & Hall).
      split; [|split].
      * transitivity (best :: m' :: o'); [apply perm_skip, Hp|apply perm_swap].
      * eapply key_le_trans; [exact Hmx|apply lt_true, Hlt].
      * constructor; assumption.
    + destruct (PriorityScheduler.extract_min best rest) as [m' o'] eqn:He.
      intros [= <- <-]. destruct (IH _ _ _ He) as (Hp & Hmb & Hall).
      split; [|split].
      * transitivity (x :: best :: rest); [apply perm_swap|].
        transitivity (x :: m' :: o'); [apply perm_skip, Hp|apply perm_swap].
      * exact Hmb.
      * constructor; [|exact Hall].
        eapply key_le_trans; [exact Hmb|apply lt_false, Hlt].
Qed.

Lemma get_spec (l : list (PriorityScheduler.Operation Work))
    (m : PriorityScheduler.Operation Work)
    (others : list (PriorityScheduler.Operation Work)) :
  PriorityScheduler.get l = Some (m, others) ->
  Permutation l (m :: others) /\ Forall (key_le m) others.
Proof.
  destruct l as [|x rest]; cbn; [discriminate|].
  intros [= He]. destruct (extract_min_spec _ _ _ _ He) as (Hp & Hmx & Hall).
  split; [exact Hp|].
  assert (Hl : Forall (key_le m) (m :: others)).
  { eapply Permutation_Forall; [exact Hp|]. constructor; assumption. }
  apply Forall_cons_iff in Hl. tauto.
Qed.

Lemma drain_spec (n : nat) : forall l : list (PriorityScheduler.Operation Work),
  length l = n ->
  Permutation l (PriorityScheduler.drain n l) /\
  StronglySorted key_le (PriorityScheduler.drain n l).
Proof.
  induction n as [|n IH]; intros l Hlen; cbn [PriorityScheduler.drain].
  - destruct l; [|discriminate]. split; constructor.
  - destruct (PriorityScheduler.get l) as [[m others]|] eqn:Hg.
    + destruct (get_spec _ _ _ Hg) as [Hp Hall].
      assert (Hlo : length others = n).
      { apply Permutation_length in Hp. rewrite Hlen in Hp.
        cbn [length] in Hp. congruence. }
      destruct (IH others Hlo) as [Hpo Hso]. split.
      * rewrite Hp. apply perm_skip, Hpo.
      * constructor; [exact Hso|].
        eapply Permutation_Forall; [exact Hpo|exact Hall].
    + destruct l; [discriminate Hlen|discriminate Hg].
Qed.

(** C4. Priority and dequeue order. [submit] queues an operation whose
    priority is (100 - clamp(urgency, 0, 99)) integer-divided by the tier
    weight (GOLD 3, SILVER 2, BRONZE 1); the queue hands its items out in
    ascending (priority, timestamp) order; Bronze/99, Gold/50 and Silver/50
    get priorities 1, 16 and 25 and leave the queue in that order. *)
Theorem submit_priority_and_order :
  (forall (s : PriorityScheduler.t Work) (f : Work) (client : string)
          (tier : SLATier) (urgency now : Z) posargs kwds,
     exists o,
       PriorityScheduler.queue
         (PriorityScheduler.submit f client tier urgency posargs kwds now s)
         = o :: PriorityScheduler.queue s /\
       PriorityScheduler.timestamp o = now /\
       PriorityScheduler.priority o =
         (100 - Z.max 0 (Z.min urgency 99)) /
         match tier with GOLD => 3 | SILVER => 2 | BRONZE => 1 end)
  /\ (forall q : list (PriorityScheduler.Operation Work),
        Permutation q (PriorityScheduler.dequeue_all q) /\
        StronglySorted key_le (PriorityScheduler.dequeue_all q))
  /\ (forall (f1 f2 f3 : Work) (t1 t2 t3 : Z),
        let s := PriorityScheduler.submit f3 "c3" SILVER 50 [] [] t3
                   (PriorityScheduler.submit f2 "c2" GOLD 50 [] [] t2
                      (PriorityScheduler.submit f1 "c1" BRONZE 99 [] [] t1
                         (PriorityScheduler.new 8))) in
        map summary (PriorityScheduler.dequeue_all (PriorityScheduler.queue s))
          = [ (BRONZE, 99, 1); (GOLD, 50, 16); (SILVER, 50, 25) ]).
Proof.
  split; [|split].
  - intros s f client tier urgency now posargs kwds.
    eexists. split; [reflexivity|].
    split; [reflexivity|].
    cbn [PriorityScheduler.priority]. unfold PriorityScheduler.compute_priority.
    destruct tier; reflexivity.
  - intros q. apply drain_spec. reflexivity.
  - intros f1 f2 f3 t1 t2 t3. reflexivity.
Qed.

End SchedulerProperties.

(** ** Cache keys *)

Section CacheKeys.
Import CacheManager.

(** C9. The cache key is not injective in the parameters: the map with the
    single entry a = "1:b=2" and the map with the entries a = "1", b = "2"
    differ, and [build_cache_key] gives both the same key for the same
    client and operation. *)
Theorem build_cache_key_not_injective :
  NoDup (map fst params_one) /\ NoDup (map fst params_two) /\
  param_lookup "b" params_one <> param_lookup "b" params_two /\
  build_cache_key "c" "gaql" params_one = build_cache_key "c" "gaql" params_two.
Proof.
  split; [|split; [|split]].
  - repeat constructor. cbn. rewrite elem_of_nil. tauto.
  - repeat constructor; cbn; rewrite ?elem_of_cons, ?elem_of_nil;
      intros H; repeat destruct H as [H|H]; try discriminate H; try contradiction.
  - cbn. discriminate.
  - reflexivity.
Qed.

End CacheKeys.

(** ** Retry wrapper *)

Section RetryWrapper.
Import Python QuotaGovernor GoogleAdsManager.
Variable client : Client.

Lemma attempt_of_outcome (c : Call) (w : World) :
  attempt_of client c w = (outcome client c (upstream_calls w), count_call w).
Proof.
  destruct c as [cid q ps|cid ops v]; cbn.
  - unfold search_attempt. destruct (search client _ cid q ps); reflexivity.
  - unfold mutate_attempt. destruct (mutate client _ cid ops v); reflexivity.
Qed.

Lemma run_call_retry (c : Call) :
  run_call client c = with_retry (pred MAX_ATTEMPTS) (attempt_of client c).
Proof. destruct c; reflexivity. Qed.

(** The mapper builds every error through its class's constructor, so the
    class test of the wrapper is a test on the kind. *)
Lemma mapped_class_kind (x : Errors.UpstreamException) :
  retry_if_exception_type (AdsError (Errors.map_google_ads_exception x))
  = retried_kind (Errors.kind (Errors.map_google_ads_exception x)).
Proof.
  unfold Errors.map_google_ads_exception.
  generalize (match Errors.error_code x with Some c => c | None => "UNKNOWN" end).
  intros c; cbn zeta.
  unfold Errors.GOOGLE_ADS_ERROR_MAP. cbn [Errors.dict_get].
  repeat match goal with
         | |- context [String.eqb c ?k] =>
             destruct (String.eqb_spec c k) as [->|?]
         end; reflexivity.
Qed.

Lemma retry_test_outcome (c : Call) (i : nat) (e : exn) :
  outcome client c i = Raise e -> retry_if_exception_type e = retried (Raise e).
Proof.
  destruct c as [cid q ps|cid ops v]; cbn.
  - destruct (search client i cid q ps) as [r|x]; intros [= <-].
    apply mapped_class_kind.
  - destruct (mutate client i cid ops v) as [r|x]; intros [= <-].
    apply mapped_class_kind.
Qed.

(** C2 (amended). The retry wrapper makes between one and three upstream
    calls and returns the outcome of the last one: the first success, or
    the last error. It retries an attempt's error exactly when its kind is
    RATE_LIMIT or EXTERNAL_API, whatever its retryable bit; every other
    kind, QUOTA and TIMEOUT among them, ends the call at once. The wrapper
    touches neither the store, nor the cache, nor the scheduler. *)
Theorem retry_wrapper_attempts (c : Call) (w : World) :
  let r := fst (run_call client c w) in
  let w' := snd (run_call client c w) in
  let first := upstream_calls w in
  exists n : nat,
    upstream_calls w' = (first + n)%nat /\
    (1 <= n <= 3)%nat /\
    r = outcome client c (first + n - 1) /\
    (forall i, (first <= i < first + n - 1)%nat -> retried (outcome client c i) = true) /\
    (n < 3 -> retried r = false)%nat /\
    redis w' = redis w /\ hot_cache w' = hot_cache w /\ scheduler w' = scheduler w.
Proof.
  cbn zeta. rewrite run_call_retry. unfold MAX_ATTEMPTS. cbn [pred with_retry].
  destruct w as [rd hc sc first ck ws]. cbn [upstream_calls redis hot_cache scheduler].
  rewrite attempt_of_outcome. cbn [upstream_calls count_call redis hot_cache scheduler clock].
  assert (Hlast : forall k, (first + S k - 1)%nat = (first + k)%nat) by (intros; lia).
  destruct (outcome client c first) as [v0|e0] eqn:H0.
  { exists 1%nat. rewrite Hlast, Nat.add_0_r, H0. cbn.
    split; [lia|]. split; [lia|]. split; [reflexivity|].
    split; [intros i Hi; lia|]. split; [reflexivity|]. auto. }
  rewrite (retry_test_outcome _ _ _ H0).
  destruct (retried (Raise e0)) eqn:R0.
  2:{ exists 1%nat. rewrite Hlast, Nat.add_0_r, H0.
      cbn [fst snd count_call upstream_calls redis hot_cache scheduler].
      split; [lia|]. split; [lia|]. split; [reflexivity|].
      split; [intros i Hi; lia|]. split; [intros _; exact R0|]. auto. }
  rewrite attempt_of_outcome. cbn [upstream_calls count_call redis hot_cache scheduler clock].
  assert (Hone : forall i, (first <= i < first + 1)%nat ->
                           retried (outcome client c i) = true).
  { intros i Hi. replace i with first by lia. rewrite H0. exact R0. }
  destruct (outcome client c (S first)) as [v1|e1] eqn:H1.
  { exists 2%nat. rewrite Hlast. replace (first + 1)%nat with (S first) by lia.
    rewrite H1. cbn [fst snd count_call upstream_calls redis hot_cache scheduler].
    split; [lia|]. split; [lia|]. split; [reflexivity|].
    split; [intros i Hi; apply Hone; lia|]. split; [reflexivity|]. auto. }
  rewrite (retry_test_outcome _ _ _ H1).
  destruct (retried (Raise e1)) eqn:R1.
  2:{ exists 2%nat. rewrite Hlast. replace (first + 1)%nat with (S first) by lia.
      rewrite H1. cbn [fst snd count_call upstream_calls redis hot_cache scheduler].
      split; [lia|]. split; [lia|]. split; [reflexivity|].
      split; [intros i Hi; apply Hone; lia|]. split; [intros _; exact R1|]. auto. }
  rewrite attempt_of_outcome. cbn [upstream_calls count_call redis hot_cache scheduler clock].
  assert (Htwo : forall i, (first <= i < first + 2)%nat ->
                           retried (outcome client c i) = true).
  { intros i Hi. assert (i = first \/ i = S first) as [->| ->] by lia.
    - rewrite H0. exact R0.
    - rewrite H1. exact R1. }
  exists 3%nat. rewrite Hlast. replace (first + 2)%nat with (S (S first)) by lia.
  assert (Hres : forall (r : result exn pyval) (w2 : World),
            upstream_calls w2 = (first + 3)%nat ->
            redis w2 = rd -> hot_cache w2 = hc ->
            scheduler w2 = sc ->
            r = outcome client c (S (S first)) ->
            upstream_calls (snd (r, w2)) = (first + 3)%nat /\
            (1 <= 3 <= 3)%nat /\
            fst (r, w2) = outcome client c (S (S first)) /\
            (forall i, (first <= i < S (S first))%nat ->
                       retried (outcome client c i) = true) /\
            ((3 < 3)%nat -> retried (fst (r, w2)) = false) /\
            redis (snd (r, w2)) = rd /\
            hot_cache (snd (r, w2)) = hc /\
            scheduler (snd (r, w2)) = sc).
  { intros r w2 Hc Hr Hh Hs Ho. cbn [fst snd].
    split; [exact Hc|]. split; [lia|]. split; [exact Ho|].
    split; [intros i Hi; apply Htwo; lia|]. split; [lia|]. auto. }
  destruct (outcome client c (S (S first))) as [v2|e2] eqn:H2.
  { apply Hres; try reflexivity. cbn. lia. }
  destruct (retry_if_exception_type e2);
    (apply Hres; try reflexivity; cbn; lia).
Qed.

End RetryWrapper.

Section RetryCounterexample.
Import Python QuotaGovernor.

(** An upstream code outside the mapping table is mapped to an
    EXTERNAL_API error whose retryable bit is off; the wrapper still makes
    three attempts. *)
Lemma retry_wrapper_counterexample :
  Errors.is_retryable (Errors.map_google_ads_exception unknown_failure) = false /\
  Errors.kind (Errors.map_google_ads_exception unknown_failure) = Errors.EXTERNAL_API /\
  GoogleAdsManager.upstream_calls
    (snd (GoogleAdsManager._search_with_retry failing_client "t" "SELECT 1" 10 idle_world))
  = 3%nat.
Proof. repeat split. Qed.

End RetryCounterexample.

(** ** Keys of the shared store *)

Section StoreKeys.
Import Python QuotaGovernor.

Lemma list_ascii_app (s1 s2 : string) :
  list_ascii_of_string (s1 +:+ s2)
  = (list_ascii_of_string s1 ++ list_ascii_of_string s2)%list.
Proof. induction s1 as [|a s1 IH]; simpl; [reflexivity|]. f_equal. exact IH. Qed.

Lemma list_ascii_inj (s1 s2 : string) :
  list_ascii_of_string s1 = list_ascii_of_string s2 -> s1 = s2.
Proof.
  intros H. rewrite <- (string_of_list_ascii_of_string s1),
    <- (string_of_list_ascii_of_string s2), H. reflexivity.
Qed.

Lemma append_inv_tail (s1 s2 u : string) : s1 +:+ u = s2 +:+ u -> s1 = s2.
Proof.
  intros H. apply list_ascii_inj.
  apply (f_equal list_ascii_of_string) in H. rewrite !list_ascii_app in H.
  exact (app_inv_tail _ _ _ H).
Qed.

Lemma paused_key_inj (t t' : string) : paused_key t = paused_key t' -> t = t'.
Proof.
  unfold paused_key. intros H. apply String.app_inj in H.
  exact (append_inv_tail _ _ _ H).
Qed.

Lemma paused_key_not_tier (t t' : string) : paused_key t <> tier_key t'.
Proof.
  unfold paused_key, tier_key. intros H. apply String.app_inj in H.
  apply (f_equal list_ascii_of_string) in H. rewrite !list_ascii_app in H.
  cbn [list_ascii_of_string] in H.
  change [":"; "p"; "a"; "u"; "s"; "e"; "d"]%char
    with ([":"; "p"; "a"; "u"; "s"; "e"]%char ++ ["d"%char])%list in H.
  change [":"; "t"; "i"; "e"; "r"]%char
    with ([":"; "t"; "i"; "e"]%char ++ ["r"%char])%list in H.
  rewrite !app_assoc in H. apply app_inj_tail in H as [_ H]. discriminate H.
Qed.

Lemma paused_key_not_cache (t k : string) : paused_key t <> CacheManager.redis_key k.
Proof. unfold paused_key, CacheManager.redis_key. intros H. cbn in H. discriminate H. Qed.

Lemma paused_key_not_global (t : string) :
  paused_key t <> global_remaining_key /\ paused_key t <> global_daily_key.
Proof. split; intros H; cbn in H; discriminate H. Qed.

Lemma paused_key_not_client_quota (t t' : string) :
  paused_key t <> client_remaining_key t'.
Proof. intros H; cbn in H; discriminate H. Qed.

End StoreKeys.

(** ** Which keys an operation may write *)

Section Frames.
Import Python Redis QuotaGovernor.

Lemma read_only_ret {A : Type} (a : A) : read_only (ret a : M Store A).
Proof. intros st. reflexivity. Qed.

Lemma read_only_lift {A : Type} (r : result exn A) :
  read_only (lift_result r : M Store A).
Proof. intros st. reflexivity. Qed.

Lemma read_only_bind {A B : Type} (m : M Store A) (k : A -> M Store B) :
  read_only m -> (forall a, read_only (k a)) -> read_only (bind m k).
Proof.
  intros Hm Hk st. unfold bind. specialize (Hm st).
  destruct (m st) as [[a|e] st1]; cbn [snd] in *.
  - rewrite Hk. exact Hm.
  - exact Hm.
Qed.

Lemma read_only_round_trip : read_only round_trip.
Proof. intros st. unfold round_trip. destruct (hd false (faults st)); reflexivity. Qed.

Lemma read_only_get (key : string) : read_only (get key).
Proof.
  unfold get. apply read_only_bind; [apply read_only_round_trip|].
  intros _ st. reflexivity.
Qed.

Lemma read_only_read_int (key : string) (d : Z) : read_only (read_int key d).
Proof.
  unfold read_int. apply read_only_bind; [apply read_only_get|].
  intros v. apply read_only_lift.
Qed.

Lemma can_run_kv (cid : string) (units : Z) (tier : SLATier) (st : Store) :
  kv (snd (can_run cid units tier st)) = kv st.
Proof.
  assert (H : read_only (can_run_body cid units tier)).
  { unfold can_run_body.
    apply read_only_bind; [apply read_only_read_int|]. intros g.
    apply read_only_bind; [apply read_only_read_int|]. intros c.
    apply read_only_bind; [apply read_only_read_int|]. intros D.
    destruct ((g <? units) || (c <? units)); [apply read_only_ret|].
    destruct (tier_eqb tier BRONZE); [|apply read_only_ret].
    apply read_only_bind; [apply read_only_lift|]. intros th.
    destruct (PyFloat.int_lt g th); apply read_only_ret. }
  unfold can_run. specialize (H st).
  destruct (can_run_body cid units tier st) as [[b|e] st1]; exact H.
Qed.

Lemma get_client_tier_kv (cid : string) (st : Store) :
  kv (snd (get_client_tier cid st)) = kv st.
Proof.
  unfold get_client_tier. pose proof (read_only_get (tier_key cid) st) as H.
  destruct (get (tier_key cid) st) as [[[[z|v|s]|]|e] st1]; cbn [snd] in *;
    try exact H.
  destruct (tier_of_value s); exact H.
Qed.

Lemma is_client_paused_kv (cid : string) (st : Store) :
  kv (snd (is_client_paused cid st)) = kv st.
Proof.
  unfold is_client_paused. pose proof (read_only_get (paused_key cid) st) as H.
  destruct (get (paused_key cid) st) as [[[[z|v|s]|]|e] st1]; cbn [snd] in *;
    try exact H.
  destruct z as [|[p|p|]|p]; exact H.
Qed.

(** A write to one key leaves every other key as it was, whether or not
    the round trip succeeds. *)
Lemma set_other (key k : string) (v : rval) (st : Store) :
  k <> key -> kv (snd (set key v st)) !! k = kv st !! k.
Proof.
  intros Hne. unfold set, bind, round_trip.
  destruct (hd false (faults st)); cbn [snd kv advance]; [reflexivity|].
  apply lookup_insert_ne. congruence.
Qed.

Lemma setex_other (key k : string) (n : Z) (v : rval) (st : Store) :
  k <> key -> kv (snd (setex key n v st)) !! k = kv st !! k.
Proof.
  intros Hne. unfold setex, bind, round_trip.
  destruct (hd false (faults st)); cbn [snd kv advance]; [reflexivity|].
  apply lookup_insert_ne. congruence.
Qed.

Lemma delete_other (key k : string) (st : Store) :
  k <> key -> kv (snd (delete key st)) !! k = kv st !! k.
Proof.
  intros Hne. unfold delete, bind, round_trip.
  destruct (hd false (faults st)); cbn [snd kv advance]; [reflexivity|].
  apply lookup_delete_ne. congruence.
Qed.

Lemma apply_command_other (c : command) (m : gmap string rval) (k : string) :
  k <> command_key c -> fst (apply_command c m) !! k = m !! k.
Proof.
  intros Hne. destruct c as [key n|key n|key v]; cbn in *.
  - destruct (incr_value (m !! key) n); cbn; [|reflexivity].
    apply lookup_insert_ne. congruence.
  - destruct (negb (in_int64 n) || (n =? INT64_MIN)); cbn; [reflexivity|].
    destruct (incr_value (m !! key) (- n)); cbn; [|reflexivity].
    apply lookup_insert_ne. congruence.
  - apply lookup_insert_ne. congruence.
Qed.

Lemma apply_commands_other (cs : list command) (k : string) :
  Forall (fun c => k <> command_key c) cs ->
  forall m, fst (apply_commands cs m) !! k = m !! k.
Proof.
  induction 1 as [|c cs Hc Hcs IH]; intros m; cbn [apply_commands]; [reflexivity|].
  pose proof (apply_command_other c m k Hc) as H1.
  destruct (apply_command c m) as [m1 ok1]. cbn [fst] in H1.
  specialize (IH m1). destruct (apply_commands cs m1) as [m2 ok2].
  cbn [fst] in *. congruence.
Qed.

Lemma execute_other (cs : list command) (k : string) (st : Store) :
  Forall (fun c => k <> command_key c) cs ->
  kv (snd (execute cs st)) !! k = kv st !! k.
Proof.
  intros Hcs. unfold execute, bind, round_trip.
  destruct (hd false (faults st)); cbn [snd kv advance]; [reflexivity|].
  pose proof (apply_commands_other cs k Hcs (kv st)) as H.
  destruct (apply_commands cs (kv st)) as [m ok]. cbn [fst] in H.
  destruct ok; exact H.
Qed.

End Frames.

(** ** The pipeline and the pause flag *)

Section PauseIsolation.
Import Python Redis QuotaGovernor GoogleAdsManager.
Variable client : Client.

Lemma get_snd (key : string) (st : Store) : snd (get key st) = advance st.
Proof.
  unfold get, bind, round_trip. destruct (hd false (faults st)); reflexivity.
Qed.

Lemma get_client_tier_snd (cid : string) (st : Store) :
  snd (get_client_tier cid st) = advance st.
Proof.
  unfold get_client_tier. pose proof (get_snd (tier_key cid) st) as H.
  destruct (get (tier_key cid) st) as [[[[z|v|s]|]|e] st1]; cbn [snd] in *;
    try exact H.
  destruct (tier_of_value s); exact H.
Qed.

Lemma is_client_paused_true (cid : string) (st : Store) :
  hd false (faults st) = false ->
  kv st !! paused_key cid = Some (RInt 1) ->
  is_client_paused cid st = (true, advance st).
Proof.
  intros Hup Hk. unfold is_client_paused. rewrite get_up by exact Hup.
  rewrite Hk. reflexivity.
Qed.

Lemma up_advance (n : nat) (st : Store) :
  up (S n) st = true -> up n (advance st) = true.
Proof. intros H. apply up_S in H. tauto. Qed.

Lemma paused_error_quota (cid : string) :
  exists e, paused_error cid = AdsError e /\ Errors.kind e = Errors.QUOTA.
Proof. eexists. split; reflexivity. Qed.

Lemma execute_mutate_paused (request : MutateRequest) (urgency : Z) (w : World) :
  paused_in (mutate_client_id request) w ->
  answers mutate_trips_before_pause_check (redis w) ->
  refused w (execute_mutate client request urgency w).
Proof.
  intros Hp Hup. unfold execute_mutate, refused.
  pose proof (get_client_tier_snd (mutate_client_id request) (redis w)) as Ht.
  destruct (get_client_tier (mutate_client_id request) (redis w)) as [tier st1].
  cbn [snd] in Ht. subst st1.
  apply answers_advance, answers_now in Hup.
  rewrite is_client_paused_true; [|exact Hup|exact Hp].
  destruct (paused_error_quota (mutate_client_id request)) as (e & He & Hk).
  exists e. cbn [fst snd]. rewrite He. auto.
Qed.

Lemma gaql_uncached_paused (request : GAQLRequest) (urgency : Z) (w : World) :
  paused_in (client_id request) w ->
  answers 1 (redis w) ->
  refused w (gaql_uncached client request urgency w).
Proof.
  intros Hp Hup. unfold gaql_uncached, refused.
  pose proof (get_client_tier_snd (client_id request) (redis w)) as Ht.
  destruct (get_client_tier (client_id request) (redis w)) as [tier st1].
  cbn [snd] in Ht. subst st1.
  apply answers_advance, answers_now in Hup.
  rewrite is_client_paused_true; [|exact Hup|exact Hp].
  destruct (paused_error_quota (client_id request)) as (e & He & Hk).
  exists e. cbn [fst snd]. rewrite He. auto.
Qed.

(** The cache lookup writes no key of the store and spends at most one
    round trip. *)
Lemma redis_lookup_store (key : string) (m : CacheManager.t) :
  CacheManager.redis (snd (CacheManager.redis_lookup key m))
  = advance (CacheManager.redis m).
Proof.
  unfold CacheManager.redis_lookup.
  pose proof (get_snd (CacheManager.redis_key key) (CacheManager.redis m)) as H.
  destruct (get (CacheManager.redis_key key) (CacheManager.redis m))
    as [[[cached|]|e] st1]; cbn [snd] in H; subst st1; try reflexivity.
  destruct (CacheManager.reply_truthy cached); [|reflexivity].
  destruct (CacheManager.json_loads cached); reflexivity.
Qed.

Lemma cache_get_store (key service : string) (m : CacheManager.t) :
  CacheManager.redis (snd (CacheManager.get key service m)) = CacheManager.redis m \/
  CacheManager.redis (snd (CacheManager.get key service m))
  = advance (CacheManager.redis m).
Proof.
  unfold CacheManager.get.
  destruct (LRUCache.get key (CacheManager.hot_cache m)) as [v lru].
  destruct v; try (left; reflexivity).
  right.
  pose proof (redis_lookup_store key
                {| CacheManager.hot_cache := lru;
                   CacheManager.redis := CacheManager.redis m |}) as H.
  cbn [CacheManager.redis] in H.
  destruct (CacheManager.redis_lookup key _) as [[[data|]|e] m2];
    cbn [snd] in *; exact H.
Qed.

(** A lookup that returns nothing has asked the shared store. *)
Lemma cache_get_miss_store (key svc : string) (m : CacheManager.t) :
  fst (CacheManager.get key svc m) = PNone ->
  CacheManager.redis (snd (CacheManager.get key svc m))
  = advance (CacheManager.redis m).
Proof.
  unfold CacheManager.get.
  destruct (LRUCache.get key (CacheManager.hot_cache m)) as [v lru].
  destruct v; cbn [fst]; try discriminate. intros _.
  pose proof (redis_lookup_store key
                {| CacheManager.hot_cache := lru;
                   CacheManager.redis := CacheManager.redis m |}) as H.
  cbn [CacheManager.redis] in H.
  destruct (CacheManager.redis_lookup key _) as [[[data|]|e] m2];
    cbn [snd] in *; exact H.
Qed.

Lemma cache_get_world (key service : string) (w : World) :
  let w1 := with_cache w (snd (CacheManager.get key service (cache_manager w))) in
  kv (redis w1) = kv (redis w) /\
  upstream_calls w1 = upstream_calls w /\ scheduler w1 = scheduler w /\
  forall n, up (S n) (redis w) = true -> up n (redis w1) = true.
Proof.
  cbn zeta. unfold with_cache. cbn [redis upstream_calls scheduler].
  destruct (cache_get_store key service (cache_manager w)) as [H|H];
    rewrite H; cbn [cache_manager CacheManager.redis advance kv];
    repeat split; intros n Hn.
  - eapply up_le; [|exact Hn]. lia.
  - apply up_advance, Hn.
Qed.

Lemma refused_after_lookup (w w1 : World) (r : result exn pyval * World) :
  upstream_calls w1 = upstream_calls w -> scheduler w1 = scheduler w ->
  refused w1 r -> refused w r.
Proof.
  intros Hu Hs (e & H1 & H2 & H3 & H4). exists e.
  rewrite <- Hu, <- Hs. auto.
Qed.

Lemma execute_gaql_paused (request : GAQLRequest) (urgency : Z) (w : World) :
  paused_in (client_id request) w ->
  not_cached request w ->
  answers (gaql_trips_before_pause_check request) (redis w) ->
  refused w (execute_gaql client request urgency w).
Proof.
  intros Hp Hnc Hup. unfold execute_gaql.
  unfold gaql_trips_before_pause_check in Hup.
  destruct (cache_enabled request) eqn:Hce.
  - destruct Hnc as [Hnc|Hnc]; [congruence|].
    destruct (cache_get_world (gaql_cache_key request) (service_type request) w)
      as (Hkv & Hu & Hs & _).
    pose proof (cache_get_miss_store _ _ _ Hnc) as Hst.
    destruct (CacheManager.get (gaql_cache_key request) (service_type request)
                               (cache_manager w)) as [cached m].
    cbn [fst snd] in *. subst cached.
    eapply refused_after_lookup; [exact Hu|exact Hs|].
    apply gaql_uncached_paused.
    + unfold paused_in. rewrite Hkv. exact Hp.
    + unfold with_cache. cbn [redis]. rewrite Hst.
      apply answers_advance. exact Hup.
  - apply gaql_uncached_paused; [exact Hp|exact Hup].
Qed.

Lemma with_retry_frame {A : Type} (attempt : M World A) :
  (forall w, redis (snd (attempt w)) = redis w) ->
  forall n w, redis (snd (with_retry n attempt w)) = redis w.
Proof.
  intros Hat. induction n as [|n IH]; intros w; cbn [with_retry];
    pose proof (Hat w) as H; destruct (attempt w) as [[v|e] w1];
    cbn [snd] in *; try exact H;
    destruct (retry_if_exception_type e); cbn [snd]; try exact H.
  rewrite IH. exact H.
Qed.

Lemma run_call_redis (c : Call) (w : World) :
  redis (snd (run_call client c w)) = redis w.
Proof.
  destruct c as [cid q ps|cid ops v]; cbn [run_call];
    unfold _search_with_retry, _mutate_with_retry;
    apply with_retry_frame; intros w0.
  - unfold search_attempt. destruct (search client _ cid q ps); reflexivity.
  - unfold mutate_attempt. destruct (mutate client _ cid ops v); reflexivity.
Qed.

Lemma charge_other (cid : string) (units : Z) (k : string) (st : Store) :
  k <> global_remaining_key -> k <> client_remaining_key cid ->
  kv (charge cid units st) !! k = kv st !! k.
Proof.
  intros H1 H2. unfold charge. apply execute_other.
  repeat constructor; assumption.
Qed.

Lemma refund_other (cid : string) (units : Z) (k : string) (st : Store) :
  k <> global_remaining_key -> k <> client_remaining_key cid ->
  kv (refund cid units st) !! k = kv st !! k.
Proof.
  intros H1 H2. unfold refund. apply execute_other.
  repeat constructor; assumption.
Qed.

Lemma execute_operation_paused_key (c : Call) (cid : string) (tier : SLATier)
    (urgency units : Z) (t : string) (w : World) :
  kv (redis (snd (_execute_operation client c cid tier urgency units w)))
    !! paused_key t
  = kv (redis w) !! paused_key t.
Proof.
  unfold _execute_operation.
  destruct (negb (workers_run _)); [reflexivity|].
  pose proof (run_call_redis c (submit_call c cid tier urgency w)) as H.
  destruct (run_call client c (submit_call c cid tier urgency w)) as [[v|e] w2];
    destruct (hd false _);
    cbn [snd fst wait_over task_done with_redis redis] in *;
    try (rewrite H; reflexivity);
    (rewrite charge_other; [rewrite H; reflexivity| |]);
    solve [apply paused_key_not_global | apply paused_key_not_client_quota].
Qed.

Lemma cache_set_other (key service : string) (v : pyval) (n : option Z)
    (k : string) (m : CacheManager.t) :
  k <> CacheManager.redis_key key ->
  kv (CacheManager.redis (CacheManager.set key v service n m)) !! k
  = kv (CacheManager.redis m) !! k.
Proof.
  intros Hne. unfold CacheManager.set. cbn [CacheManager.redis].
  apply setex_other. exact Hne.
Qed.

Lemma gaql_uncached_paused_key (request : GAQLRequest) (urgency : Z)
    (t : string) (w : World) :
  kv (redis (snd (gaql_uncached client request urgency w))) !! paused_key t
  = kv (redis w) !! paused_key t.
Proof.
  unfold gaql_uncached.
  pose proof (get_client_tier_kv (client_id request) (redis w)) as H1.
  destruct (get_client_tier (client_id request) (redis w)) as [tier st1].
  cbn [snd] in H1.
  pose proof (is_client_paused_kv (client_id request) st1) as H2.
  destruct (is_client_paused (client_id request) st1) as [paused st2].
  cbn [snd] in H2.
  destruct paused; cbn [snd with_redis redis]; [congruence|].
  pose proof (can_run_kv (client_id request) 10 tier st2) as H3.
  destruct (can_run (client_id request) 10 tier st2) as [allowed st3].
  cbn [snd] in H3.
  destruct allowed; cbn [negb snd with_redis redis]; [|congruence].
  pose proof (execute_operation_paused_key
                (SearchCall (client_id request) (query request) (page_size request))
                (client_id request) tier urgency 10 t (with_redis w st3)) as H4.
  cbn [with_redis redis] in H4.
  destruct (_execute_operation _ _ _ _ _ _ _) as [[result|e] w4];
    cbn [snd] in *; [|congruence].
  destruct (cache_enabled request && truthy result); cbn [snd]; [|congruence].
  unfold with_cache. cbn [redis].
  rewrite cache_set_other by apply paused_key_not_cache.
  cbn [cache_manager CacheManager.redis]. congruence.
Qed.

Lemma execute_gaql_paused_key (request : GAQLRequest) (urgency : Z)
    (t : string) (w : World) :
  kv (redis (snd (execute_gaql client request urgency w))) !! paused_key t
  = kv (redis w) !! paused_key t.
Proof.
  unfold execute_gaql. destruct (cache_enabled request).
  - destruct (cache_get_world (gaql_cache_key request) (service_type request) w)
      as (Hkv & _).
    destruct (CacheManager.get (gaql_cache_key request) (service_type request)
                               (cache_manager w)) as [cached m].
    cbn [snd] in Hkv.
    destruct cached; cbn [snd]; rewrite ?gaql_uncached_paused_key;
      rewrite Hkv; reflexivity.
  - apply gaql_uncached_paused_key.
Qed.

Lemma execute_mutate_paused_key (request : MutateRequest) (urgency : Z)
    (t : string) (w : World) :
  kv (redis (snd (execute_mutate client request urgency w))) !! paused_key t
  = kv (redis w) !! paused_key t.
Proof.
  unfold execute_mutate.
  pose proof (get_client_tier_kv (mutate_client_id request) (redis w)) as H1.
  destruct (get_client_tier (mutate_client_id request) (redis w)) as [tier st1].
  cbn [snd] in H1.
  pose proof (is_client_paused_kv (mutate_client_id request) st1) as H2.
  destruct (is_client_paused (mutate_client_id request) st1) as [paused st2].
  cbn [snd] in H2.
  destruct paused; cbn [snd with_redis redis]; [congruence|].
  set (units := 50 * Z.of_nat (length (operations request))).
  pose proof (can_run_kv (mutate_client_id request) units tier st2) as H3.
  destruct (can_run (mutate_client_id request) units tier st2) as [allowed st3].
  cbn [snd] in H3.
  destruct allowed; cbn [negb snd with_redis redis]; [|congruence].
  rewrite execute_operation_paused_key. cbn [with_redis redis]. congruence.
Qed.

Lemma run_api_paused (t : string) (call : api_call) (w : World) :
  keeps_paused t call = true ->
  paused_in t w -> paused_in t (run_api client call w).
Proof.
  unfold paused_in. intros Hk Hp.
  destruct call as [rq u|rq u|cid tier|cid|cid|d|cid q|cid units|key];
    cbn [run_api with_redis with_cache redis].
  - rewrite execute_gaql_paused_key. exact Hp.
  - rewrite execute_mutate_paused_key. exact Hp.
  - unfold set_client_tier. rewrite set_other; [exact Hp|].
    apply paused_key_not_tier.
  - unfold pause_client.
    destruct (String.eqb_spec cid t) as [->|Hne].
    + unfold set, bind, round_trip.
      destruct (hd false (faults (redis w))); cbn [snd kv advance];
        [exact Hp|apply lookup_insert_eq].
    + rewrite set_other; [exact Hp|]. intros H. apply paused_key_inj in H.
      congruence.
  - cbn in Hk. destruct (String.eqb_spec cid t) as [->|Hne]; [discriminate Hk|].
    unfold resume_client. rewrite delete_other; [exact Hp|].
    intros H. apply paused_key_inj in H. congruence.
  - unfold reset_global_quota. rewrite execute_other; [exact Hp|].
    repeat constructor; apply paused_key_not_global.
  - unfold set_client_quota. rewrite set_other; [exact Hp|].
    apply paused_key_not_client_quota.
  - rewrite refund_other; [exact Hp| |].
    + apply paused_key_not_global.
    + apply paused_key_not_client_quota.
  - unfold CacheManager.delete. cbn [CacheManager.redis cache_manager].
    rewrite delete_other; [exact Hp|]. apply paused_key_not_cache.
Qed.

Lemma run_apis_paused (t : string) (calls : list api_call) : forall w,
  forallb (keeps_paused t) calls = true ->
  paused_in t w -> paused_in t (run_apis client calls w).
Proof.
  induction calls as [|call rest IH]; intros w Hk Hp; cbn in *; [exact Hp|].
  apply andb_prop in Hk as [Hc Hr].
  apply IH; [exact Hr|]. apply run_api_paused; assumption.
Qed.

Lemma pause_client_sets (t : string) (st st1 : Store) :
  pause_client t st = (Ok tt, st1) ->
  kv st1 !! paused_key t = Some (RInt 1).
Proof.
  unfold pause_client, set, bind, round_trip.
  destruct (hd false (faults st)); intros H; inversion H.
  cbn [kv]. apply lookup_insert_eq.
Qed.

(** C1 (amended). Pause isolation. After [pause_client(t)] has succeeded,
    and through any later calls of the service other than
    [resume_client(t)], a request of tenant [t] whose pause check the
    store answers is refused with a QUOTA error, without reaching the
    scheduler or the upstream, whatever the balances and whatever becomes
    of its other round trips: every [execute_mutate], and every
    [execute_gaql] that the cache does not answer (caching off, or a
    lookup that returns nothing). *)
Theorem pause_isolation (t : string) (calls : list api_call)
    (w0 : World) (st1 : Store) :
  pause_client t (redis w0) = (Ok tt, st1) ->
  forallb (keeps_paused t) calls = true ->
  let w := run_apis client calls (with_redis w0 st1) in
  (forall request urgency,
     mutate_client_id request = t ->
     answers mutate_trips_before_pause_check (redis w) ->
     refused w (execute_mutate client request urgency w)) /\
  (forall request urgency,
     client_id request = t ->
     not_cached request w ->
     answers (gaql_trips_before_pause_check request) (redis w) ->
     refused w (execute_gaql client request urgency w)).
Proof.
  intros Hpause Hcalls w.
  assert (Hp : paused_in t w).
  { apply run_apis_paused; [exact Hcalls|].
    unfold paused_in. cbn [with_redis redis].
    exact (pause_client_sets _ _ _ Hpause). }
  split.
  - intros request urgency <- Hup. apply execute_mutate_paused; assumption.
  - intros request urgency <- Hnc Hup. apply execute_gaql_paused; assumption.
Qed.

End PauseIsolation.

Section PauseScenario.
Import Python Redis QuotaGovernor.

(** Two requests of a paused tenant that are answered. A read whose
    result was cached before the pause is served from the cache, which
    [execute_gaql] consults before the pause check. A mutate made while the
    store fails the pause check goes through, since [is_client_paused]
    answers [False] on a store error. *)
Lemma pause_isolation_counterexample :
  fst (pause_client "t" (GoogleAdsManager.redis after_cached_read)) = Ok tt /\
  kv (GoogleAdsManager.redis paused_world) !! paused_key "t" = Some (RInt 1) /\
  fst (GoogleAdsManager.execute_gaql GoogleAdsManager.MockGoogleAdsClient
         report_request 50 paused_world)
  = Ok (PList [GoogleAdsManager.mock_row]) /\
  kv (GoogleAdsManager.redis paused_world_outage) !! paused_key "t"
  = Some (RInt 1) /\
  fst (GoogleAdsManager.execute_mutate GoogleAdsManager.MockGoogleAdsClient
         update_request 70 paused_world_outage)
  = Ok (PDict [ ("results", PList [GoogleAdsManager.mock_result "t" 0]);
                ("partial_failure_error", PNone) ]).
Proof. repeat split. Qed.

(** The tenant is paused after a cached read, other calls follow, and
    its next mutate and uncached read are refused; so they are on a store
    that fails the tier lookup of the request and answers its pause
    check. *)
Lemma pause_isolation_witness :
  (refused paused_later
     (GoogleAdsManager.execute_mutate GoogleAdsManager.MockGoogleAdsClient
        update_request 70 paused_later) /\
   refused paused_later
     (GoogleAdsManager.execute_gaql GoogleAdsManager.MockGoogleAdsClient
        uncached_request 50 paused_later)) /\
  Redis.faults (GoogleAdsManager.redis paused_flaky) = [true; false; true; true] /\
  refused paused_flaky
    (GoogleAdsManager.execute_mutate GoogleAdsManager.MockGoogleAdsClient
       update_request 70 paused_flaky) /\
  refused paused_flaky
    (GoogleAdsManager.execute_gaql GoogleAdsManager.MockGoogleAdsClient
       uncached_request 50 paused_flaky).
Proof.
  split.
  - destruct (pause_isolation GoogleAdsManager.MockGoogleAdsClient "t"
                later_calls after_cached_read
                (snd (pause_client "t" (GoogleAdsManager.redis after_cached_read))))
      as [Hm Hg]; try reflexivity.
    split.
    + apply Hm; reflexivity.
    + apply Hg; [reflexivity|left; reflexivity|reflexivity].
  - split; [reflexivity|].
    destruct (pause_isolation GoogleAdsManager.MockGoogleAdsClient "t"
                later_calls flaky_after_cached_read
                (snd (pause_client "t"
                        (GoogleAdsManager.redis flaky_after_cached_read))))
      as [Hm Hg]; try reflexivity.
    split.
    + apply Hm; reflexivity.
    + apply Hg; [reflexivity|left; reflexivity|reflexivity].
Defined.

End PauseScenario.

(** ** Empty results and the cache *)

Section EmptyResults.
Import Python Redis QuotaGovernor GoogleAdsManager.
Variable client : Client.

Lemma lru_get_none (key : string) (c : LRUCache.t) :
  OrderedDict.get key (LRUCache.cache c) = PNone ->
  fst (LRUCache.get key c) = PNone /\
  LRUCache.cache (snd (LRUCache.get key c)) = LRUCache.cache c /\
  LRUCache.maxsize (snd (LRUCache.get key c)) = LRUCache.maxsize c /\
  LRUCache.misses (LRUCache.stats (snd (LRUCache.get key c)))
  = LRUCache.misses (LRUCache.stats c) + 1 /\
  LRUCache.hits (LRUCache.stats (snd (LRUCache.get key c)))
  = LRUCache.hits (LRUCache.stats c).
Proof. intros H. unfold LRUCache.get. rewrite H. cbn. auto. Qed.


Lemma lookup_app_absent (key : string) (v : pyval) (l : OrderedDict.t) :
  ~ In key (OrderedDict.keys l) ->
  OrderedDict.lookup key (l ++ [(key, v)]) = Some v.
Proof.
  induction l as [|[k' v'] rest IH]; cbn; intros Hn.
  - rewrite String.eqb_refl. reflexivity.
  - destruct (String.eqb_spec key k') as [->|Hne]; [tauto|]. apply IH. tauto.
Qed.

Lemma remove_absent (key : string) (d : OrderedDict.t) :
  List.NoDup (OrderedDict.keys d) ->
  ~ In key (OrderedDict.keys (OrderedDict.remove key d)).
Proof.
  induction d as [|[k' v'] rest IH]; cbn; intros Hnd; [tauto|].
  apply List.NoDup_cons_iff in Hnd as [Hk Hnd].
  destruct (String.eqb_spec key k') as [->|Hne]; cbn; [exact Hk|].
  intros [H|H]; [congruence|]. exact (IH Hnd H).
Qed.


Lemma cache_key_not_quota (k cid : string) :
  CacheManager.redis_key k <> global_remaining_key /\
  CacheManager.redis_key k <> client_remaining_key cid.
Proof. split; intros H; cbn in H; discriminate H. Qed.

Lemma with_retry_cache {A : Type} (attempt : M World A) :
  (forall w, hot_cache (snd (attempt w)) = hot_cache w /\
             (upstream_calls w < upstream_calls (snd (attempt w)))%nat) ->
  forall n w, hot_cache (snd (with_retry n attempt w)) = hot_cache w /\
              (upstream_calls w < upstream_calls (snd (with_retry n attempt w)))%nat.
Proof.
  intros Hat. induction n as [|n IH]; intros w; cbn [with_retry];
    pose proof (Hat w) as [H Hc]; destruct (attempt w) as [[v|e] w1];
    cbn [snd] in *; try (split; assumption);
    destruct (retry_if_exception_type e); cbn [snd]; try (split; assumption).
  destruct (IH w1) as [H1 Hc1]. split; [congruence|lia].
Qed.

Lemma run_call_cache (c : Call) (w : World) :
  hot_cache (snd (run_call client c w)) = hot_cache w /\
  (upstream_calls w < upstream_calls (snd (run_call client c w)))%nat.
Proof.
  destruct c as [cid q ps|cid ops v]; cbn [run_call];
    unfold _search_with_retry, _mutate_with_retry;
    apply with_retry_cache; intros w0.
  - unfold search_attempt. destruct (search client _ cid q ps); cbn; auto.
  - unfold mutate_attempt. destruct (mutate client _ cid ops v); cbn; auto.
Qed.

Lemma execute_operation_cache (c : Call) (cid : string) (tier : SLATier)
    (urgency units : Z) (w : World) :
  let r := _execute_operation client c cid tier urgency units w in
  hot_cache (snd r) = hot_cache w /\
  (forall v, fst r = Ok v -> (upstream_calls w < upstream_calls (snd r))%nat) /\
  forall k, kv (redis (snd r)) !! CacheManager.redis_key k
            = kv (redis w) !! CacheManager.redis_key k.
Proof.
  cbn zeta. unfold _execute_operation.
  destruct (negb (workers_run _));
    [split; [reflexivity|]; split; [discriminate|reflexivity]|].
  pose proof (run_call_redis client c (submit_call c cid tier urgency w)) as Hr.
  pose proof (run_call_cache c (submit_call c cid tier urgency w)) as [Hh Hc].
  destruct (run_call client c (submit_call c cid tier urgency w)) as [[v|e] w2];
    destruct (hd false _);
    cbn [snd fst wait_over task_done with_redis redis hot_cache upstream_calls
         submit_call] in *;
    (split; [exact Hh|]); (split; [try discriminate; intros _ _; exact Hc|]);
    intros k; try (rewrite Hr; reflexivity);
    destruct (cache_key_not_quota k cid) as [H1 H2];
    rewrite charge_other by assumption; rewrite Hr; reflexivity.
Qed.





End EmptyResults.

Section EmptyResultScenario.
Import Python Redis QuotaGovernor.


End EmptyResultScenario.

(** ** Error responses *)

Section ErrorResponses.
Import Errors Python.

Ltac split_codes c :=
  repeat match goal with
         | |- context [String.eqb c ?k] =>
             destruct (String.eqb_spec c k) as [->|?]
         end.

(** X1. The response to a mapped upstream exception. The handler answers
    with the status of the error's category (401, 403, 429, 400, 404, 409,
    500, 502, 504), and the body holds [category], [code], [message] and
    [retryable], with the message the text of the exception; a [details]
    entry is present exactly for EXTERNAL_API errors. *)
Theorem mapped_error_response (x : UpstreamException) :
  let e := map_google_ads_exception x in
  let status := fst (ErrorResponse.ads_api_error_handler e) in
  let content := snd (ErrorResponse.ads_api_error_handler e) in
  status = status_of_kind (kind e) /\
  map fst content
    = [ "category"; "code"; "message"; "retryable" ] ++
      match kind e with EXTERNAL_API => [ "details" ] | _ => [] end /\
  dict_get content "category" PNone
    = PStr (ErrorResponse.category_value (kind e)) /\
  dict_get content "message" PNone = PStr (text x) /\
  dict_get content "retryable" PNone = PBool (is_retryable e).
Proof.
  unfold map_google_ads_exception.
  generalize (match error_code x with Some c => c | None => "UNKNOWN" end).
  intros c; cbn zeta.
  unfold GOOGLE_ADS_ERROR_MAP, retryable_codes.
  cbn [dict_get str_in].
  split_codes c; cbn; try (repeat split; reflexivity).
  unfold mkExternalAPIError. destruct (String.eqb c ""); cbn; repeat split; reflexivity.
Qed.

(** X2. The details of a mapped error. An EXTERNAL_API error records the
    upstream code (UNKNOWN when the exception has none) as
    [original_error] and, unless it is the empty string, as
    [google_ads_error_code]; every other mapped error has no details, so
    a QUOTA error that comes from the mapper names no client. *)
Theorem mapped_error_details (x : UpstreamException) :
  let e := map_google_ads_exception x in
  details (error_detail e)
    = match kind e with
      | EXTERNAL_API => external_details (upstream_code x)
      | _ => []
      end.
Proof.
  unfold map_google_ads_exception, upstream_code.
  generalize (match error_code x with Some c => c | None => "UNKNOWN" end).
  intros c; cbn zeta.
  unfold GOOGLE_ADS_ERROR_MAP, retryable_codes, external_details.
  cbn [dict_get str_in].
  split_codes c; cbn; try reflexivity.
  destruct (String.eqb_spec c ""); [congruence|]. reflexivity.
Qed.

End ErrorResponses.

(** ** Writes to the store *)

Section StoreWrites.
Import Python Redis QuotaGovernor.

Lemma set_ok (key : string) (v : rval) (st st1 : Store) :
  set key v st = (Ok tt, st1) ->
  kv st1 = <[key := v]> (kv st) /\ faults st1 = tail (faults st).
Proof.
  unfold set, bind, round_trip.
  destruct (hd false (faults st)); intros H; inversion H. split; reflexivity.
Qed.

Lemma delete_ok (key : string) (st st1 : Store) :
  delete key st = (Ok tt, st1) ->
  kv st1 = base.delete key (kv st) /\ faults st1 = tail (faults st).
Proof.
  unfold delete, bind, round_trip.
  destruct (hd false (faults st)); intros H; inversion H. split; reflexivity.
Qed.

Lemma execute_ok (cs : list command) (st st1 : Store) :
  execute cs st = (Ok tt, st1) ->
  kv st1 = fst (apply_commands cs (kv st)) /\ faults st1 = tail (faults st).
Proof.
  unfold execute, bind, round_trip.
  destruct (hd false (faults st)); intros H; [inversion H|].
  cbn [advance kv ttl faults] in H.
  destruct (apply_commands cs (kv st)) as [m ok].
  destruct ok; inversion H. split; reflexivity.
Qed.

Lemma tier_key_inj (t t' : string) : tier_key t = tier_key t' -> t = t'.
Proof.
  unfold tier_key. intros H. apply String.app_inj in H.
  exact (append_inv_tail _ _ _ H).
Qed.

Lemma client_remaining_key_inj (t t' : string) :
  client_remaining_key t = client_remaining_key t' -> t = t'.
Proof.
  unfold client_remaining_key. intros H. apply String.app_inj in H.
  exact (append_inv_tail _ _ _ H).
Qed.

Lemma tier_key_not_quota (t t' : string) :
  tier_key t <> client_remaining_key t' /\
  tier_key t <> global_remaining_key /\ tier_key t <> global_daily_key.
Proof. repeat split; intros H; cbn in H; discriminate H. Qed.

Lemma client_key_not_daily (t : string) :
  client_remaining_key t <> global_daily_key.
Proof.
  unfold client_remaining_key, global_daily_key. intros H. cbn in H.
  discriminate H.
Qed.

Lemma tier_of_value_value (t : SLATier) : tier_of_value (tier_value t) = Some t.
Proof. destruct t; reflexivity. Qed.

Lemma tier_of_value_inv (s : string) (t : SLATier) :
  tier_of_value s = Some t -> s = tier_value t.
Proof.
  unfold tier_of_value.
  destruct (String.eqb_spec s "gold") as [->|_]; [intros [= <-]; reflexivity|].
  destruct (String.eqb_spec s "silver") as [->|_]; [intros [= <-]; reflexivity|].
  destruct (String.eqb_spec s "bronze") as [->|_]; [intros [= <-]; reflexivity|].
  discriminate.
Qed.

Lemma get_client_tier_up (cid : string) (st : Store) :
  hd false (faults st) = false ->
  fst (get_client_tier cid st)
  = match kv st !! tier_key cid with
    | Some (RText s) => match tier_of_value s with Some t => t | None => BRONZE end
    | _ => BRONZE
    end.
Proof.
  intros Hup. unfold get_client_tier. rewrite (get_up _ _ Hup).
  destruct (kv st !! tier_key cid) as [[z|v|s]|]; try reflexivity.
  destruct (tier_of_value s); reflexivity.
Qed.

Lemma is_client_paused_up (cid : string) (st : Store) :
  hd false (faults st) = false ->
  fst (is_client_paused cid st)
  = match kv st !! paused_key cid with
    | Some (RInt 1) => true
    | _ => false
    end.
Proof.
  intros Hup. unfold is_client_paused. rewrite (get_up _ _ Hup).
  destruct (kv st !! paused_key cid) as [[z|v|s]|]; try reflexivity.
  destruct z as [|p|p]; try reflexivity. destruct p; reflexivity.
Qed.

Lemma is_client_paused_false (cid : string) (st : Store) :
  kv st !! paused_key cid = None -> fst (is_client_paused cid st) = false.
Proof.
  intros Hk. unfold is_client_paused, get, bind, round_trip.
  destruct (hd false (faults st)); [reflexivity|].
  cbn [advance kv]. rewrite Hk. reflexivity.
Qed.

End StoreWrites.

(** ** Tiers, pauses, budgets and the client status *)

Section QuotaGovernorProperties.
Import Python Redis QuotaGovernor.

(** The double threshold of a budget that is not negative never exceeds
    the budget. *)
Lemma bronze_threshold_full (D : Z) :
  0 <= D < 2 ^ 50 ->
  exists t, PyFloat.mul_int BRONZE_RESERVE_THRESHOLD D = Ok t /\
            PyFloat.int_lt D t = false.
Proof.
  intros HD.
  unfold PyFloat.mul_int, PyFloat.of_int, PyFloat.mul, PyFloat.prec, PyFloat.emax.
  destruct D as [|p|p]; unfold binary_normalize; [| |lia].
  - eexists. split; [reflexivity|]. reflexivity.
  - destruct (threshold_product false p) as (m & k & Hres & Hk & _ & HU); [lia|].
    pose proof Hres as Hres'.
    unfold SFmul, BRONZE_RESERVE_THRESHOLD in Hres'.
    destruct (binary_round 53 1024 false p 0) as [| | |s0 m0 e0] eqn:Ebr;
      try discriminate Hres'.
    exists (S754_finite false m (- k)). split; [rewrite Hres; reflexivity|].
    unfold PyFloat.int_lt.
    replace (0 <=? - k) with false by (symmetry; apply Z.leb_gt; lia).
    rewrite Z.opp_involutive. apply Z.ltb_ge.
    apply Z.lt_le_incl. apply HU.
    change (2 ^ 55) with 36028797018963968.
    change (2 ^ 50) with 1125899906842624 in *. lia.
Qed.

(** X3. Tier round trip. Once [set_client_tier(cid, tier)] has succeeded,
    [get_client_tier(cid)] on a reachable store returns that tier, and the
    answer for every other client is what it was. *)
Theorem client_tier_round_trip (cid : string) (tier : SLATier) (st st1 : Store) :
  set_client_tier cid tier st = (Ok tt, st1) ->
  hd false (faults st1) = false ->
  fst (get_client_tier cid st1) = tier /\
  (forall other, other <> cid ->
     fst (get_client_tier other st1) = fst (get_client_tier other (advance st))).
Proof.
  intros Hset Hup. apply set_ok in Hset as [Hkv Hf].
  split.
  - rewrite (get_client_tier_up _ _ Hup), Hkv, lookup_insert_eq.
    rewrite tier_of_value_value. reflexivity.
  - intros other Hne.
    rewrite (get_client_tier_up _ _ Hup).
    rewrite get_client_tier_up by (cbn [advance faults]; rewrite <- Hf; exact Hup).
    cbn [advance kv]. rewrite Hkv, lookup_insert_ne; [reflexivity|].
    intros H. apply tier_key_inj in H. congruence.
Qed.

(** A GOLD client is made SILVER; another client is not affected. *)
Lemma client_tier_round_trip_witness :
  fst (get_client_tier "t" (snd (set_client_tier "t" SILVER gold_store))) = SILVER /\
  fst (get_client_tier "u" (snd (set_client_tier "t" SILVER gold_store)))
  = fst (get_client_tier "u" (advance gold_store)).
Proof.
  destruct (client_tier_round_trip "t" SILVER gold_store
              (snd (set_client_tier "t" SILVER gold_store))) as [H1 H2];
    try reflexivity.
  split; [exact H1|]. apply H2. discriminate.
Defined.

(** X4. [get_client_tier] answers GOLD or SILVER only when the store was
    reached and holds exactly that tier's value for the client: a missing
    key, any other text and a store error all give BRONZE. *)
Theorem get_client_tier_above_bronze (cid : string) (st : Store) :
  fst (get_client_tier cid st) <> BRONZE ->
  hd false (faults st) = false /\
  kv st !! tier_key cid
  = Some (RText (tier_value (fst (get_client_tier cid st)))).
Proof.
  unfold get_client_tier, get, bind, round_trip.
  destruct (hd false (faults st)); cbn [fst]; [congruence|].
  cbn [advance kv].
  destruct (kv st !! tier_key cid) as [[z|v|s]|]; cbn [fst]; try congruence.
  destruct (tier_of_value s) as [t|] eqn:Et; cbn [fst]; [|congruence].
  intros _. split; [reflexivity|].
  apply tier_of_value_inv in Et. rewrite Et. reflexivity.
Qed.

(** The answer GOLD comes from a reachable store that holds [gold]. *)
Lemma get_client_tier_above_bronze_witness :
  hd false (faults gold_store) = false /\
  kv gold_store !! tier_key "t" = Some (RText "gold").
Proof.
  apply (get_client_tier_above_bronze "t" gold_store). discriminate.
Defined.

(** X5. Once [resume_client(t)] has succeeded, [is_client_paused(t)] is
    false on every store with the same data, no other key has changed,
    and resuming a client that was not paused changes nothing. *)
Theorem resume_client_unpauses (t : string) (st st1 : Store) :
  resume_client t st = (Ok tt, st1) ->
  (forall st', kv st' = kv st1 -> fst (is_client_paused t st') = false) /\
  (forall k, k <> paused_key t -> kv st1 !! k = kv st !! k) /\
  (kv st !! paused_key t = None -> kv st1 = kv st).
Proof.
  intros Hres. apply delete_ok in Hres as [Hkv _].
  split; [|split].
  - intros st' Hst'. apply is_client_paused_false.
    rewrite Hst', Hkv. apply lookup_delete_eq.
  - intros k Hk. rewrite Hkv. apply lookup_delete_ne. congruence.
  - intros Hnone. rewrite Hkv. apply delete_id. exact Hnone.
Qed.

(** A paused client is resumed. *)
Lemma resume_client_unpauses_witness :
  fst (is_client_paused "t" (snd (resume_client "t" corrupt_balance_store))) = false.
Proof.
  destruct (resume_client_unpauses "t" corrupt_balance_store
              (snd (resume_client "t" corrupt_balance_store))) as (H & _);
    [reflexivity|].
  apply H. reflexivity.
Defined.

(** X6. After [reset_global_quota(D)] and [set_client_quota(cid, q)] have
    succeeded, with 0 <= D < 2^50 and the store reachable, [can_run]
    admits a request of any tier exactly when its units are at most D and
    at most q: a full budget is never under the bronze reserve. *)
Theorem fresh_quota_admits (cid : string) (D q units : Z) (tier : SLATier)
    (st st1 st2 : Store) :
  reset_global_quota D st = (Ok tt, st1) ->
  set_client_quota cid q st1 = (Ok tt, st2) ->
  up 3 st2 = true ->
  0 <= D < 2 ^ 50 ->
  fst (can_run cid units tier st2) = (units <=? D) && (units <=? q).
Proof.
  intros Hreset Hset Hup HD.
  apply execute_ok in Hreset as [Hkv1 _].
  apply set_ok in Hset as [Hkv2 _].
  assert (Hg : kv st2 !! global_remaining_key = Some (RInt D)).
  { rewrite Hkv2, lookup_insert_ne by apply client_key_not_global.
    rewrite Hkv1. cbn. rewrite lookup_insert_eq. reflexivity. }
  assert (Hd : kv st2 !! global_daily_key = Some (RInt D)).
  { rewrite Hkv2, lookup_insert_ne by apply client_key_not_daily.
    rewrite Hkv1. cbn. rewrite lookup_insert_ne by discriminate.
    rewrite lookup_insert_eq. reflexivity. }
  assert (Hc : kv st2 !! client_remaining_key cid = Some (RInt q)).
  { rewrite Hkv2, lookup_insert_eq. reflexivity. }
  rewrite (can_run_reads cid units tier st2 D q D Hup);
    [|rewrite Hg; reflexivity|rewrite Hc; reflexivity|rewrite Hd; reflexivity].
  unfold admission.
  destruct (Z.ltb_spec D units) as [H1|H1];
    [replace (units <=? D) with false by (symmetry; apply Z.leb_gt; lia);
     reflexivity|].
  destruct (Z.ltb_spec q units) as [H2|H2];
    [replace (units <=? q) with false by (symmetry; apply Z.leb_gt; lia);
     rewrite andb_false_r; reflexivity|].
  replace (units <=? D) with true by (symmetry; apply Z.leb_le; lia).
  replace (units <=? q) with true by (symmetry; apply Z.leb_le; lia).
  cbn [orb andb].
  destruct (tier_eqb tier BRONZE); [|reflexivity].
  destruct (bronze_threshold_full D HD) as (t & -> & ->). reflexivity.
Qed.

(** Budgets of 10000 and 500: 500 units pass even for BRONZE, 501 do not
    even for GOLD. *)
Lemma fresh_quota_admits_witness :
  let st2 := snd (set_client_quota "t" 500
                    (snd (reset_global_quota 10000 unknown_client_store))) in
  fst (can_run "t" 500 BRONZE st2) = true /\
  fst (can_run "t" 501 GOLD st2) = false.
Proof.
  cbn zeta. split.
  - rewrite (fresh_quota_admits "t" 10000 500 500 BRONZE unknown_client_store
               (snd (reset_global_quota 10000 unknown_client_store))
               (snd (set_client_quota "t" 500
                       (snd (reset_global_quota 10000 unknown_client_store)))));
      try reflexivity. lia.
  - rewrite (fresh_quota_admits "t" 10000 500 501 GOLD unknown_client_store
               (snd (reset_global_quota 10000 unknown_client_store))
               (snd (set_client_quota "t" 500
                       (snd (reset_global_quota 10000 unknown_client_store)))));
      try reflexivity. lia.
Defined.

(** A request that one of the balances does not cover is not admitted,
    whatever the tier. *)
Lemma can_run_insufficient (cid : string) (units g c D : Z) (tier : SLATier)
    (st : Store) :
  up 3 st = true ->
  int_or (kv st !! global_remaining_key) 0 = Ok g ->
  int_or (kv st !! client_remaining_key cid) 0 = Ok c ->
  int_or (kv st !! global_daily_key) 1 = Ok D ->
  g < units \/ c < units ->
  fst (can_run cid units tier st) = false.
Proof.
  intros Hup Hg Hc HD Hshort.
  rewrite (can_run_reads cid units tier st g c D Hup Hg Hc HD).
  unfold admission.
  replace ((g <? units) || (c <? units)) with true; [reflexivity|].
  symmetry. apply orb_true_iff.
  destruct Hshort; [left|right]; apply Z.ltb_lt; assumption.
Qed.

(** X7. The client status shows what the admin calls wrote: after
    [set_client_quota], [set_client_tier] and [pause_client] have
    succeeded for a client, [get_client_quota_status] on a reachable store
    reports that quota, that tier and [paused = True]. *)
Theorem client_status_reflects_writes (cid : string) (q : Z) (tier : SLATier)
    (st st1 st2 st3 : Store) :
  set_client_quota cid q st = (Ok tt, st1) ->
  set_client_tier cid tier st1 = (Ok tt, st2) ->
  pause_client cid st2 = (Ok tt, st3) ->
  up 3 st3 = true ->
  fst (get_client_quota_status cid st3) = client_quota_status cid q tier true.
Proof.
  intros Hq Ht Hp Hup.
  apply set_ok in Hq as [Hkv1 _]. apply set_ok in Ht as [Hkv2 _].
  apply set_ok in Hp as [Hkv3 _].
  apply up_S in Hup as [H1 Hup]. apply up_S in Hup as [H2 Hup].
  apply up_S in Hup as [H3 _].
  unfold get_client_quota_status.
  rewrite (read_int_up _ _ _ H1).
  assert (Hc : kv st3 !! client_remaining_key cid = Some (RInt q)).
  { rewrite Hkv3, lookup_insert_ne by apply paused_key_not_client_quota.
    rewrite Hkv2, lookup_insert_ne by apply tier_key_not_quota.
    rewrite Hkv1. apply lookup_insert_eq. }
  rewrite Hc. cbn [int_or].
  pose proof (get_client_tier_up cid (advance st3) H2) as Htier.
  cbn [advance kv] in Htier.
  rewrite Hkv3, lookup_insert_ne in Htier by apply paused_key_not_tier.
  rewrite Hkv2, lookup_insert_eq, tier_of_value_value in Htier.
  pose proof (get_client_tier_snd cid (advance st3)) as Hsnd.
  destruct (get_client_tier cid (advance st3)) as [tr st4].
  cbn [fst snd] in Htier, Hsnd. subst tr st4.
  rewrite (is_client_paused_true cid (advance (advance st3)) H3)
    by (cbn [advance kv]; rewrite Hkv3; apply lookup_insert_eq).
  reflexivity.
Qed.

(** Quota 42, tier SILVER, paused. *)
Lemma client_status_reflects_writes_witness :
  fst (get_client_quota_status "t"
         (snd (pause_client "t"
                 (snd (set_client_tier "t" SILVER
                         (snd (set_client_quota "t" 42 gold_store)))))))
  = client_quota_status "t" 42 SILVER true.
Proof.
  apply (client_status_reflects_writes "t" 42 SILVER gold_store
           (snd (set_client_quota "t" 42 gold_store))
           (snd (set_client_tier "t" SILVER
                   (snd (set_client_quota "t" 42 gold_store)))));
    reflexivity.
Defined.

(** X8. When reading the balance fails (the store is unreachable, or the
    stored balance is no integer), [get_client_quota_status] answers the
    default status: remaining 0, tier bronze, not paused, whatever tier
    and pause flag the store holds. *)
Theorem client_status_default (cid : string) (st : Store) :
  hd false (faults st) = true \/
  int_or (kv st !! client_remaining_key cid) 0 = Raise ValueError ->
  fst (get_client_quota_status cid st) = client_quota_status cid 0 BRONZE false.
Proof.
  intros H. unfold get_client_quota_status.
  destruct (hd false (faults st)) eqn:Hf.
  - rewrite (read_int_down _ _ _ Hf). reflexivity.
  - destruct H as [H|H]; [discriminate H|].
    rewrite (read_int_up _ _ _ Hf), H. reflexivity.
Qed.

(** A GOLD client that is paused, with a balance that is no integer, is
    reported as an unpaused BRONZE client with nothing left. *)
Lemma client_status_default_witness :
  fst (is_client_paused "t" corrupt_balance_store) = true /\
  fst (get_client_tier "t" corrupt_balance_store) = GOLD /\
  fst (get_client_quota_status "t" corrupt_balance_store)
  = client_quota_status "t" 0 BRONZE false.
Proof.
  split; [reflexivity|]. split; [reflexivity|].
  apply client_status_default. right. reflexivity.
Defined.

(** What [int] makes of byte strings. *)
Lemma int_of_bytes_examples :
  int_of_bytes " 42" = Ok 42 /\
  int_of_bytes "42  " = Ok 42 /\
  int_of_bytes "+42" = Ok 42 /\
  int_of_bytes "-42" = Ok (-42) /\
  int_of_bytes "0042" = Ok 42 /\
  int_of_bytes "4_2" = Ok 42 /\
  int_of_bytes "-0" = Ok 0 /\
  int_of_bytes "4__2" = Raise ValueError /\
  int_of_bytes "_42" = Raise ValueError /\
  int_of_bytes "42_" = Raise ValueError /\
  int_of_bytes "4 2" = Raise ValueError /\
  int_of_bytes "- 42" = Raise ValueError /\
  int_of_bytes "+-42" = Raise ValueError /\
  int_of_bytes "4.2" = Raise ValueError /\
  int_of_bytes "0x2a" = Raise ValueError /\
  int_of_bytes "+" = Raise ValueError /\
  int_of_bytes "  " = Raise ValueError /\
  int_of_bytes "n/a" = Raise ValueError.
Proof. repeat split. Qed.

(** A balance written with a space before its digits is read as the
    integer it spells, with the tier and the pause flag of the client,
    and a charge leaves it as it is. *)
Lemma padded_balance_is_read :
  fst (get_client_quota_status "t" padded_balance_store)
  = client_quota_status "t" 42 GOLD true /\
  kv (charge "t" 10 padded_balance_store) !! client_remaining_key "t"
  = Some (RText " 42").
Proof. split; reflexivity. Qed.

(** X9. A charge that reaches the store debits the global balance whatever
    the state of the client's balance: a client without a balance key gets
    one at minus the units, and a client balance that is no integer is
    left as it is, while the global balance is lowered all the same. *)
Theorem charge_debits_global (cid : string) (units g : Z) (st : Store) :
  hd false (faults st) = false ->
  kv st !! global_remaining_key = Some (RInt g) ->
  in_int64 g = true -> in_int64 units = true -> units <> INT64_MIN ->
  in_int64 (g - units) = true ->
  let st1 := charge cid units st in
  kv st1 !! global_remaining_key = Some (RInt (g - units)) /\
  (kv st !! client_remaining_key cid = None ->
   kv st1 !! client_remaining_key cid = Some (RInt (- units))) /\
  (forall s, kv st !! client_remaining_key cid = Some (RText s) ->
   kv st1 !! client_remaining_key cid = Some (RText s)).
Proof.
  intros Hup Hg Hgr Hur Hmin Hres st1. subst st1.
  unfold charge, charge_pipeline. rewrite (execute_up _ _ Hup). cbn [snd kv].
  rewrite apply_two. cbn [fst].
  assert (Hguard : negb (in_int64 units) || (units =? INT64_MIN) = false).
  { rewrite Hur. cbn. apply Z.eqb_neq. exact Hmin. }
  assert (Hneg : in_int64 (- units) = true).
  { apply in_int64_spec. apply in_int64_spec in Hur.
    unfold INT64_MIN in Hmin. lia. }
  assert (H1 : apply_command (DECRBY global_remaining_key units) (kv st)
               = (<[global_remaining_key := RInt (g - units)]> (kv st), true)).
  { unfold apply_command. rewrite Hguard, Hg. unfold incr_value.
    rewrite Hneg, Hgr. cbn [negb andb].
    replace (g + - units) with (g - units) by lia. rewrite Hres. reflexivity. }
  rewrite H1. cbn [fst].
  assert (Hne : global_remaining_key <> client_remaining_key cid).
  { intros H. symmetry in H. revert H. apply client_key_not_global. }
  split; [|split].
  - rewrite apply_command_other by exact Hne. apply lookup_insert_eq.
  - intros Hnone. unfold apply_command. rewrite Hguard.
    rewrite lookup_insert_ne by exact Hne. rewrite Hnone.
    unfold incr_value. rewrite Hneg. cbn [negb fst]. apply lookup_insert_eq.
  - intros s Hs. unfold apply_command. rewrite Hguard.
    rewrite lookup_insert_ne by exact Hne. rewrite Hs.
    unfold incr_value. rewrite Hneg. cbn [negb fst].
    rewrite lookup_insert_ne by exact Hne. exact Hs.
Qed.

(** A charge of 50 against a balance that is no integer, and against a
    client without a balance. *)
Lemma charge_debits_global_witness :
  kv (charge "t" 50 corrupt_balance_store) !! global_remaining_key
  = Some (RInt 9950) /\
  kv (charge "t" 50 corrupt_balance_store) !! client_remaining_key "t"
  = Some (RText "n/a") /\
  kv (charge "t" 50 unknown_client_store) !! client_remaining_key "t"
  = Some (RInt (-50)).
Proof.
  destruct (charge_debits_global "t" 50 10000 corrupt_balance_store)
    as (Hg & _ & Ht); try reflexivity; try discriminate.
  destruct (charge_debits_global "t" 50 10000 unknown_client_store)
    as (_ & Hn & _); try reflexivity; try discriminate.
  split; [exact Hg|]. split; [apply Ht; reflexivity|apply Hn; reflexivity].
Defined.

End QuotaGovernorProperties.

(** ** Size and counters of the LRU *)

Section LRUCalls.
Import Python.

Lemma length_setitem (k : string) (v : pyval) (d : OrderedDict.t) :
  length (OrderedDict.setitem k v d)
  = match OrderedDict.lookup k d with
    | Some _ => length d
    | None => S (length d)
    end.
Proof.
  induction d as [|[k' v'] d IH]; cbn; [reflexivity|].
  destruct (String.eqb k k'); cbn; [reflexivity|].
  rewrite IH. destruct (OrderedDict.lookup k d); reflexivity.
Qed.

Lemma length_remove (k : string) (d : OrderedDict.t) :
  length (OrderedDict.remove k d)
  = match OrderedDict.lookup k d with
    | Some _ => pred (length d)
    | None => length d
    end.
Proof.
  induction d as [|[k' v'] d IH]; cbn; [reflexivity|].
  destruct (String.eqb k k'); cbn; [reflexivity|].
  rewrite IH. destruct (OrderedDict.lookup k d) eqn:E; [|reflexivity].
  destruct d; [discriminate E|reflexivity].
Qed.

Lemma length_placed (k : string) (v : pyval) (c : LRUCache.t) :
  length (LRUCache.placed k v c)
  = match OrderedDict.lookup k (LRUCache.cache c) with
    | Some _ => length (LRUCache.cache c)
    | None => S (length (LRUCache.cache c))
    end.
Proof.
  rewrite placed_eq, length_app, length_remove. cbn [length].
  destruct (OrderedDict.lookup k (LRUCache.cache c)) eqn:E.
  - destruct (LRUCache.cache c); [discriminate E|cbn; lia].
  - lia.
Qed.

Lemma maxsize_step (call : lru_call) (c : LRUCache.t) :
  LRUCache.maxsize (lru_step call c) = LRUCache.maxsize c.
Proof.
  destruct call as [k|k v|k|]; cbn.
  - unfold LRUCache.get. destruct (OrderedDict.get k (LRUCache.cache c)); reflexivity.
  - unfold LRUCache.set. destruct (LRUCache.over_limit _ c); reflexivity.
  - unfold LRUCache.delete. destruct (OrderedDict.lookup k (LRUCache.cache c)); reflexivity.
  - reflexivity.
Qed.

Lemma length_move_to_end (k : string) (d : OrderedDict.t) :
  length (OrderedDict.move_to_end k d) = length d.
Proof.
  unfold OrderedDict.move_to_end.
  destruct (OrderedDict.lookup k d) eqn:E; [|reflexivity].
  rewrite length_app, length_remove, E. cbn.
  destruct d; [discriminate E|cbn; lia].
Qed.

Lemma length_get (k : string) (c : LRUCache.t) :
  length (LRUCache.cache (snd (LRUCache.get k c))) = length (LRUCache.cache c).
Proof.
  unfold LRUCache.get.
  destruct (OrderedDict.get k (LRUCache.cache c)); cbn [snd LRUCache.cache];
    try reflexivity; apply length_move_to_end.
Qed.

Lemma length_delete (k : string) (c : LRUCache.t) :
  (length (LRUCache.cache (snd (LRUCache.delete k c)))
   <= length (LRUCache.cache c))%nat.
Proof.
  unfold LRUCache.delete.
  destruct (OrderedDict.lookup k (LRUCache.cache c)) eqn:E;
    cbn [snd LRUCache.cache]; [|lia].
  rewrite length_remove, E. lia.
Qed.

Lemma length_popped {A : Type} (l : list A) : length (tail l) = pred (length l).
Proof. destruct l; reflexivity. Qed.

(** What one call does to the size and to the counters. *)
Lemma lru_step_counts (call : lru_call) (c : LRUCache.t) :
  let c' := lru_step call c in
  let n := Z.of_nat (length (LRUCache.cache c)) in
  let n' := Z.of_nat (length (LRUCache.cache c')) in
  let s := LRUCache.stats c in
  let s' := LRUCache.stats c' in
  LRUCache.hits s' + LRUCache.misses s'
    = LRUCache.hits s + LRUCache.misses s + (if is_get call then 1 else 0) /\
  LRUCache.sets s' = LRUCache.sets s + (if is_set call then 1 else 0) /\
  LRUCache.hits s <= LRUCache.hits s' /\
  LRUCache.misses s <= LRUCache.misses s' /\
  LRUCache.evictions s <= LRUCache.evictions s' /\
  n' + LRUCache.evictions s'
    <= n + LRUCache.evictions s + (if is_set call then 1 else 0) /\
  (n <= Z.max 0 (LRUCache.maxsize c) -> n' <= Z.max 0 (LRUCache.maxsize c)).
Proof.
  destruct call as [k|k v|k|]; cbn zeta; cbn [lru_step is_get is_set].
  - pose proof (length_get k c) as Hlen. rewrite Hlen.
    unfold LRUCache.get.
    destruct (OrderedDict.get k (LRUCache.cache c));
      cbn [snd LRUCache.stats LRUCache.hits LRUCache.misses LRUCache.sets
           LRUCache.evictions]; repeat split; lia.
  - pose proof (length_placed k v c) as Hlen.
    unfold LRUCache.set, LRUCache.over_limit.
    destruct (Z.ltb_spec (LRUCache.maxsize c)
                (Z.of_nat (length (LRUCache.placed k v c)))) as [Hover|Hfit];
      cbn [LRUCache.cache LRUCache.stats LRUCache.hits LRUCache.misses
           LRUCache.sets LRUCache.evictions];
      [unfold OrderedDict.popitem_first; rewrite length_popped|];
      destruct (OrderedDict.lookup k (LRUCache.cache c));
      repeat split; lia.
  - pose proof (length_delete k c) as Hlen.
    assert (Hst : LRUCache.stats (snd (LRUCache.delete k c)) = LRUCache.stats c).
    { unfold LRUCache.delete.
      destruct (OrderedDict.lookup k (LRUCache.cache c)); reflexivity. }
    rewrite Hst. repeat split; lia.
  - cbn. repeat split; lia.
Qed.

Lemma lru_run_snoc (calls : list lru_call) (call : lru_call) (c : LRUCache.t) :
  lru_run (calls ++ [call]) c = lru_step call (lru_run calls c).
Proof. unfold lru_run. rewrite fold_left_app. reflexivity. Qed.

Lemma count_snoc (p : lru_call -> bool) (calls : list lru_call) (call : lru_call) :
  count p (calls ++ [call]) = count p calls + (if p call then 1 else 0).
Proof.
  unfold count. rewrite List.filter_app, length_app. cbn [List.filter].
  destruct (p call); cbn [length]; lia.
Qed.

Lemma maxsize_run (calls : list lru_call) (c : LRUCache.t) :
  LRUCache.maxsize (lru_run calls c) = LRUCache.maxsize c.
Proof.
  induction calls as [|call calls IH] using rev_ind; [reflexivity|].
  rewrite lru_run_snoc, maxsize_step. exact IH.
Qed.

Lemma length_run (N : Z) (calls : list lru_call) :
  Z.of_nat (length (LRUCache.cache (lru_run calls (LRUCache.new N))))
  <= Z.max 0 N.
Proof.
  induction calls as [|call calls IH] using rev_ind; [cbn; lia|].
  rewrite lru_run_snoc.
  pose proof (lru_step_counts call (lru_run calls (LRUCache.new N))) as H.
  cbn zeta in H. destruct H as (_ & _ & _ & _ & _ & _ & H).
  rewrite maxsize_run in H. cbn [LRUCache.new LRUCache.maxsize] in H.
  apply H, IH.
Qed.

(** X10. The LRU never holds more entries than its maximum size (none at
    all when the maximum size is zero or negative), after any sequence of
    get, set, delete and clear calls on a new cache. *)
Theorem lru_size_bounded (N : Z) (calls : list lru_call) :
  LRUCache.size (lru_run calls (LRUCache.new N)) <= Z.max 0 N.
Proof.
  unfold LRUCache.size. apply length_run.
Qed.

(** X11. The counters of the LRU add up after any sequence of calls on a
    new cache: hits plus misses is the number of gets, [sets] is the
    number of sets, no counter is negative, and the entries held plus the
    evictions never exceed the sets. *)
Theorem lru_stats_account (N : Z) (calls : list lru_call) :
  let c := lru_run calls (LRUCache.new N) in
  let s := LRUCache.get_stats c in
  LRUCache.hits s + LRUCache.misses s = count is_get calls /\
  LRUCache.sets s = count is_set calls /\
  0 <= LRUCache.hits s /\ 0 <= LRUCache.misses s /\
  0 <= LRUCache.evictions s /\
  LRUCache.size c + LRUCache.evictions s <= LRUCache.sets s.
Proof.
  cbn zeta. unfold LRUCache.get_stats, LRUCache.size.
  induction calls as [|call calls IH] using rev_ind.
  - cbn. repeat split; lia.
  - rewrite lru_run_snoc, !count_snoc.
    pose proof (lru_step_counts call (lru_run calls (LRUCache.new N))) as H.
    cbn zeta in H.
    destruct H as (H1 & H2 & H3 & H4 & H5 & H6 & _).
    destruct IH as (I1 & I2 & I3 & I4 & I5 & I6).
    repeat split; try lia.
Qed.

End LRUCalls.

(** ** The ordered dictionary *)

Section OrderedDictFacts.
Import Python.

Lemma lookup_In (k : string) (d : OrderedDict.t) :
  OrderedDict.lookup k d <> None <-> In k (OrderedDict.keys d).
Proof.
  induction d as [|[k' v'] d IH]; cbn; [tauto|].
  destruct (String.eqb_spec k k') as [->|Hne].
  - split; [intros _; left; reflexivity|discriminate].
  - rewrite IH. split; [tauto|]. intros [H|H]; [congruence|exact H].
Qed.

Lemma nodup_remove (k : string) (d : OrderedDict.t) :
  List.NoDup (OrderedDict.keys d) ->
  List.NoDup (OrderedDict.keys (OrderedDict.remove k d)).
Proof.
  induction d as [|[k' v'] d IH]; cbn; intros Hnd; [exact Hnd|].
  apply List.NoDup_cons_iff in Hnd as [Hk Hnd].
  destruct (String.eqb k k'); [exact Hnd|].
  cbn. apply List.NoDup_cons_iff. split; [|apply IH, Hnd].
  intros Hin. apply Hk. exact (keys_remove_incl _ _ _ Hin).
Qed.

Lemma keys_app (d1 d2 : OrderedDict.t) :
  OrderedDict.keys (d1 ++ d2) = OrderedDict.keys d1 ++ OrderedDict.keys d2.
Proof. unfold OrderedDict.keys. apply List.map_app. Qed.

Lemma nodup_snoc (k : string) (v : pyval) (d : OrderedDict.t) :
  List.NoDup (OrderedDict.keys d) -> ~ In k (OrderedDict.keys d) ->
  List.NoDup (OrderedDict.keys (d ++ [(k, v)])).
Proof.
  intros Hnd Hk. rewrite keys_app. cbn.
  apply List.NoDup_app.
  - exact Hnd.
  - apply List.NoDup_cons; [intros []|apply List.NoDup_nil].
  - intros x Hx [Hx'|[]]. subst x. exact (Hk Hx).
Qed.

Lemma nodup_placed (k : string) (v : pyval) (c : LRUCache.t) :
  List.NoDup (OrderedDict.keys (LRUCache.cache c)) ->
  List.NoDup (OrderedDict.keys (LRUCache.placed k v c)).
Proof.
  intros Hnd. rewrite placed_eq.
  apply nodup_snoc; [apply nodup_remove, Hnd|apply remove_absent, Hnd].
Qed.

Lemma nodup_tail (d : OrderedDict.t) :
  List.NoDup (OrderedDict.keys d) -> List.NoDup (OrderedDict.keys (tail d)).
Proof.
  destruct d as [|x d]; cbn; intros H; [exact H|].
  apply List.NoDup_cons_iff in H. tauto.
Qed.

Lemma nodup_move_to_end (k : string) (d : OrderedDict.t) :
  List.NoDup (OrderedDict.keys d) ->
  List.NoDup (OrderedDict.keys (OrderedDict.move_to_end k d)).
Proof.
  intros Hnd. unfold OrderedDict.move_to_end.
  destruct (OrderedDict.lookup k d); [|exact Hnd].
  apply nodup_snoc; [apply nodup_remove, Hnd|apply remove_absent, Hnd].
Qed.

Lemma nodup_set (k : string) (v : pyval) (c : LRUCache.t) :
  List.NoDup (OrderedDict.keys (LRUCache.cache c)) ->
  List.NoDup (OrderedDict.keys (LRUCache.cache (LRUCache.set k v c))).
Proof.
  intros Hnd. pose proof (nodup_placed k v c Hnd) as Hp.
  unfold LRUCache.set. destruct (LRUCache.over_limit _ c); cbn [LRUCache.cache].
  - apply nodup_tail, Hp.
  - exact Hp.
Qed.

Lemma nodup_get (k : string) (c : LRUCache.t) :
  List.NoDup (OrderedDict.keys (LRUCache.cache c)) ->
  List.NoDup (OrderedDict.keys (LRUCache.cache (snd (LRUCache.get k c)))).
Proof.
  intros Hnd. unfold LRUCache.get.
  destruct (OrderedDict.get k (LRUCache.cache c)); cbn [snd LRUCache.cache];
    try exact Hnd; apply nodup_move_to_end, Hnd.
Qed.

Lemma nodup_delete (k : string) (c : LRUCache.t) :
  List.NoDup (OrderedDict.keys (LRUCache.cache c)) ->
  List.NoDup (OrderedDict.keys (LRUCache.cache (snd (LRUCache.delete k c)))).
Proof.
  intros Hnd. unfold LRUCache.delete.
  destruct (OrderedDict.lookup k (LRUCache.cache c)); cbn [snd LRUCache.cache];
    [apply nodup_remove, Hnd|exact Hnd].
Qed.

Lemma nodup_run (calls : list lru_call) (c : LRUCache.t) :
  List.NoDup (OrderedDict.keys (LRUCache.cache c)) ->
  List.NoDup (OrderedDict.keys (LRUCache.cache (lru_run calls c))).
Proof.
  revert c. induction calls as [|call calls IH]; intros c Hnd; [exact Hnd|].
  cbn. apply IH. destruct call as [k|k v|k|]; cbn [lru_step].
  - apply nodup_get, Hnd.
  - apply nodup_set, Hnd.
  - apply nodup_delete, Hnd.
  - apply List.NoDup_nil.
Qed.

Lemma lookup_remove_same (k : string) (d : OrderedDict.t) :
  List.NoDup (OrderedDict.keys d) ->
  OrderedDict.lookup k (OrderedDict.remove k d) = None.
Proof.
  intros Hnd. pose proof (remove_absent k d Hnd) as Habs.
  destruct (OrderedDict.lookup k (OrderedDict.remove k d)) eqn:E; [|reflexivity].
  exfalso. apply Habs. apply lookup_In. rewrite E. discriminate.
Qed.

Lemma lookup_remove_other (k k' : string) (d : OrderedDict.t) :
  k' <> k ->
  OrderedDict.lookup k' (OrderedDict.remove k d) = OrderedDict.lookup k' d.
Proof.
  intros Hne. induction d as [|[k0 v0] d IH]; cbn; [reflexivity|].
  destruct (String.eqb_spec k k0) as [->|Hk].
  - destruct (String.eqb_spec k' k0); [congruence|reflexivity].
  - cbn. destruct (String.eqb k' k0); [reflexivity|exact IH].
Qed.

Lemma lru_get_fst (k : string) (c : LRUCache.t) :
  fst (LRUCache.get k c) = OrderedDict.get k (LRUCache.cache c).
Proof.
  unfold LRUCache.get. destruct (OrderedDict.get k (LRUCache.cache c)); reflexivity.
Qed.

(** With room for at least one entry, the entry [set] places is there
    afterwards. *)
Lemma lru_set_lookup (k : string) (v : pyval) (c : LRUCache.t) :
  List.NoDup (OrderedDict.keys (LRUCache.cache c)) ->
  1 <= LRUCache.maxsize c ->
  OrderedDict.lookup k (LRUCache.cache (LRUCache.set k v c)) = Some v.
Proof.
  intros Hnd Hmax.
  pose proof (remove_absent k _ Hnd) as Habs.
  unfold LRUCache.set, LRUCache.over_limit. rewrite placed_eq.
  destruct (Z.ltb_spec (LRUCache.maxsize c)
              (Z.of_nat (length (OrderedDict.remove k (LRUCache.cache c)
                                 ++ [(k, v)])))) as [Hover|Hfit];
    cbn [LRUCache.cache]; [|apply lookup_app_absent, Habs].
  destruct (OrderedDict.remove k (LRUCache.cache c)) as [|[k0 v0] r] eqn:Er.
  - cbn in Hover. lia.
  - cbn [app OrderedDict.popitem_first tail].
    apply lookup_app_absent. intros Hin. apply Habs. cbn. right. exact Hin.
Qed.

End OrderedDictFacts.

(** ** Round trips through the LRU *)

Section LRURoundTrips.
Import Python.

(** X12. Set then get. On a cache reached from a new one of maximum size
    N, [get(k)] right after [set(k, v)] returns [v] when N >= 1; with
    N <= 0 the entry is evicted at once and the get returns [None]. *)
Theorem lru_set_then_get (N : Z) (calls : list lru_call) (k : string) (v : pyval) :
  let c := lru_run calls (LRUCache.new N) in
  fst (LRUCache.get k (LRUCache.set k v c)) = if 1 <=? N then v else PNone.
Proof.
  cbn zeta. rewrite lru_get_fst.
  assert (Hnd : List.NoDup (OrderedDict.keys
                              (LRUCache.cache (lru_run calls (LRUCache.new N))))).
  { apply nodup_run. apply List.NoDup_nil. }
  destruct (Z.leb_spec 1 N) as [Hmax|Hmax].
  - unfold OrderedDict.get. rewrite lru_set_lookup; [reflexivity|exact Hnd|].
    rewrite maxsize_run. exact Hmax.
  - pose proof (length_run N calls) as Hsize.
    destruct (LRUCache.cache (lru_run calls (LRUCache.new N))) as [|x d] eqn:Ec;
      [|cbn [length] in Hsize; lia].
    unfold LRUCache.set, LRUCache.over_limit. rewrite placed_eq, Ec.
    rewrite maxsize_run. cbn [OrderedDict.remove app length LRUCache.new
                              LRUCache.maxsize].
    replace (N <? Z.of_nat 1) with true by (symmetry; apply Z.ltb_lt; lia).
    reflexivity.
Qed.

(** X13. [delete(k)] answers [True] exactly when the key was held;
    afterwards [get(k)] misses, every other key holds what it held, and
    the statistics are unchanged. *)
Theorem lru_delete_removes (N : Z) (calls : list lru_call) (k : string) :
  let c := lru_run calls (LRUCache.new N) in
  let r := LRUCache.delete k c in
  (fst r = true <-> In k (OrderedDict.keys (LRUCache.cache c))) /\
  fst (LRUCache.get k (snd r)) = PNone /\
  (forall k', k' <> k ->
     OrderedDict.lookup k' (LRUCache.cache (snd r))
     = OrderedDict.lookup k' (LRUCache.cache c)) /\
  LRUCache.get_stats (snd r) = LRUCache.get_stats c.
Proof.
  cbn zeta.
  assert (Hnd : List.NoDup (OrderedDict.keys
                              (LRUCache.cache (lru_run calls (LRUCache.new N))))).
  { apply nodup_run. apply List.NoDup_nil. }
  set (c := lru_run calls (LRUCache.new N)) in *.
  rewrite lru_get_fst. unfold LRUCache.delete, OrderedDict.get.
  pose proof (lookup_In k (LRUCache.cache c)) as HIn.
  destruct (OrderedDict.lookup k (LRUCache.cache c)) as [v|] eqn:E;
    cbn [fst snd LRUCache.cache].
  - split; [split; [intros _; apply HIn; discriminate|reflexivity]|].
    split; [rewrite lookup_remove_same by exact Hnd; reflexivity|].
    split; [|reflexivity].
    intros k' Hne. apply lookup_remove_other, Hne.
  - split; [split; [discriminate|intros Hin; apply HIn in Hin; congruence]|].
    split; [rewrite E; reflexivity|]. split; reflexivity.
Qed.

End LRURoundTrips.

(** ** The two cache tiers *)

Section CacheManagerProperties.
Import Python Redis.

Lemma json_round_trip (v : pyval) :
  CacheManager.reply_truthy (CacheManager.json_dumps v) = true /\
  CacheManager.json_loads (CacheManager.json_dumps v) = Ok v.
Proof. destruct v; split; reflexivity. Qed.

(** A lookup the LRU answers: the value comes back and the shared store
    is not contacted. *)
Lemma cache_get_lru_hit (key svc : string) (m : CacheManager.t) (v : pyval) :
  OrderedDict.get key (LRUCache.cache (CacheManager.hot_cache m)) = v ->
  v <> PNone ->
  fst (CacheManager.get key svc m) = v /\
  CacheManager.redis (snd (CacheManager.get key svc m)) = CacheManager.redis m.
Proof.
  intros Hv Hnn. unfold CacheManager.get.
  pose proof (lru_get_fst key (CacheManager.hot_cache m)) as Hf.
  destruct (LRUCache.get key (CacheManager.hot_cache m)) as [result lru].
  cbn [fst] in Hf. rewrite Hv in Hf. subst result.
  destruct v; try (split; reflexivity). congruence.
Qed.

(** A lookup the LRU misses goes to the shared store. *)
Lemma cache_get_lru_miss (key svc : string) (m : CacheManager.t) :
  OrderedDict.get key (LRUCache.cache (CacheManager.hot_cache m)) = PNone ->
  CacheManager.get key svc m
  = match CacheManager.redis_lookup key
            {| CacheManager.hot_cache := snd (LRUCache.get key (CacheManager.hot_cache m));
               CacheManager.redis := CacheManager.redis m |} with
    | (Ok (Some data), m2) => (data, m2)
    | (_, m2) => (PNone, m2)
    end.
Proof.
  intros Hv. unfold CacheManager.get.
  pose proof (lru_get_fst key (CacheManager.hot_cache m)) as Hf.
  destruct (LRUCache.get key (CacheManager.hot_cache m)) as [result lru].
  cbn [fst snd] in *. rewrite Hv in Hf. subst result. reflexivity.
Qed.

(** X14. Promotion. A value found only in the shared store is returned and
    placed in the LRU: the next lookup of the key returns it without
    contacting the store, whatever the store then holds. *)
Theorem store_hit_promoted (key svc : string) (m : CacheManager.t) (v : pyval) :
  List.NoDup (OrderedDict.keys (LRUCache.cache (CacheManager.hot_cache m))) ->
  1 <= LRUCache.maxsize (CacheManager.hot_cache m) ->
  OrderedDict.get key (LRUCache.cache (CacheManager.hot_cache m)) = PNone ->
  hd false (faults (CacheManager.redis m)) = false ->
  kv (CacheManager.redis m) !! CacheManager.redis_key key
  = Some (CacheManager.json_dumps v) ->
  v <> PNone ->
  let m1 := snd (CacheManager.get key svc m) in
  fst (CacheManager.get key svc m) = v /\
  forall (st : Store) (svc' : string),
    let m2 := {| CacheManager.hot_cache := CacheManager.hot_cache m1;
                 CacheManager.redis := st |} in
    fst (CacheManager.get key svc' m2) = v /\
    CacheManager.redis (snd (CacheManager.get key svc' m2)) = st.
Proof.
  intros Hnd Hmax Hmiss Hup Hkv Hnn. cbn zeta.
  rewrite (cache_get_lru_miss _ _ _ Hmiss).
  destruct (lru_get_none key _ Hmiss) as (_ & Hcache & Hsize & _).
  unfold CacheManager.redis_lookup. cbn [CacheManager.redis CacheManager.hot_cache].
  rewrite (get_up _ _ Hup), Hkv.
  destruct (json_round_trip v) as [-> ->]. cbn [fst snd].
  split; [reflexivity|].
  intros st svc'. apply cache_get_lru_hit; [|exact Hnn].
  cbn [CacheManager.hot_cache]. unfold OrderedDict.get.
  rewrite lru_set_lookup; [reflexivity| |].
  - rewrite Hcache. exact Hnd.
  - rewrite Hsize. exact Hmax.
Qed.

(** A report another process cached is found in the store, and then
    served from the LRU when the store is empty and unreachable. *)
Lemma store_hit_promoted_witness :
  fst (CacheManager.get "k" "reporting" cold_manager) = PList [PInt 7] /\
  fst (CacheManager.get "k" "reporting"
         {| CacheManager.hot_cache :=
              CacheManager.hot_cache
                (snd (CacheManager.get "k" "reporting" cold_manager));
            CacheManager.redis := {| kv := ∅; ttl := ∅; faults := [true] |} |})
  = PList [PInt 7].
Proof.
  destruct (store_hit_promoted "k" "reporting" cold_manager (PList [PInt 7]))
    as [H1 H2]; try reflexivity.
  - apply List.NoDup_nil.
  - vm_compute. discriminate.
  - discriminate.
  - split; [exact H1|].
    apply (H2 {| kv := ∅; ttl := ∅; faults := [true] |} "reporting").
Defined.

(** X15. After [set(key, v)] with [v] not [None], a lookup returns [v] from
    the LRU without contacting the store, even if the write to the store
    failed; when the store was reachable it holds the JSON of [v] under
    [cache:key] with the explicit TTL if one (positive) was given, else
    the TTL of the service type, else 300 seconds. *)
Theorem cache_set_then_get (key svc svc' : string) (v : pyval) (n : option Z)
    (m : CacheManager.t) :
  List.NoDup (OrderedDict.keys (LRUCache.cache (CacheManager.hot_cache m))) ->
  1 <= LRUCache.maxsize (CacheManager.hot_cache m) ->
  v <> PNone ->
  let m1 := CacheManager.set key v svc n m in
  fst (CacheManager.get key svc' m1) = v /\
  CacheManager.redis (snd (CacheManager.get key svc' m1)) = CacheManager.redis m1 /\
  (hd false (faults (CacheManager.redis m)) = false ->
   (forall seconds, n = Some seconds -> 0 < seconds) ->
   kv (CacheManager.redis m1) !! CacheManager.redis_key key
   = Some (CacheManager.json_dumps v) /\
   ttl (CacheManager.redis m1) !! CacheManager.redis_key key
   = Some match n with
          | Some seconds => seconds
          | None => Errors.dict_get CacheManager.TTL_BY_SERVICE svc 300
          end).
Proof.
  intros Hnd Hmax Hnn. cbn zeta.
  assert (Hhit := cache_get_lru_hit key svc' (CacheManager.set key v svc n m) v).
  destruct Hhit as [H1 H2]; [|exact Hnn|].
  { unfold CacheManager.set. cbn [CacheManager.hot_cache]. unfold OrderedDict.get.
    rewrite lru_set_lookup by assumption. reflexivity. }
  split; [exact H1|]. split; [exact H2|].
  intros Hup _. unfold CacheManager.set. cbn [CacheManager.redis].
  unfold setex, bind, round_trip. rewrite Hup. cbn [snd kv ttl advance].
  split; apply lookup_insert_eq.
Qed.

(** An empty list is cached during an outage and read back. *)
Lemma cache_set_then_get_witness :
  fst (CacheManager.get "q" "reporting"
         (CacheManager.set "q" (PList []) "campaign" None warm_manager_outage))
  = PList [].
Proof.
  destruct (cache_set_then_get "q" "campaign" "reporting" (PList []) None
              warm_manager_outage) as [H _].
  - vm_compute. apply List.NoDup_cons; [intros []|apply List.NoDup_nil].
  - vm_compute. discriminate.
  - discriminate.
  - exact H.
Defined.

(** X16. With the store reachable, [delete(key)] clears both tiers: the
    next lookup of the key returns [None]. *)
Theorem cache_delete_clears (key svc : string) (m : CacheManager.t) :
  List.NoDup (OrderedDict.keys (LRUCache.cache (CacheManager.hot_cache m))) ->
  up 2 (CacheManager.redis m) = true ->
  fst (CacheManager.get key svc (CacheManager.delete key m)) = PNone.
Proof.
  intros Hnd Hup.
  apply up_S in Hup as [H1 Hup]. apply up_S in Hup as [H2 _].
  assert (Hmiss : OrderedDict.get key
                    (LRUCache.cache (CacheManager.hot_cache (CacheManager.delete key m)))
                  = PNone).
  { unfold CacheManager.delete, LRUCache.delete. cbn [CacheManager.hot_cache].
    unfold OrderedDict.get.
    destruct (OrderedDict.lookup key (LRUCache.cache (CacheManager.hot_cache m)))
      eqn:E; cbn [snd LRUCache.cache].
    - rewrite lookup_remove_same by exact Hnd. reflexivity.
    - rewrite E. reflexivity. }
  rewrite (cache_get_lru_miss _ _ _ Hmiss).
  unfold CacheManager.redis_lookup, CacheManager.delete.
  cbn [CacheManager.redis CacheManager.hot_cache].
  unfold delete at 1, bind, round_trip. rewrite H1. cbn [snd].
  rewrite get_up by (cbn [faults advance]; exact H2).
  cbn [kv advance]. rewrite lookup_delete_eq. reflexivity.
Qed.

(** A promoted report is deleted and is gone. *)
Lemma cache_delete_clears_witness :
  fst (CacheManager.get "k" "reporting"
         (CacheManager.delete "k"
            (snd (CacheManager.get "k" "reporting" cold_manager)))) = PNone.
Proof.
  apply cache_delete_clears; [|reflexivity].
  vm_compute. apply List.NoDup_cons; [intros []|apply List.NoDup_nil].
Defined.

(** X17. A [delete(key)] made while the store is unreachable removes the
    LRU entry only: once the store answers again, a lookup returns the
    value the store still holds. *)
Theorem cache_delete_outage_stale (key svc : string) (m : CacheManager.t)
    (v : pyval) :
  List.NoDup (OrderedDict.keys (LRUCache.cache (CacheManager.hot_cache m))) ->
  hd false (faults (CacheManager.redis m)) = true ->
  hd false (tail (faults (CacheManager.redis m))) = false ->
  kv (CacheManager.redis m) !! CacheManager.redis_key key
  = Some (CacheManager.json_dumps v) ->
  fst (CacheManager.get key svc (CacheManager.delete key m)) = v.
Proof.
  intros Hnd Hdown Hup Hkv.
  assert (Hmiss : OrderedDict.get key
                    (LRUCache.cache (CacheManager.hot_cache (CacheManager.delete key m)))
                  = PNone).
  { unfold CacheManager.delete, LRUCache.delete. cbn [CacheManager.hot_cache].
    unfold OrderedDict.get.
    destruct (OrderedDict.lookup key (LRUCache.cache (CacheManager.hot_cache m)))
      eqn:E; cbn [snd LRUCache.cache].
    - rewrite lookup_remove_same by exact Hnd. reflexivity.
    - rewrite E. reflexivity. }
  rewrite (cache_get_lru_miss _ _ _ Hmiss).
  unfold CacheManager.redis_lookup, CacheManager.delete.
  cbn [CacheManager.redis CacheManager.hot_cache].
  unfold delete at 1, bind, round_trip. rewrite Hdown. cbn [snd].
  rewrite get_up by (cbn [faults advance]; exact Hup).
  cbn [kv advance]. rewrite Hkv.
  destruct (json_round_trip v) as [-> ->]. reflexivity.
Qed.

(** A report deleted during an outage comes back from the store. *)
Lemma cache_delete_outage_stale_witness :
  fst (CacheManager.get "k" "reporting"
         (CacheManager.delete "k" warm_manager_outage)) = PList [PInt 7].
Proof.
  apply cache_delete_outage_stale; try reflexivity.
  vm_compute. apply List.NoDup_cons; [intros []|apply List.NoDup_nil].
Defined.

End CacheManagerProperties.

(** ** Order of strings *)

Section StringOrder.

Lemma ascii_compare_trans (c : comparison) (a b d : ascii) :
  Ascii.compare a b = c -> Ascii.compare b d = c -> Ascii.compare a d = c.
Proof.
  unfold Ascii.compare. destruct c; intros H1 H2.
  - apply N.compare_eq_iff in H1. apply N.compare_eq_iff in H2.
    apply N.compare_eq_iff. congruence.
  - apply N.compare_lt_iff in H1. apply N.compare_lt_iff in H2.
    apply N.compare_lt_iff. exact (N.lt_trans _ _ _ H1 H2).
  - apply N.compare_gt_iff in H1. apply N.compare_gt_iff in H2.
    apply N.compare_gt_iff. exact (N.lt_trans _ _ _ H2 H1).
Qed.

Lemma string_compare_lt_trans (s1 : string) : forall s2 s3,
  String.compare s1 s2 = Lt -> String.compare s2 s3 = Lt ->
  String.compare s1 s3 = Lt.
Proof.
  induction s1 as [|a s1 IH]; intros [|b s2] [|d s3]; cbn;
    try discriminate; try reflexivity.
  destruct (Ascii.compare a b) eqn:Eab; try discriminate;
    destruct (Ascii.compare b d) eqn:Ebd; try discriminate; intros H1 H2.
  - apply Ascii.compare_eq_iff in Eab, Ebd. subst b d.
    replace (Ascii.compare a a) with Eq
      by (symmetry; unfold Ascii.compare; apply N.compare_refl).
    exact (IH _ _ H1 H2).
  - apply Ascii.compare_eq_iff in Eab. subst b. rewrite Ebd. reflexivity.
  - apply Ascii.compare_eq_iff in Ebd. subst d. rewrite Eab. reflexivity.
  - rewrite (ascii_compare_trans Lt a b d Eab Ebd). reflexivity.
Qed.

Lemma string_compare_refl (s : string) : String.compare s s = Eq.
Proof.
  induction s as [|a s IH]; cbn; [reflexivity|].
  replace (Ascii.compare a a) with Eq
    by (symmetry; unfold Ascii.compare; apply N.compare_refl).
  exact IH.
Qed.

Lemma string_leb_trans (s1 s2 s3 : string) :
  String.leb s1 s2 = true -> String.leb s2 s3 = true -> String.leb s1 s3 = true.
Proof.
  unfold String.leb.
  destruct (String.compare s1 s2) eqn:E12; try discriminate;
    destruct (String.compare s2 s3) eqn:E23; try discriminate; intros _ _.
  - apply String.compare_eq_iff in E12, E23. subst.
    rewrite string_compare_refl. reflexivity.
  - apply String.compare_eq_iff in E12. subst. rewrite E23. reflexivity.
  - apply String.compare_eq_iff in E23. subst. rewrite E12. reflexivity.
  - rewrite (string_compare_lt_trans _ _ _ E12 E23). reflexivity.
Qed.

End StringOrder.

(** ** Sorted parameters *)

Section SortedParams.
Import CacheManager.

Lemma insert_sorted_perm (x : string * param) (l : list (string * param)) :
  Permutation (x :: l) (insert_sorted x l).
Proof.
  induction l as [|y l IH]; cbn; [reflexivity|].
  destruct (String.leb (fst x) (fst y)); [reflexivity|].
  transitivity (y :: x :: l); [apply perm_swap|].
  apply perm_skip, IH.
Qed.

Lemma sorted_perm (l : list (string * param)) : Permutation l (sorted l).
Proof.
  induction l as [|x l IH]; cbn; [reflexivity|].
  transitivity (x :: sorted l); [apply perm_skip, IH|apply insert_sorted_perm].
Qed.

Lemma insert_sorted_sorted (x : string * param) (l : list (string * param)) :
  StronglySorted key_leb l -> StronglySorted key_leb (insert_sorted x l).
Proof.
  induction l as [|y l IH]; cbn; intros Hs.
  - constructor; constructor.
  - destruct (String.leb (fst x) (fst y)) eqn:E.
    + constructor; [exact Hs|].
      apply StronglySorted_inv in Hs as [_ Hall].
      constructor; [exact E|].
      rewrite List.Forall_forall in Hall |- *. intros z Hz.
      exact (string_leb_trans _ _ _ E (Hall z Hz)).
    + apply StronglySorted_inv in Hs as [Hs Hall].
      constructor; [apply IH, Hs|].
      rewrite List.Forall_forall in Hall |- *. intros z Hz.
      apply (Permutation_in _ (Permutation_sym (insert_sorted_perm x l))) in Hz.
      destruct Hz as [<-|Hz]; [|exact (Hall z Hz)].
      unfold key_leb. destruct (String.leb_total (fst x) (fst y)); congruence.
Qed.

Lemma sorted_sorted (l : list (string * param)) : StronglySorted key_leb (sorted l).
Proof.
  induction l as [|x l IH]; cbn; [constructor|].
  apply insert_sorted_sorted, IH.
Qed.

(** A list of pairs with distinct keys has one sorted arrangement. *)
Lemma sorted_unique (l : list (string * param)) : forall l',
  StronglySorted key_leb l -> StronglySorted key_leb l' ->
  List.NoDup (map fst l) -> Permutation l l' -> l = l'.
Proof.
  induction l as [|a l IH]; intros l' Hs Hs' Hnd Hp.
  - apply Permutation_nil in Hp. congruence.
  - destruct l' as [|b l'];
      [apply Permutation_sym, Permutation_nil in Hp; discriminate Hp|].
    apply StronglySorted_inv in Hs as [Hs Hall].
    apply StronglySorted_inv in Hs' as [Hs' Hall'].
    rewrite List.Forall_forall in Hall, Hall'.
    cbn in Hnd. apply List.NoDup_cons_iff in Hnd as [Hka Hnd].
    assert (Hab : a = b).
    { assert (Ha : In a (b :: l')) by (apply (Permutation_in _ Hp); left; reflexivity).
      assert (Hb : In b (a :: l))
        by (apply (Permutation_in _ (Permutation_sym Hp)); left; reflexivity).
      destruct Ha as [Ha|Ha]; [congruence|].
      destruct Hb as [Hb|Hb]; [congruence|].
      exfalso. apply Hka.
      replace (fst a) with (fst b); [apply in_map, Hb|].
      apply String.leb_antisym; [exact (Hall' a Ha)|exact (Hall b Hb)]. }
    subst b. f_equal.
    apply IH; try assumption. exact (Permutation_cons_inv Hp).
Qed.

End SortedParams.

Section CacheKeyProperties.
Import CacheManager.

(** X18. The cache key does not depend on the order of the keyword
    parameters: two parameter lists with distinct names that are
    permutations of each other give the same key. *)
Theorem build_cache_key_order_free (client_id operation : string)
    (params params' : list (string * param)) :
  List.NoDup (map fst params) ->
  Permutation params params' ->
  build_cache_key client_id operation params
  = build_cache_key client_id operation params'.
Proof.
  intros Hnd Hp. unfold build_cache_key.
  replace (sorted params') with (sorted params); [reflexivity|].
  apply sorted_unique; try apply sorted_sorted.
  - apply (Permutation_NoDup (l := map fst params)); [|exact Hnd].
    apply Permutation_map, sorted_perm.
  - transitivity params; [apply Permutation_sym, sorted_perm|].
    transitivity params'; [exact Hp|apply sorted_perm].
Qed.

(** The two orders of the parameters of a GAQL key. *)
Lemma build_cache_key_order_free_witness :
  build_cache_key "c" "gaql" [ ("query", ParStr "Q"); ("page_size", ParInt 10) ]
  = build_cache_key "c" "gaql" [ ("page_size", ParInt 10); ("query", ParStr "Q") ].
Proof.
  apply build_cache_key_order_free.
  - repeat constructor; cbn; intuition discriminate.
  - apply perm_swap.
Defined.

End CacheKeyProperties.

(** ** Text of the GAQL cache key *)

Section DecimalText.

Lemma pretty_N_char_digit (n : N) : pretty_N_char n <> ":"%char.
Proof.
  unfold pretty_N_char.
  repeat match goal with
         | |- context [match ?p with _ => _ end] => destruct p
         end; discriminate.
Qed.

Lemma pretty_N_go_free (x : N) : forall s,
  free_of ":" s -> free_of ":" (pretty_N_go x s).
Proof.
  induction x as [x IH] using (well_founded_induction N.lt_wf_0).
  intros s Hs. destruct (N.eq_dec x 0%N) as [->|Hx].
  - rewrite pretty_N_go_0. exact Hs.
  - rewrite pretty_N_go_step by lia.
    apply IH.
    + apply N.div_lt; lia.
    + unfold free_of. cbn. intros [H|H]; [|exact (Hs H)].
      exact (pretty_N_char_digit _ H).
Qed.

Lemma pretty_Z_free (z : Z) : free_of ":" (pretty z).
Proof.
  assert (Hpos : forall p : positive, free_of ":" (pretty p)).
  { intros p. unfold pretty, pretty_positive, pretty, pretty_N.
    destruct (decide (N.pos p = 0%N)); [discriminate|].
    apply pretty_N_go_free. intros []. }
  destruct z as [|p|p]; unfold pretty, pretty_Z.
  - unfold free_of. cbn. intros [H|[]]. discriminate H.
  - apply Hpos.
  - unfold free_of. cbn. intros [H|H]; [discriminate H|]. exact (Hpos p H).
Qed.

(** Two texts that agree up to and after their first colon. *)
Lemma split_at_colon (a b : list ascii) : forall x y : list ascii,
  ~ In ":"%char a -> ~ In ":"%char b ->
  a ++ ":"%char :: x = b ++ ":"%char :: y -> a = b /\ x = y.
Proof.
  revert b. induction a as [|c a IH]; intros [|d b] x y Ha Hb H; cbn in H.
  - inversion H. split; reflexivity.
  - inversion H. subst d. exfalso. apply Hb. left. reflexivity.
  - inversion H. subst c. exfalso. apply Ha. left. reflexivity.
  - inversion H. subst d.
    destruct (IH b x y) as [-> ->]; try assumption.
    + intros Hin. apply Ha. right. exact Hin.
    + intros Hin. apply Hb. right. exact Hin.
    + split; reflexivity.
Qed.

End DecimalText.

Section GaqlKeys.
Import CacheManager GoogleAdsManager.

Lemma gaql_cache_key_text (request : GAQLRequest) :
  list_ascii_of_string (gaql_cache_key request)
  = list_ascii_of_string "client:" ++
    list_ascii_of_string (client_id request) ++
    ":"%char :: list_ascii_of_string "gaql:page_size=" ++
    list_ascii_of_string (pretty (page_size request)) ++
    ":"%char :: list_ascii_of_string "query=" ++
    list_ascii_of_string (query request).
Proof.
  assert (Hord : String.leb "query" "page_size" = false) by reflexivity.
  unfold gaql_cache_key, build_cache_key.
  cbn [sorted fold_right insert_sorted fst]. rewrite Hord.
  cbn -[pretty].
  match goal with
  | |- context [String.eqb ?X ""] =>
      replace (String.eqb X "") with false by reflexivity
  end.
  rewrite !list_ascii_app. rewrite <- !app_assoc. reflexivity.
Qed.

(** X19. For client ids that hold no colon, the cache key of a GAQL
    request determines the client, the query and the page size: two
    requests that differ in one of them never share a cached result. *)
Theorem gaql_cache_key_injective (r1 r2 : GAQLRequest) :
  free_of ":" (client_id r1) -> free_of ":" (client_id r2) ->
  gaql_cache_key r1 = gaql_cache_key r2 ->
  client_id r1 = client_id r2 /\ query r1 = query r2 /\
  page_size r1 = page_size r2.
Proof.
  intros H1 H2 Hk.
  apply (f_equal list_ascii_of_string) in Hk.
  rewrite !gaql_cache_key_text in Hk.
  apply app_inv_head in Hk.
  apply split_at_colon in Hk as [Hc Hk]; [|exact H1|exact H2].
  apply app_inv_head in Hk.
  apply split_at_colon in Hk as [Hp Hk]; [| apply pretty_Z_free..].
  apply app_inv_head in Hk.
  split; [exact (list_ascii_inj _ _ Hc)|].
  split; [exact (list_ascii_inj _ _ Hk)|].
  apply list_ascii_inj in Hp. exact (pretty_Z_inj _ _ Hp).
Qed.

(** Two requests with the same key, which differ only in fields the key
    does not cover. *)
Lemma gaql_cache_key_injective_witness :
  client_id request_one = client_id request_two /\
  query request_one = query request_two /\
  page_size request_one = page_size request_two.
Proof.
  apply gaql_cache_key_injective; [| |reflexivity];
    unfold free_of; cbn; intuition discriminate.
Defined.

End GaqlKeys.

(** ** Scheduler accounting and worker passes *)

Section SchedulerAccounting.
Import Python QuotaGovernor.
Variable Work : Type.
Variable St : Type.
Variable call : Work -> list pyval -> list (string * pyval) -> M St pyval.

(** X20. The priority [submit] computes lies between 0 and 100 (at least 1
    for BRONZE), does not grow with the urgency, is ordered GOLD <= SILVER
    <= BRONZE at equal urgency, and treats an urgency below 0 as 0 and one
    above 99 as 99. *)
Theorem compute_priority_monotone (tier : SLATier) (u1 u2 : Z) :
  let p := PriorityScheduler.compute_priority in
  0 <= p tier u1 <= 100 /\
  1 <= p BRONZE u1 /\
  (u1 <= u2 -> p tier u2 <= p tier u1) /\
  p GOLD u1 <= p SILVER u1 <= p BRONZE u1 /\
  (u1 <= 0 -> p tier u1 = p tier 0) /\
  (99 <= u1 -> p tier u1 = p tier 99).
Proof.
  cbn zeta. unfold PriorityScheduler.compute_priority.
  destruct tier; cbn [tier_value Errors.dict_get PriorityScheduler.SLA_WEIGHT
                      String.eqb Ascii.eqb Bool.eqb];
    repeat split; intros; Z.div_mod_to_equations; lia.
Qed.

Lemma accounted_step (ev : sched_event Work) (p : PriorityScheduler.t Work * St) :
  accounted (fst p) -> accounted (fst (sched_step Work St call ev p)).
Proof.
  destruct p as [s x]. unfold accounted. cbn [fst snd].
  intros (Hq & Ht & Hc & Hf).
  destruct ev as [f client tier urgency posargs kwds now| |]; cbn [sched_step fst snd].
  - unfold PriorityScheduler.submit.
    cbn [PriorityScheduler.stats PriorityScheduler.queue PriorityScheduler.submitted
         PriorityScheduler.completed PriorityScheduler.failed
         PriorityScheduler.by_tier length].
    destruct tier; cbn [tier_eqb]; repeat split; lia.
  - unfold PriorityScheduler.start.
    destruct (PriorityScheduler.running s);
      cbn [fst PriorityScheduler.stats PriorityScheduler.queue]; repeat split; lia.
  - unfold PriorityScheduler.worker_pass.
    destruct (negb (PriorityScheduler.running s)); [cbn [fst]; repeat split; lia|].
    destruct (PriorityScheduler.get (PriorityScheduler.queue s))
      as [[operation rest]|] eqn:Hg; [|cbn [fst]; repeat split; lia].
    apply get_spec in Hg as [Hp _]. apply Permutation_length in Hp.
    cbn [length] in Hp.
    destruct (PriorityScheduler.execute call operation x) as [[v|e] x'];
      cbn [fst PriorityScheduler.stats PriorityScheduler.queue
           PriorityScheduler.submitted PriorityScheduler.completed
           PriorityScheduler.failed PriorityScheduler.by_tier];
      repeat split; lia.
Qed.

Lemma sched_run_snoc (events : list (sched_event Work)) (ev : sched_event Work)
    (p : PriorityScheduler.t Work * St) :
  sched_run Work St call (events ++ [ev]) p
  = sched_step Work St call ev (sched_run Work St call events p).
Proof. unfold sched_run. rewrite fold_left_app. reflexivity. Qed.

(** X21. After any history of submissions, starts and completed worker
    passes on a new scheduler, the [pending] count of [get_stats] equals
    its [queue_size], [submitted] is the sum of the per-tier counts, and
    the completed and failed counts are not negative. *)
Theorem scheduler_pending_is_queue_size (n : Z) (x : St)
    (events : list (sched_event Work)) :
  let s := fst (sched_run Work St call events (PriorityScheduler.new n, x)) in
  let report := PriorityScheduler.get_stats s in
  Errors.dict_get report "pending" PNone
  = Errors.dict_get report "queue_size" PNone /\
  Errors.dict_get report "submitted" PNone
  = PInt (PriorityScheduler.by_tier (PriorityScheduler.stats s) GOLD
          + PriorityScheduler.by_tier (PriorityScheduler.stats s) SILVER
          + PriorityScheduler.by_tier (PriorityScheduler.stats s) BRONZE) /\
  0 <= PriorityScheduler.completed (PriorityScheduler.stats s) /\
  0 <= PriorityScheduler.failed (PriorityScheduler.stats s).
Proof.
  cbn zeta.
  assert (H : accounted
                (fst (sched_run Work St call events (PriorityScheduler.new n, x)))).
  { induction events as [|ev events IH] using rev_ind.
    - unfold accounted. cbn. repeat split; lia.
    - rewrite sched_run_snoc. apply accounted_step, IH. }
  destruct H as (Hq & Ht & Hc & Hf).
  cbn. rewrite Hq, Ht. repeat split; assumption.
Qed.

Lemma worker_pass_takes (s : PriorityScheduler.t Work) (x : St)
    (operation : PriorityScheduler.Operation Work)
    (rest : list (PriorityScheduler.Operation Work)) :
  PriorityScheduler.running s = true ->
  PriorityScheduler.get (PriorityScheduler.queue s) = Some (operation, rest) ->
  let p := PriorityScheduler.worker_pass call s x in
  PriorityScheduler.queue (fst p) = rest /\
  PriorityScheduler.running (fst p) = true /\
  snd p = snd (PriorityScheduler.execute call operation x) /\
  PriorityScheduler.completed (PriorityScheduler.stats (fst p))
  = PriorityScheduler.completed (PriorityScheduler.stats s)
    + (if raises Work St call operation x then 0 else 1) /\
  PriorityScheduler.failed (PriorityScheduler.stats (fst p))
  = PriorityScheduler.failed (PriorityScheduler.stats s)
    + (if raises Work St call operation x then 1 else 0).
Proof.
  intros Hrun Hg. cbn zeta. unfold PriorityScheduler.worker_pass, raises.
  rewrite Hrun, Hg. cbn [negb].
  destruct (PriorityScheduler.execute call operation x) as [[v|e] x'];
    cbn [fst snd PriorityScheduler.queue PriorityScheduler.stats
         PriorityScheduler.running PriorityScheduler.completed
         PriorityScheduler.failed];
    repeat split; try assumption; lia.
Qed.

Lemma worker_passes_drain (n : nat) : forall (s : PriorityScheduler.t Work) (x : St),
  PriorityScheduler.running s = true ->
  length (PriorityScheduler.queue s) = n ->
  let p := worker_passes Work St call n (s, x) in
  let order := PriorityScheduler.drain n (PriorityScheduler.queue s) in
  PriorityScheduler.queue (fst p) = [] /\
  snd p = run_all Work St call order x /\
  PriorityScheduler.completed (PriorityScheduler.stats (fst p))
  = PriorityScheduler.completed (PriorityScheduler.stats s)
    + returned Work St call order x /\
  PriorityScheduler.failed (PriorityScheduler.stats (fst p))
  = PriorityScheduler.failed (PriorityScheduler.stats s)
    + raised Work St call order x.
Proof.
  induction n as [|n IH]; intros s x Hrun Hlen; cbn zeta.
  - cbn [worker_passes fst snd PriorityScheduler.drain raised returned].
    destruct (PriorityScheduler.queue s); [|discriminate Hlen].
    repeat split; lia.
  - cbn [worker_passes fst snd PriorityScheduler.drain].
    destruct (PriorityScheduler.get (PriorityScheduler.queue s))
      as [[operation rest]|] eqn:Hg;
      [|destruct (PriorityScheduler.queue s); [discriminate Hlen|discriminate Hg]].
    pose proof (get_spec _ _ _ _ Hg) as [Hp _].
    apply Permutation_length in Hp. cbn [length] in Hp.
    destruct (worker_pass_takes s x operation rest Hrun Hg)
      as (Hq & Hr & Hx & Hc & Hf).
    destruct (PriorityScheduler.worker_pass call s x) as [s1 x1].
    cbn [fst snd] in Hq, Hr, Hx, Hc, Hf.
    destruct (IH s1 x1 Hr) as (H1 & H2 & H3 & H4); [rewrite Hq; lia|].
    cbn zeta in H1, H2, H3, H4. rewrite H1, H2, H3, H4, Hq, Hx, Hc, Hf.
    unfold run_all. cbn [fold_left raised returned].
    repeat split; lia.
Qed.

Lemma raised_returned (ops : list (PriorityScheduler.Operation Work)) :
  forall x : St,
    0 <= raised Work St call ops x /\
    0 <= returned Work St call ops x /\
    raised Work St call ops x + returned Work St call ops x
    = Z.of_nat (length ops).
Proof.
  induction ops as [|operation rest IH]; intros x; cbn [raised returned length].
  - repeat split; lia.
  - destruct (IH (snd (PriorityScheduler.execute call operation x)))
      as (H1 & H2 & H3).
    destruct (raises Work St call operation x); repeat split; lia.
Qed.

(** X22. On a running scheduler, as many worker passes as there are queued
    operations empty the queue; the operations run in ascending
    (priority, timestamp) order, each in the state the ones before it
    left; one that raises is counted failed and does not stop the
    others, one that returns is counted completed, and the two counts
    grow together by the number of operations. *)
Theorem workers_drain_in_order (s : PriorityScheduler.t Work) (x : St) :
  PriorityScheduler.running s = true ->
  let n := length (PriorityScheduler.queue s) in
  let p := worker_passes Work St call n (s, x) in
  let order := PriorityScheduler.dequeue_all (PriorityScheduler.queue s) in
  PriorityScheduler.queue (fst p) = [] /\
  snd p = run_all Work St call order x /\
  Permutation (PriorityScheduler.queue s) order /\
  StronglySorted key_le order /\
  PriorityScheduler.failed (PriorityScheduler.stats (fst p))
  = PriorityScheduler.failed (PriorityScheduler.stats s)
    + raised Work St call order x /\
  PriorityScheduler.completed (PriorityScheduler.stats (fst p))
  = PriorityScheduler.completed (PriorityScheduler.stats s)
    + returned Work St call order x /\
  PriorityScheduler.completed (PriorityScheduler.stats (fst p))
    + PriorityScheduler.failed (PriorityScheduler.stats (fst p))
  = PriorityScheduler.completed (PriorityScheduler.stats s)
    + PriorityScheduler.failed (PriorityScheduler.stats s) + Z.of_nat n.
Proof.
  intros Hrun. cbn zeta.
  destruct (worker_passes_drain (length (PriorityScheduler.queue s)) s x Hrun
              eq_refl) as (H1 & H2 & H3 & H4).
  destruct (drain_spec Work (length (PriorityScheduler.queue s))
              (PriorityScheduler.queue s) eq_refl) as [Hp Hs].
  cbn zeta in H3, H4.
  split; [exact H1|]. split; [exact H2|]. split; [exact Hp|].
  split; [exact Hs|]. split; [exact H4|]. split; [exact H3|].
  rewrite H3, H4.
  destruct (raised_returned
              (PriorityScheduler.dequeue_all (PriorityScheduler.queue s)) x)
    as (_ & _ & Hsum).
  unfold PriorityScheduler.dequeue_all in *.
  rewrite <- (Permutation_length Hp) in Hsum. lia.
Qed.

End SchedulerAccounting.

Section SchedulerDrainScenario.
Import Python QuotaGovernor.

(** Bronze/99 runs first, then Gold/50, which raises, then Silver/50:
    two operations completed and one failed. *)
Lemma workers_drain_in_order_witness :
  let p := worker_passes string (list string) log_call 3 (three_queued, []) in
  PriorityScheduler.queue (fst p) = [] /\
  snd p = [ "bronze-99"; "boom"; "silver-50" ] /\
  PriorityScheduler.failed (PriorityScheduler.stats (fst p)) = 1 /\
  PriorityScheduler.completed (PriorityScheduler.stats (fst p)) = 2.
Proof.
  pose proof (workers_drain_in_order string (list string) log_call
                three_queued [] eq_refl) as (H1 & H2 & _ & _ & H3 & H4 & _).
  cbn zeta. split; [exact H1|]. split; [exact H2|]. split; [exact H3|exact H4].
Defined.

End SchedulerDrainScenario.

(** ** Steps of a request on the store *)

Section StoreSteps.
Import Python Redis QuotaGovernor.

Lemma is_client_paused_snd (cid : string) (st : Store) :
  snd (is_client_paused cid st) = advance st.
Proof.
  unfold is_client_paused. pose proof (get_snd (paused_key cid) st) as H.
  destruct (get (paused_key cid) st) as [[[[z|v|s]|]|e] st']; cbn [snd] in *;
    try exact H.
  destruct z as [|p|p]; try exact H. destruct p; exact H.
Qed.




End StoreSteps.

(** ** Requests: charging, caching and refusals *)

Section RequestProperties.
Import Python Redis QuotaGovernor GoogleAdsManager.
Variable client : Client.





(** X24. A cache-enabled [execute_gaql] whose lookup answers returns the
    cached value and does nothing else: no stored data change (nothing is
    charged), no upstream call is made and the scheduler is not used. *)
Theorem execute_gaql_cache_hit (request : GAQLRequest) (urgency : Z)
    (w : World) (v : pyval) :
  cache_enabled request = true ->
  fst (CacheManager.get (gaql_cache_key request) (service_type request)
         (cache_manager w)) = v ->
  v <> PNone ->
  let r := execute_gaql client request urgency w in
  fst r = Ok v /\
  kv (redis (snd r)) = kv (redis w) /\
  upstream_calls (snd r) = upstream_calls w /\
  scheduler (snd r) = scheduler w.
Proof.
  intros Hce Hv Hnn. cbn zeta. unfold execute_gaql. rewrite Hce.
  destruct (cache_get_world (gaql_cache_key request)
              (service_type request) w) as (Hkv & Hup & Hs & _).
  destruct (CacheManager.get (gaql_cache_key request) (service_type request)
              (cache_manager w)) as [cached m].
  cbn [fst snd] in *. subst cached.
  destruct v; try congruence; cbn [fst snd]; auto.
Qed.



Lemma is_client_paused_not (cid : string) (st : Store) :
  kv st !! paused_key cid <> Some (RInt 1) ->
  fst (is_client_paused cid st) = false.
Proof.
  intros Hk. unfold is_client_paused, get, bind, round_trip.
  destruct (hd false (faults st)); [reflexivity|]. cbn [advance kv].
  destruct (kv st !! paused_key cid) as [[z|v|s]|]; try reflexivity.
  destruct z as [|p|p]; try reflexivity. destruct p; try reflexivity.
  congruence.
Qed.

(** X26. With the store reachable and the client not paused, an
    [execute_mutate] whose cost of 50 units per operation exceeds the
    global or the client's balance raises the QUOTA error [Insufficient
    quota for mutate operation] for that client, without an upstream call,
    without using the scheduler and without changing stored data. *)
Theorem short_balance_is_refused (request : MutateRequest) (urgency : Z)
    (w : World) (g c D : Z) :
  up 5 (redis w) = true ->
  kv (redis w) !! paused_key (mutate_client_id request) <> Some (RInt 1) ->
  int_or (kv (redis w) !! global_remaining_key) 0 = Ok g ->
  int_or (kv (redis w) !! client_remaining_key (mutate_client_id request)) 0
  = Ok c ->
  int_or (kv (redis w) !! global_daily_key) 1 = Ok D ->
  g < 50 * Z.of_nat (length (operations request)) \/
  c < 50 * Z.of_nat (length (operations request)) ->
  let r := execute_mutate client request urgency w in
  fst r = Raise (AdsError (Errors.mkQuotaExceededError
                             "Insufficient quota for mutate operation"
                             (Some (mutate_client_id request)))) /\
  upstream_calls (snd r) = upstream_calls w /\
  scheduler (snd r) = scheduler w /\
  kv (redis (snd r)) = kv (redis w).
Proof.
  intros Hup Hnp Hg Hc HD Hshort. cbn zeta. unfold execute_mutate.
  set (cid := mutate_client_id request) in *.
  set (units := 50 * Z.of_nat (length (operations request))) in *.
  pose proof (get_client_tier_snd cid (redis w)) as H1.
  destruct (get_client_tier cid (redis w)) as [tier st1].
  cbn [snd] in H1. subst st1.
  pose proof (is_client_paused_snd cid (advance (redis w))) as H2.
  pose proof (is_client_paused_not cid (advance (redis w)) Hnp) as Hp.
  destruct (is_client_paused cid (advance (redis w))) as [paused st2].
  cbn [fst snd] in H2, Hp. subst st2 paused.
  apply up_S in Hup as [_ Hup]. apply up_S in Hup as [_ Hup].
  pose proof (can_run_insufficient cid units g c D tier
                (advance (advance (redis w))) Hup Hg Hc HD Hshort) as Hno.
  pose proof (can_run_kv cid units tier (advance (advance (redis w)))) as Hkv.
  destruct (can_run cid units tier (advance (advance (redis w))))
    as [allowed st3].
  cbn [fst snd] in Hno, Hkv. subst allowed. cbn [negb fst snd].
  repeat split. cbn [with_redis redis]. exact Hkv.
Qed.

Lemma execute_mutate_cache (request : MutateRequest) (urgency : Z) (w : World) :
  let w1 := snd (execute_mutate client request urgency w) in
  hot_cache w1 = hot_cache w /\
  forall k, kv (redis w1) !! CacheManager.redis_key k
            = kv (redis w) !! CacheManager.redis_key k.
Proof.
  cbn zeta. unfold execute_mutate.
  pose proof (get_client_tier_kv (mutate_client_id request) (redis w)) as H1.
  destruct (get_client_tier (mutate_client_id request) (redis w)) as [tier st1].
  cbn [snd] in H1.
  pose proof (is_client_paused_kv (mutate_client_id request) st1) as H2.
  destruct (is_client_paused (mutate_client_id request) st1) as [paused st2].
  cbn [snd] in H2.
  destruct paused; [cbn; split; [reflexivity|intros k; congruence]|].
  pose proof (can_run_kv (mutate_client_id request)
                (50 * Z.of_nat (length (operations request))) tier st2) as H3.
  destruct (can_run (mutate_client_id request) _ tier st2) as [allowed st3].
  cbn [snd] in H3.
  destruct allowed; cbn [negb];
    [|cbn; split; [reflexivity|intros k; congruence]].
  match goal with
  | |- context [_execute_operation client ?c ?cid ?t ?u ?q ?w0] =>
      pose proof (execute_operation_cache client c cid t u q w0) as (Hh & _ & Hk)
  end.
  cbn [with_redis redis hot_cache] in Hh, Hk.
  split; [exact Hh|]. intros k. rewrite Hk. congruence.
Qed.

(** X27. A mutate does not touch the cache: whatever its outcome, the LRU
    and the cached entries of the store are as before, so a read held by
    the LRU is still answered with the value cached before the mutate,
    without an upstream call. *)
Theorem mutate_keeps_cached_reads (mutation : MutateRequest)
    (read : GAQLRequest) (urgency urgency' : Z) (w : World) (v : pyval) :
  cache_enabled read = true ->
  OrderedDict.get (gaql_cache_key read) (LRUCache.cache (hot_cache w)) = v ->
  v <> PNone ->
  let w1 := snd (execute_mutate client mutation urgency w) in
  hot_cache w1 = hot_cache w /\
  (forall k, kv (redis w1) !! CacheManager.redis_key k
             = kv (redis w) !! CacheManager.redis_key k) /\
  fst (execute_gaql client read urgency' w1) = Ok v /\
  upstream_calls (snd (execute_gaql client read urgency' w1))
  = upstream_calls w1.
Proof.
  intros Hce Hv Hnn. cbn zeta.
  destruct (execute_mutate_cache mutation urgency w) as [Hh Hk].
  split; [exact Hh|]. split; [exact Hk|].
  set (w1 := snd (execute_mutate client mutation urgency w)) in *.
  destruct (cache_get_lru_hit (gaql_cache_key read) (service_type read)
              (cache_manager w1) v) as [Hres _]; [|exact Hnn|].
  { cbn [cache_manager CacheManager.hot_cache]. rewrite Hh. exact Hv. }
  unfold execute_gaql. rewrite Hce.
  destruct (CacheManager.get (gaql_cache_key read) (service_type read)
              (cache_manager w1)) as [cached m].
  cbn [fst] in Hres. subst cached.
  destruct v; try congruence; split; reflexivity.
Qed.

Lemma lookup_move_to_end (k : string) (d : OrderedDict.t) (v : pyval) :
  List.NoDup (OrderedDict.keys d) ->
  OrderedDict.lookup k d = Some v ->
  OrderedDict.lookup k (OrderedDict.move_to_end k d) = Some v.
Proof.
  intros Hnd Hl. unfold OrderedDict.move_to_end. rewrite Hl.
  apply lookup_app_absent, remove_absent, Hnd.
Qed.

Lemma lru_ok_get (k : string) (c : LRUCache.t) :
  lru_ok c -> lru_ok (snd (LRUCache.get k c)).
Proof.
  intros [Hnd Hmax]. split; [apply nodup_get, Hnd|].
  unfold LRUCache.get. destruct (OrderedDict.get k (LRUCache.cache c)); exact Hmax.
Qed.

Lemma lru_ok_set (k : string) (v : pyval) (c : LRUCache.t) :
  lru_ok c -> lru_ok (LRUCache.set k v c).
Proof.
  intros [Hnd Hmax]. split; [apply nodup_set, Hnd|].
  unfold LRUCache.set. destruct (LRUCache.over_limit _ c); exact Hmax.
Qed.

(** After a lookup the LRU can still hold an entry, and it holds the
    value the lookup answered. *)
Lemma cache_get_holds (key svc : string) (m : CacheManager.t) :
  lru_ok (CacheManager.hot_cache m) ->
  let r := CacheManager.get key svc m in
  lru_ok (CacheManager.hot_cache (snd r)) /\
  (fst r <> PNone ->
   OrderedDict.lookup key (LRUCache.cache (CacheManager.hot_cache (snd r)))
   = Some (fst r)).
Proof.
  intros Hok. cbn zeta. unfold CacheManager.get.
  pose proof (lru_get_fst key (CacheManager.hot_cache m)) as Hf.
  pose proof (lru_ok_get key _ Hok) as Hok1.
  assert (Hhit : OrderedDict.get key (LRUCache.cache (CacheManager.hot_cache m))
                 <> PNone ->
                 OrderedDict.lookup key
                   (LRUCache.cache (snd (LRUCache.get key (CacheManager.hot_cache m))))
                 = Some (OrderedDict.get key
                           (LRUCache.cache (CacheManager.hot_cache m)))).
  { intros Hnn. unfold LRUCache.get, OrderedDict.get in *.
    destruct (OrderedDict.lookup key (LRUCache.cache (CacheManager.hot_cache m)))
      as [x|] eqn:El; [|congruence].
    destruct x; try congruence; cbn [snd LRUCache.cache];
      (apply lookup_move_to_end; [apply Hok|exact El]). }
  destruct (LRUCache.get key (CacheManager.hot_cache m)) as [result lru].
  cbn [fst snd] in *. subst result.
  destruct (OrderedDict.get key (LRUCache.cache (CacheManager.hot_cache m)))
    eqn:Eg;
    try (cbn [fst snd CacheManager.hot_cache];
         split; [exact Hok1|intros _; apply Hhit; discriminate]).
  unfold CacheManager.redis_lookup. cbn [CacheManager.redis CacheManager.hot_cache].
  destruct (Redis.get (CacheManager.redis_key key) (CacheManager.redis m))
    as [[[cached|]|e] st];
    try (cbn [fst snd CacheManager.hot_cache]; split; [exact Hok1|congruence]).
  destruct (CacheManager.reply_truthy cached);
    try (cbn [fst snd CacheManager.hot_cache]; split; [exact Hok1|congruence]).
  destruct (CacheManager.json_loads cached) as [data|e];
    try (cbn [fst snd CacheManager.hot_cache]; split; [exact Hok1|congruence]).
  cbn [fst snd CacheManager.hot_cache].
  split; [apply lru_ok_set, Hok1|].
  intros _. apply lru_set_lookup; apply Hok1.
Qed.

Lemma gaql_uncached_holds (request : GAQLRequest) (urgency : Z) (w : World)
    (v : pyval) :
  lru_ok (hot_cache w) ->
  cache_enabled request = true ->
  fst (gaql_uncached client request urgency w) = Ok v ->
  truthy v = true ->
  OrderedDict.lookup (gaql_cache_key request)
    (LRUCache.cache (hot_cache (snd (gaql_uncached client request urgency w))))
  = Some v.
Proof.
  intros Hok Hce. unfold gaql_uncached.
  destruct (get_client_tier (client_id request) (redis w)) as [tier st1].
  destruct (is_client_paused (client_id request) st1) as [paused st2].
  destruct paused; [discriminate|].
  destruct (can_run (client_id request) 10 tier st2) as [allowed st3].
  destruct allowed; cbn [negb]; [|discriminate].
  pose proof (execute_operation_cache client
                (SearchCall (client_id request) (query request) (page_size request))
                (client_id request) tier urgency 10 (with_redis w st3))
    as (Hh & _ & _).
  cbn [with_redis hot_cache] in Hh.
  destruct (_execute_operation _ _ _ _ _ _ _) as [[result|e] w4];
    cbn [fst snd] in *; [|discriminate].
  rewrite Hce. cbn [andb].
  destruct (truthy result) eqn:Et; cbn [fst snd]; intros [= <-] Hv;
    [|congruence].
  cbn [with_cache hot_cache CacheManager.set CacheManager.hot_cache cache_manager].
  rewrite Hh. apply lru_set_lookup; apply Hok.
Qed.

(** X28. Read-through. Once a cache-enabled [execute_gaql] has returned a
    truthy result, the same request (at any urgency) is answered with that
    result from the LRU: no upstream call, no scheduling, and the store,
    whatever its state, is not contacted. *)
Theorem execute_gaql_read_through (request : GAQLRequest) (urgency : Z)
    (w : World) (v : pyval) :
  List.NoDup (OrderedDict.keys (LRUCache.cache (hot_cache w))) ->
  1 <= LRUCache.maxsize (hot_cache w) ->
  cache_enabled request = true ->
  fst (execute_gaql client request urgency w) = Ok v ->
  truthy v = true ->
  forall (st : Store) (urgency' : Z),
    let w1 := with_redis (snd (execute_gaql client request urgency w)) st in
    let r2 := execute_gaql client request urgency' w1 in
    fst r2 = Ok v /\
    upstream_calls (snd r2) = upstream_calls w1 /\
    scheduler (snd r2) = scheduler w1 /\
    redis (snd r2) = st.
Proof.
  intros Hnd Hmax Hce Hres Htruthy st urgency'.
  assert (Hnn : v <> PNone) by (intros ->; discriminate Htruthy).
  assert (Hheld : OrderedDict.lookup (gaql_cache_key request)
                    (LRUCache.cache
                       (hot_cache (snd (execute_gaql client request urgency w))))
                  = Some v).
  { revert Hres. unfold execute_gaql. rewrite Hce.
    destruct (cache_get_holds (gaql_cache_key request) (service_type request)
                (cache_manager w)) as [Hok Hheld]; [split; assumption|].
    destruct (CacheManager.get (gaql_cache_key request) (service_type request)
                (cache_manager w)) as [cached m].
    cbn [fst snd] in Hok, Hheld.
    destruct cached; cbn [fst snd];
      try (intros [= <-]; cbn [with_cache hot_cache]; apply Hheld; discriminate).
    intros Hres. apply gaql_uncached_holds; assumption. }
  cbn zeta.
  set (w0 := snd (execute_gaql client request urgency w)) in *.
  destruct (cache_get_lru_hit (gaql_cache_key request) (service_type request)
              (cache_manager (with_redis w0 st)) v) as [H1 H2]; [|exact Hnn|].
  { cbn [cache_manager with_redis CacheManager.hot_cache hot_cache].
    unfold OrderedDict.get. rewrite Hheld. reflexivity. }
  unfold execute_gaql. rewrite Hce.
  destruct (CacheManager.get (gaql_cache_key request) (service_type request)
              (cache_manager (with_redis w0 st))) as [cached m].
  cbn [fst snd] in H1, H2. subst cached.
  destruct v; try congruence; cbn [fst snd with_cache upstream_calls scheduler redis];
    repeat split; exact H2.
Qed.



End RequestProperties.

Section RequestWitnesses.
Import Python Redis QuotaGovernor.

(** A cached report is read again: no upstream call. *)
Lemma execute_gaql_cache_hit_witness :
  fst (GoogleAdsManager.execute_gaql GoogleAdsManager.MockGoogleAdsClient
         report_request 50 after_cached_read)
  = Ok (PList [GoogleAdsManager.mock_row]) /\
  GoogleAdsManager.upstream_calls
    (snd (GoogleAdsManager.execute_gaql GoogleAdsManager.MockGoogleAdsClient
            report_request 50 after_cached_read))
  = GoogleAdsManager.upstream_calls after_cached_read.
Proof.
  pose proof (execute_gaql_cache_hit GoogleAdsManager.MockGoogleAdsClient
                report_request 50 after_cached_read
                (PList [GoogleAdsManager.mock_row]) eq_refl eq_refl
                ltac:(discriminate)) as (H1 & _ & H2 & _).
  split; [exact H1|exact H2].
Defined.


(** Eleven operations cost 550 units; the client has 500. *)
Lemma short_balance_is_refused_witness :
  fst (GoogleAdsManager.execute_mutate GoogleAdsManager.MockGoogleAdsClient
         costly_update 70 funded_world)
  = Raise (AdsError (Errors.mkQuotaExceededError
                       "Insufficient quota for mutate operation" (Some "t"))) /\
  GoogleAdsManager.upstream_calls
    (snd (GoogleAdsManager.execute_mutate GoogleAdsManager.MockGoogleAdsClient
            costly_update 70 funded_world))
  = GoogleAdsManager.upstream_calls funded_world.
Proof.
  pose proof (short_balance_is_refused GoogleAdsManager.MockGoogleAdsClient
                costly_update 70 funded_world 10000 500 10000 eq_refl
                ltac:(discriminate) eq_refl eq_refl eq_refl
                ltac:(right; reflexivity)) as (H1 & H2 & _).
  split; [exact H1|exact H2].
Defined.

(** A report cached before a mutate is served after it. *)
Lemma mutate_keeps_cached_reads_witness :
  fst (GoogleAdsManager.execute_gaql GoogleAdsManager.MockGoogleAdsClient
         report_request 50
         (snd (GoogleAdsManager.execute_mutate
                 GoogleAdsManager.MockGoogleAdsClient bulk_update 70
                 after_cached_read)))
  = Ok (PList [GoogleAdsManager.mock_row]).
Proof.
  pose proof (mutate_keeps_cached_reads GoogleAdsManager.MockGoogleAdsClient
                bulk_update report_request 70 50 after_cached_read
                (PList [GoogleAdsManager.mock_row]) eq_refl eq_refl
                ltac:(discriminate)) as (_ & _ & H & _).
  exact H.
Defined.

(** A report read once is served again while the store is empty and
    unreachable. *)
Lemma execute_gaql_read_through_witness :
  fst (GoogleAdsManager.execute_gaql GoogleAdsManager.MockGoogleAdsClient
         report_request 10
         (GoogleAdsManager.with_redis after_cached_read
            {| kv := ∅; ttl := ∅; faults := [true; true] |}))
  = Ok (PList [GoogleAdsManager.mock_row]).
Proof.
  pose proof (execute_gaql_read_through GoogleAdsManager.MockGoogleAdsClient
                report_request 50 funded_world
                (PList [GoogleAdsManager.mock_row])
                (List.NoDup_nil _) ltac:(vm_compute; discriminate)
                eq_refl eq_refl eq_refl
                {| kv := ∅; ttl := ∅; faults := [true; true] |} 10)
    as (H & _).
  exact H.
Defined.



(** The two ways a request ends in the time-out of its wait. Before
    [start] no worker takes the operation: it stays queued, nothing goes
    upstream and nothing is charged. On a started scheduler whose wait
    runs out, the operation has gone upstream and was charged when the
    caller gets the time-out. *)
Lemma wait_timeout_examples :
  let stopped := GoogleAdsManager.execute_mutate
                   GoogleAdsManager.MockGoogleAdsClient bulk_update 70
                   stopped_world in
  let slow := GoogleAdsManager.execute_mutate
                GoogleAdsManager.MockGoogleAdsClient bulk_update 70
                slow_world in
  (fst stopped = Raise AsyncioTimeoutError /\
   GoogleAdsManager.upstream_calls (snd stopped) = 0%nat /\
   length (PriorityScheduler.queue (GoogleAdsManager.scheduler (snd stopped)))
   = 1%nat /\
   kv (GoogleAdsManager.redis (snd stopped)) = kv funded_store) /\
  (fst slow = Raise AsyncioTimeoutError /\
   GoogleAdsManager.upstream_calls (snd slow) = 1%nat /\
   kv (GoogleAdsManager.redis (snd slow)) !! global_remaining_key
   = Some (RInt 9850) /\
   kv (GoogleAdsManager.redis (snd slow)) !! client_remaining_key "t"
   = Some (RInt 350)).
Proof. cbn zeta. repeat split. Qed.

End RequestWitnesses.

(** ** Role checks *)

Section AccessControl.
Import Auth.

Lemma role_eqb_eq (a b : Role) : role_eqb a b = true <-> a = b.
Proof. destruct a, b; cbn; split; congruence. Qed.

Lemma role_in_In (r : Role) (l : list Role) : role_in r l = true <-> In r l.
Proof.
  unfold role_in. rewrite existsb_exists. split.
  - intros (x & Hx & He). apply role_eqb_eq in He. subst x. exact Hx.
  - intros Hin. exists r. split; [exact Hin|]. apply role_eqb_eq. reflexivity.
Qed.

(** X30. Role checks. A token passes [require_role(allowed)] exactly when
    its role is among the allowed ones, and is then returned unchanged; a
    refusal is an HTTP 403; allowing more roles never turns a pass into a
    refusal; [require_admin] admits ADMIN only, [require_ops] everyone but
    VIEWER, and [require_viewer] every role. *)
Theorem require_role_hierarchy (token_data : TokenData) :
  (forall allowed,
     (require_role allowed token_data = Ok token_data <->
      In (role token_data) allowed) /\
     (forall e, require_role allowed token_data = Raise e -> status_code e = 403)) /\
  (forall allowed allowed',
     incl allowed allowed' ->
     require_role allowed token_data = Ok token_data ->
     require_roles allowed' token_data = Ok token_data) /\
  (require_admin token_data = Ok token_data <-> role token_data = ADMIN) /\
  (require_ops token_data = Ok token_data <-> role token_data <> VIEWER) /\
  require_viewer token_data = Ok token_data.
Proof.
  assert (Hiff : forall allowed,
             require_role allowed token_data = Ok token_data <->
             In (role token_data) allowed).
  { intros allowed. unfold require_role. rewrite <- role_in_In.
    destruct (role_in (role token_data) allowed); cbn; split; congruence. }
  split; [|split; [|split; [|split]]].
  - intros allowed. split; [apply Hiff|].
    intros e. unfold require_role.
    destruct (role_in (role token_data) allowed); cbn; [discriminate|].
    intros [= <-]. reflexivity.
  - intros allowed allowed' Hincl Hok. unfold require_roles.
    apply Hiff. apply Hincl. apply Hiff. exact Hok.
  - unfold require_admin. rewrite Hiff. cbn. intuition congruence.
  - unfold require_ops. rewrite Hiff. cbn.
    destruct (role token_data); intuition congruence.
  - unfold require_viewer. apply Hiff. cbn.
    destruct (role token_data); auto.
Qed.

End AccessControl.
